(** * SSAL: the script parser and the task executor

    A shallow embedding of the SSAL sources (the line parser of
    [parser.ts], the [Executor] class of [executor.ts] in its two
    variants, the data model of [utils.ts], and the part of [main] in
    [ssal.ts] that runs the tasks named on the command line) together
    with proofs of the properties its specification states and of
    further properties of the code.

    Conventions of the embedding.
    - A JavaScript string is a [string]; a character is one code unit in
      the range 0..255.  The character classes of the regular
      expressions ([\s], [\w], [.]) are the ECMAScript ones restricted to
      that range.
    - A plain object used as a dictionary is the list of its own
      enumerable entries in the order [Object.entries] lists them.  A
      lookup by key sees these entries only, while the code's lookup
      [this.taskArgs[taskName]] is also answered by the names a plain
      object inherits, and an assignment of an array to the key __proto__
      replaces the prototype.  [ordinaryLookup] marks the lookups that
      the entries answer as the code does; the statements that depend on
      the answer carry it.  An assignment of a text to the key __proto__
      stores nothing ([assign]).
    - [new RegExp] of a backslash-escaped sigil followed by an interpolated
      name is read as the literal text sigil-then-name.  This is what the
      regular expression denotes when the name holds no syntax character
      ([literalName]); every name the [\w+] grammar of the parser accepts
      is of that kind.
    - The host (process environment, file system, child processes, path
      resolution, the wording of engine errors) is a record [Host] of
      functions; console and stream writes are collected in a trace.  A
      child process is followed to the call of the callback of [exec],
      which receives an error unless the child ended with status 0; a
      child that never ends is outside the model.
    - [async]/[await] is sequential state passing.  Task recursion through
      [tsk] is bounded by a fuel argument that counts nesting depth.
      [None] says that the nesting is deeper than the fuel allows; the
      model then tells nothing about the run (the engine goes on, or
      ends the run with a failure once its stack is exhausted).  The
      stack is taken to suffice for the nesting a result is given for.
    - The state of a run carries, besides what the source has, a record
      of the calls of [executeCommand]; no function reads it.  It serves
      to state which commands were dispatched. *)

From Stdlib Require Import String Ascii List Bool Arith NArith Lia.
From Stdlib Require Import DecimalString DecimalNat.
Import ListNotations.
Open Scope list_scope.
Open Scope string_scope.

(** ** Characters and strings *)

Module JSString.

Definition code (c : ascii) : nat := nat_of_ascii c.

Definition chr (n : nat) : string := String (ascii_of_nat n) EmptyString.

(** The double quote, the dollar sign, the question mark, line feed. *)
Definition dq : string := chr 34.
Definition dqc : ascii := ascii_of_nat 34.
Definition dollar : ascii := ascii_of_nat 36.
Definition qmark : ascii := ascii_of_nat 63.
Definition lf : ascii := ascii_of_nat 10.

(** [\s] (and the characters [trim] strips): TAB, LF, VT, FF, CR, SP, NBSP. *)
Definition is_space (c : ascii) : bool :=
  let n := code c in
  (Nat.leb 9 n && Nat.leb n 13) || Nat.eqb n 32 || Nat.eqb n 160.

Definition is_digit (c : ascii) : bool :=
  let n := code c in Nat.leb 48 n && Nat.leb n 57.

(** [\w]: letters, digits and underscore. *)
Definition is_word (c : ascii) : bool :=
  let n := code c in
  (Nat.leb 48 n && Nat.leb n 57) || (Nat.leb 65 n && Nat.leb n 90)
  || (Nat.leb 97 n && Nat.leb n 122) || Nat.eqb n 95.

(** Line terminators, the characters [.] refuses: LF and CR. *)
Definition is_lineterm (c : ascii) : bool :=
  let n := code c in Nat.eqb n 10 || Nat.eqb n 13.

Definition not_dq (c : ascii) : bool := negb (Ascii.eqb c dqc).

(** ECMAScript SyntaxCharacter: ^ $ \ . * + ? ( ) [ ] { } | *)
Definition is_syntax (c : ascii) : bool :=
  existsb (Nat.eqb (code c)) [94; 36; 92; 46; 42; 43; 63; 40; 41; 91; 93; 123; 125; 124].

Fixpoint forallb_str (p : ascii -> bool) (s : string) : bool :=
  match s with
  | EmptyString => true
  | String c s' => p c && forallb_str p s'
  end.

Definition literalName (s : string) : bool :=
  forallb_str (fun c => negb (is_syntax c)) s.

(** No occurrence of the character [x]. *)
Definition lacks (x : ascii) (s : string) : bool :=
  forallb_str (fun c => negb (Ascii.eqb c x)) s.

Fixpoint drop (n : nat) (s : string) : string :=
  match n, s with
  | 0, _ => s
  | S k, EmptyString => EmptyString
  | S k, String _ s' => drop k s'
  end.

(** [s.startsWith(p)] *)
Definition startsWith (p s : string) : bool := String.prefix p s.

(** The longest prefix of characters satisfying [p], and the rest. *)
Fixpoint span (p : ascii -> bool) (s : string) : string * string :=
  match s with
  | EmptyString => (EmptyString, EmptyString)
  | String c s' =>
      if p c then let (a, b) := span p s' in (String c a, b)
      else (EmptyString, s)
  end.

Definition trimStart (s : string) : string := snd (span is_space s).

Fixpoint trimEnd (s : string) : string :=
  match s with
  | EmptyString => EmptyString
  | String c s' =>
      match trimEnd s' with
      | EmptyString => if is_space c then EmptyString else String c EmptyString
      | r => String c r
      end
  end.

(** [s.trim()] *)
Definition trim (s : string) : string := trimEnd (trimStart s).

(** [s.split('\n')] *)
Fixpoint split_lines (s : string) : list string :=
  match s with
  | EmptyString => [EmptyString]%list
  | String c s' =>
      if Ascii.eqb c lf then EmptyString :: split_lines s'
      else match split_lines s' with
           | l :: ls => String c l :: ls
           | [] => [String c EmptyString]
           end
  end.

(** [String(n)] for a natural number. *)
Definition decimal (n : nat) : string := NilEmpty.string_of_uint (Nat.to_uint n).

(** *** Replacement templates

    [GetSubstitution] for a match without capture groups: in the
    replacement text, [$$] stands for a dollar sign, [$&] for the matched
    text, [$`] for the text before the match and [$'] for the text after
    it; every other character, a lone dollar sign included, stands for
    itself. *)
Fixpoint GetSubstitution (matched before after : string) (template : string) : string :=
  match template with
  | EmptyString => EmptyString
  | String c t =>
      if Ascii.eqb c dollar then
        match t with
        | String d t' =>
            match code d with
            | 36 => String dollar (GetSubstitution matched before after t')
            | 38 => matched ++ GetSubstitution matched before after t'
            | 96 => before ++ GetSubstitution matched before after t'
            | 39 => after ++ GetSubstitution matched before after t'
            | _ => String c (GetSubstitution matched before after t)
            end
        | EmptyString => String c EmptyString
        end
      else String c (GetSubstitution matched before after t)
  end.

(** *** [s.replace(new RegExp(pat, 'g'), template)] for a literal, non-empty
    pattern: a left-to-right scan; at a match the expanded template is
    emitted and the scan resumes after the match.  [before] is the text
    already passed; [skip] counts the characters of the current match
    still to be passed over. *)
Fixpoint replaceAllFrom (pat template : string) (before : string) (skip : nat)
    (s : string) : string :=
  match s with
  | EmptyString => EmptyString
  | String c s' =>
      match skip with
      | S k => replaceAllFrom pat template (before ++ String c EmptyString) k s'
      | 0 =>
          if String.prefix pat s then
            GetSubstitution pat before (drop (String.length pat) s) template
            ++ replaceAllFrom pat template (before ++ String c EmptyString)
                 (String.length pat - 1) s'
          else
            String c (replaceAllFrom pat template (before ++ String c EmptyString) 0 s')
      end
  end.

Definition replaceAll (pat template s : string) : string :=
  replaceAllFrom pat template EmptyString 0 s.

(** *** [s.replace(pat, template)] for a string pattern: the first
    occurrence only. *)
Fixpoint replaceFirstFrom (pat template : string) (before : string) (s : string) : string :=
  if String.prefix pat s then
    GetSubstitution pat before (drop (String.length pat) s) template
    ++ drop (String.length pat) s
  else
    match s with
    | EmptyString => EmptyString
    | String c s' =>
        String c (replaceFirstFrom pat template (before ++ String c EmptyString) s')
    end.

Definition replaceFirst (pat template s : string) : string :=
  replaceFirstFrom pat template EmptyString s.

(** *** Anchored matchers: each consumes a prefix and returns the rest. *)

Definition lit (p s : string) : option string :=
  if String.prefix p s then Some (drop (String.length p) s) else None.

(** One or more characters of a class, greedily. *)
Definition many1 (p : ascii -> bool) (s : string) : option (string * string) :=
  match span p s with
  | (EmptyString, _) => None
  | r => Some r
  end.

(** The leftmost start position at which the anchored matcher [m]
    succeeds, scanning as [String.prototype.match] does. *)
Fixpoint search {A : Type} (m : string -> option A) (s : string) : option A :=
  match m s with
  | Some r => Some r
  | None =>
      match s with
      | EmptyString => None
      | String _ s' => search m s'
      end
  end.

End JSString.

(** ** Plain objects used as dictionaries *)

Module JSObject.
Import JSString.

(** The value of a canonical array index: a decimal numeral without a
    leading zero, below 2^32 - 1.  Such keys are listed first, in
    ascending order, by [Object.entries]. *)
Fixpoint digits_value (acc : N) (s : string) : option N :=
  match s with
  | EmptyString => Some acc
  | String c s' =>
      if is_digit c then digits_value (acc * 10 + N.of_nat (code c - 48))%N s'
      else None
  end.

Definition arrayIndex (k : string) : option N :=
  match k with
  | EmptyString => None
  | String c rest =>
      if Nat.eqb (code c) 48 && negb (String.eqb rest EmptyString) then None
      else if Nat.ltb 10 (String.length k) then None
      else match digits_value 0%N k with
           | Some n => if (n <? 4294967295)%N then Some n else None
           | None => None
           end
  end.

Section Entries.
Context {V : Type}.

Definition entries := list (string * V).

Fixpoint get (k : string) (o : entries) : option V :=
  match o with
  | [] => None
  | (k', v) :: o' => if String.eqb k' k then Some v else get k o'
  end.

Fixpoint overwrite (k : string) (v : V) (o : entries) : entries :=
  match o with
  | [] => []
  | (k', v') :: o' =>
      if String.eqb k' k then (k', v) :: o' else (k', v') :: overwrite k v o'
  end.

(** Where a new index key goes: before the first key that is not an
    index or is a larger index. *)
Fixpoint insertIndex (i : N) (k : string) (v : V) (o : entries) : entries :=
  match o with
  | [] => [(k, v)]
  | (k', v') :: o' =>
      match arrayIndex k' with
      | Some j => if (j <? i)%N then (k', v') :: insertIndex i k v o'
                  else (k, v) :: o
      | None => (k, v) :: o
      end
  end.

(** [o[k] = v] *)
Definition set (k : string) (v : V) (o : entries) : entries :=
  match get k o with
  | Some _ => overwrite k v o
  | None =>
      match arrayIndex k with
      | Some i => insertIndex i k v o
      | None => (o ++ [(k, v)])%list
      end
  end.

(** [o[k] = v] for a value that is no object (a text).  The key
    __proto__ names the accessor every plain object inherits, and its
    setter ignores such a value: nothing is stored.  Every other key is
    stored as [set] does it. *)
Definition assign (k : string) (v : V) (o : entries) : entries :=
  if String.eqb k "__proto__" then o else set k v o.

End Entries.
Arguments entries : clear implicits.

(** The names a plain object inherits from [Object.prototype]. *)
Definition inheritedNames : list string :=
  ["constructor"; "__defineGetter__"; "__defineSetter__"; "hasOwnProperty";
   "__lookupGetter__"; "__lookupSetter__"; "isPrototypeOf";
   "propertyIsEnumerable"; "toString"; "valueOf"; "__proto__"; "toLocaleString"].

Definition inherited (k : string) : bool := existsb (String.eqb k) inheritedNames.

Definition hasKey {V : Type} (k : string) (o : entries V) : bool :=
  match get k o with
  | Some _ => true
  | None => false
  end.

End JSObject.

(** ** The data model ([utils.ts]) *)

Record Command := mkCommand { cmd_type : string; cmd_args : list string }.

Record Task := mkTask { task_name : string; task_commands : list Command }.

(** [Variable] of the source ([Variable] is reserved here). *)
Record ScriptVariable := mkVariable { var_name : string; var_value : string }.

Record SSALScript := mkScript { variables : list ScriptVariable; tasks : list Task }.

Record ExecutionResult := mkResult { success : bool; message : option string }.

(** ** The parser ([parser.ts]) *)

Module Parser.
Import JSString.

(** The pattern of a var line, anchored at the start of [s]: the text
    var, white space, the name (one or more word characters), optional
    white space, an equals sign, optional white space, and a double-quoted
    value free of double quotes that ends the input.  Every greedy run is
    followed by an atom outside its class, so the run never gives a
    character back. *)
Definition match_var (s : string) : option (string * string) :=
  match lit "var" s with
  | None => None
  | Some s1 =>
  match many1 is_space s1 with
  | None => None
  | Some (_, s2) =>
  match many1 is_word s2 with
  | None => None
  | Some (name, s3) =>
  match lit "=" (snd (span is_space s3)) with
  | None => None
  | Some s4 =>
  match lit dq (snd (span is_space s4)) with
  | None => None
  | Some s5 =>
  let (value, s6) := span not_dq s5 in
  match lit dq s6 with
  | Some EmptyString => Some (name, value)
  | _ => None
  end end end end end end.

(** The pattern of a task line, anchored at the start of [s]: the text
    task, white space, the name (word characters) and a colon that ends
    the input. *)
Definition match_task (s : string) : option string :=
  match lit "task" s with
  | None => None
  | Some s1 =>
  match many1 is_space s1 with
  | None => None
  | Some (_, s2) =>
  match many1 is_word s2 with
  | None => None
  | Some (name, s3) =>
  match lit ":" s3 with
  | Some EmptyString => Some name
  | _ => None
  end end end end.

(** The test for a command line: white space, then a word character. *)
Definition match_indented (s : string) : bool :=
  match many1 is_space s with
  | None => false
  | Some (_, s1) =>
      match many1 is_word s1 with
      | None => false
      | Some _ => true
      end
  end.

(** The common head of the four command patterns (white space, a
    keyword of word characters, white space): the keyword, the white space
    after it, and the rest. *)
Definition match_keyword (s : string) : option (string * string * string) :=
  match many1 is_space s with
  | None => None
  | Some (_, s1) =>
  match many1 is_word s1 with
  | None => None
  | Some (kw, s2) =>
  match many1 is_space s2 with
  | None => None
  | Some (w, s3) => Some (kw, w, s3)
  end end end.

(** A double-quoted argument free of double quotes, and the rest. *)
Definition match_quoted (s : string) : option (string * string) :=
  match lit dq s with
  | None => None
  | Some s1 =>
      let (q, s2) := span not_dq s1 in
      match lit dq s2 with
      | None => None
      | Some s3 => Some (q, s3)
      end
  end.

(** First pattern: keyword, two quoted arguments separated by white
    space, end of input. *)
Definition match_two_quoted (s : string) : option (string * string * string) :=
  match match_keyword s with
  | None => None
  | Some (kw, _, s1) =>
  match match_quoted s1 with
  | None => None
  | Some (a, s2) =>
  match many1 is_space s2 with
  | None => None
  | Some (_, s3) =>
  match match_quoted s3 with
  | Some (b, EmptyString) => Some (kw, a, b)
  | _ => None
  end end end end.

(** Second pattern: keyword, one quoted argument, end of input. *)
Definition match_one_quoted (s : string) : option (string * string) :=
  match match_keyword s with
  | None => None
  | Some (kw, _, s1) =>
  match match_quoted s1 with
  | Some (a, EmptyString) => Some (kw, a)
  | _ => None
  end end.

(** Third pattern: keyword, one quoted argument, optional white space
    and a tail of characters other than line terminators up to the end of
    input.  After the closing quote the white space run is taken whole and
    what follows must hold no line terminator (a shorter white space run
    would leave the same text to the tail). *)
Definition match_quoted_tail (s : string) : option (string * string * string) :=
  match match_keyword s with
  | None => None
  | Some (kw, _, s1) =>
  match match_quoted s1 with
  | None => None
  | Some (a, s2) =>
      let tail := snd (span is_space s2) in
      if forallb_str (fun c => negb (is_lineterm c)) tail
      then Some (kw, a, tail) else None
  end end.

Fixpoint last_char (s : string) : option ascii :=
  match s with
  | EmptyString => None
  | String c EmptyString => Some c
  | String _ s' => last_char s'
  end.

(** Fourth pattern: keyword, white space, and one or more characters
    other than line terminators up to the end of input.  The white space
    run after the keyword is taken whole when text follows it; at the end
    of the line it gives back its last character, which the tail takes. *)
Definition match_unquoted (s : string) : option (string * string) :=
  match match_keyword s with
  | None => None
  | Some (kw, w, EmptyString) =>
      match last_char w with
      | Some c =>
          if Nat.ltb 1 (String.length w) && negb (is_lineterm c)
          then Some (kw, String c EmptyString) else None
      | None => None
      end
  | Some (kw, _, rest) =>
      if forallb_str (fun c => negb (is_lineterm c)) rest
      then Some (kw, rest) else None
  end.

(** The loop state: the script built so far and [currentTask], a
    reference to one of the tasks of [script.tasks], held as its index. *)
Record State := mkState { script : SSALScript; currentTask : option nat }.

Fixpoint update {A : Type} (i : nat) (f : A -> A) (l : list A) : list A :=
  match l, i with
  | [], _ => []
  | x :: l', 0 => f x :: l'
  | x :: l', S j => x :: update j f l'
  end.

(** [script.variables.push(v)] *)
Definition pushVariable (v : ScriptVariable) (st : State) : State :=
  mkState (mkScript (variables (script st) ++ [v])%list (tasks (script st))) (currentTask st).

(** [currentTask.commands.push(c)], with [currentTask] the task at [i]. *)
Definition pushCommand (i : nat) (c : Command) (st : State) : State :=
  mkState
    (mkScript (variables (script st))
       (update i (fun t => mkTask (task_name t) (task_commands t ++ [c])%list)
          (tasks (script st))))
    (currentTask st).

(** [currentTask = {name, commands: []}; script.tasks.push(currentTask)] *)
Definition openTask (n : string) (st : State) : State :=
  mkState
    (mkScript (variables (script st)) (tasks (script st) ++ [mkTask n []])%list)
    (Some (List.length (tasks (script st)))).

(** The cascade of command patterns, most specific first. *)
Definition parseCommand (rawLine : string) : option Command :=
  match search match_two_quoted rawLine with
  | Some (kw, a, b) => Some (mkCommand kw [a; b])
  | None =>
  match search match_one_quoted rawLine with
  | Some (kw, a) => Some (mkCommand kw [a])
  | None =>
  match search match_quoted_tail rawLine with
  | Some (kw, a, tail) =>
      Some (mkCommand kw
              [a ++ (if String.eqb tail EmptyString then EmptyString
                     else " " ++ trim tail)])
  | None =>
  match search match_unquoted rawLine with
  | Some (kw, rest) => Some (mkCommand kw [rest])
  | None => None
  end end end end.

(** One iteration of the loop over the lines. *)
Definition parseLine (st : State) (rawLine : string) : State :=
  let line := trim rawLine in
  if String.eqb line EmptyString || startsWith "#" line then st
  else if startsWith "var " line then
    match search match_var line with
    | Some (n, v) =>
        match currentTask st with
        | Some i => pushCommand i (mkCommand "var" [n; v]) st
        | None => pushVariable (mkVariable n v) st
        end
    | None => st
    end
  else if startsWith "task " line then
    match search match_task line with
    | Some n => openTask n st
    | None => st
    end
  else
    match currentTask st with
    | Some i =>
        if match_indented rawLine then
          match parseCommand rawLine with
          | Some c => pushCommand i c st
          | None => st
          end
        else st
    | None => st
    end.

Definition parseSSALContent (content : string) : SSALScript :=
  script (fold_left parseLine (split_lines content) (mkState (mkScript [] []) None)).

End Parser.

(** ** The host *)

(** The error [exec] hands to its callback: its message and, when the
    child ended with a status (which then is not 0), that status; there
    is no status when the child could not be started or was killed. *)
Record ExecError := mkExecError {
  error_message : string;
  error_code : option nat
}.

(** What the callback of [exec] receives: the error, and the two
    captured streams.  [exec] hands over no error exactly when the child
    ended with status 0. *)
Record ExecOutcome := mkOutcome {
  exec_error : option ExecError;
  exec_stdout : string;
  exec_stderr : string
}.


Record Host := mkHost {
  World : Type;
  (** [process.env[name]]: [None] is [undefined]. *)
  process_env : string -> option string;
  (** [path.resolve(dir, p)] *)
  path_resolve : string -> string -> string;
  (** [fs.existsSync(p)] *)
  existsSync : World -> string -> bool;
  (** [fs.unlinkSync(p)]: [Some msg] when it throws an [Error] with that
      message. *)
  unlinkSync : World -> string -> World * option string;
  (** [exec(command, {cwd}, callback)], run to the call of the callback.
      A child that never ends never calls back; a run with such a child
      has no state after it and is outside the model. *)
  exec : World -> string -> string -> World * ExecOutcome;
  (** The message of the [TypeError] raised when a property of that name
      is read on [undefined]. *)
  undefined_read : string -> string;
  (** The message of the [TypeError] the named library function raises
      when it is handed [undefined] for a string. *)
  bad_argument : string -> string
}.

(** What reaches the console and the standard streams. *)
Inductive Output :=
| console_log (s : string)
| console_warn (s : string)
| stdout_write (s : string)
| stderr_write (s : string).

(** The outcome of an expression that may throw. *)
Inductive completion (A : Type) :=
| Normal (a : A)
| Throw (msg : string).
Arguments Normal {A} a.
Arguments Throw {A} msg.

(** ** What the two variants of the executor share *)

Module Common.
Import JSString.

Definition completed (taskName : string) : ExecutionResult :=
  mkResult true (Some ("Task " ++ dq ++ taskName ++ dq ++ " completed successfully")).

Definition notFound (taskName : string) : ExecutionResult :=
  mkResult false (Some ("Task " ++ dq ++ taskName ++ dq ++ " not found")).

(** The [catch] clause of [executeCommand]. *)
Definition commandError (c : Command) (msg : string) : ExecutionResult :=
  mkResult false
    (Some ("Error executing command " ++ dq ++ cmd_type c ++ dq ++ ": " ++ msg)).

(** [script.tasks.find(t => t.name === taskName)] *)
Definition findTask (taskName : string) (s : SSALScript) : option Task :=
  find (fun t => String.eqb (task_name t) taskName) (tasks s).

(** The loop of [executeTask] over the commands of the task; [M] is the
    state the commands act on. *)
Fixpoint forCommands {M : Type} (step : Command -> M -> option (ExecutionResult * M))
    (taskName : string) (cmds : list Command) (m : M)
    : option (ExecutionResult * M) :=
  match cmds with
  | [] => Some (completed taskName, m)
  | command :: rest =>
      match step command m with
      | None => None
      | Some (result, m') =>
          if success result then forCommands step taskName rest m'
          else Some (result, m')
      end
  end.

End Common.

(** ** The executor ([executor.ts], the variant with arguments and
    runtime variables) *)

Module Exec.
Import JSString JSObject Common.

Record Executor := mkExecutor {
  script : SSALScript;
  workingDir : string;
  taskArgs : entries (list string);
  namedArgs : entries string;
  globalVariables : entries string
}.

(** [new Executor(script, workingDir)] *)
Definition newExecutor (s : SSALScript) (dir : string) : Executor :=
  mkExecutor s dir [] [] [].

(** [setTaskArgs(taskName, args)].  For the task name __proto__ the
    assignment stores no property: it makes the array the prototype of
    the object, after which the object answers further names (indices,
    length, the names arrays inherit).  The model keeps an entry instead;
    [Notions.ordinaryLookup] marks the lookups this does not touch. *)
Definition setTaskArgs (taskName : string) (args : list string) (e : Executor) : Executor :=
  mkExecutor (script e) (workingDir e) (set taskName args (taskArgs e))
    (namedArgs e) (globalVariables e).

Definition setNamedArgs (args : entries string) (e : Executor) : Executor :=
  mkExecutor (script e) (workingDir e) (taskArgs e) args (globalVariables e).

(** *** Variable resolution, pass by pass *)

(** [taskArgs.forEach((arg, index) => ...)]: the pattern is the question
    mark followed by the decimal numeral of [index + 1]. *)
Fixpoint replaceTaskArgs (index : nat) (args : list string) (result : string) : string :=
  match args with
  | [] => result
  | arg :: rest =>
      replaceTaskArgs (S index) rest
        (replaceAll (String qmark (decimal (index + 1))) arg result)
  end.

(** The loops over [Object.entries]: the sigil followed by the key. *)
Fixpoint replaceEntries (sigil : ascii) (o : entries string) (result : string) : string :=
  match o with
  | [] => result
  | (key, value) :: rest =>
      replaceEntries sigil rest (replaceAll (String sigil key) value result)
  end.

(** The loop over [script.variables]. *)
Fixpoint replaceScriptVariables (vs : list ScriptVariable) (result : string) : string :=
  match vs with
  | [] => result
  | v :: rest =>
      replaceScriptVariables rest
        (replaceAll (String dollar (var_name v)) (var_value v) result)
  end.

(** The text of an environment reference to [n]. *)
Definition envToken (n : string) : string := "$env(" ++ dq ++ n ++ dq ++ ")".

(** The environment pattern anchored at the start of [s]: the name (one
    or more characters other than a double quote) and the rest. *)
Definition match_env (s : string) : option (string * string) :=
  match lit ("$env(" ++ dq) s with
  | None => None
  | Some s1 =>
      match many1 not_dq s1 with
      | None => None
      | Some (n, s2) =>
          match lit (dq ++ ")") s2 with
          | None => None
          | Some s3 => Some (n, s3)
          end
      end
  end.

(** [result.match(re)] with the global flag: the matched texts from left
    to right, the scan resuming after each match.  [skip] counts the
    characters of the current match still to be passed over. *)
Fixpoint envVarMatches (skip : nat) (s : string) : list string :=
  match s with
  | EmptyString => []
  | String c s' =>
      match skip with
      | S k => envVarMatches k s'
      | 0 =>
          match match_env s with
          | Some (n, _) =>
              envToken n :: envVarMatches (String.length (envToken n) - 1) s'
          | None => envVarMatches 0 s'
          end
      end
  end.

Section WithHost.
Context (H : Host).

(** The body of the loop over the matches. *)
Definition replaceEnvMatch (result : string) (m : string) : string :=
  match search match_env m with
  | Some (varName, _) =>
      if negb (String.eqb varName EmptyString) then
        match process_env H varName with
        | Some v => replaceFirst m v result
        | None => result
        end
      else result
  | None => result
  end.

Definition replaceEnv (result : string) : string :=
  fold_left replaceEnvMatch (envVarMatches 0 result) result.

(** The four passes that substitute names, in the order of the source.
    The arguments of the task are the entry of its name, or none: this is
    what [this.taskArgs[taskName] || []] gives where
    [Notions.ordinaryLookup] holds.  Elsewhere the code finds an
    inherited value that is no array, and throws. *)
Definition replaceNames (e : Executor) (taskName : string) (input : string) : string :=
  let args := match get taskName (taskArgs e) with Some a => a | None => [] end in
  replaceEntries dollar (globalVariables e)
    (replaceScriptVariables (variables (script e))
       (replaceEntries qmark (namedArgs e)
          (replaceTaskArgs 0 args input))).

(** The first method called on [result]: [replace] when one of the four
    loops has an element, else [match] (with the arguments of the task
    looked up as in [replaceNames]). *)
Definition firstMethod (e : Executor) (taskName : string) : string :=
  match get taskName (taskArgs e), namedArgs e, variables (script e), globalVariables e with
  | (None | Some []), [], [], [] => "match"
  | _, _, _, _ => "replace"
  end.

(** [replaceVariables(taskName, input)]; [input] is [None] when the
    command has no such argument ([undefined]). *)
Definition replaceVariables (e : Executor) (taskName : string) (input : option string)
    : completion string :=
  match input with
  | None => Throw (undefined_read H (firstMethod e taskName))
  | Some s => Normal (replaceEnv (replaceNames e taskName s))
  end.

(** *** The running executor: the object, the host's world, what was
    written so far, and a record of the calls of [executeCommand]. *)
Record Machine := mkMachine {
  this : Executor;
  world : World H;
  output : list Output;
  dispatched : list (string * Command)
}.

Definition start (e : Executor) (w : World H) : Machine := mkMachine e w [] [].

Definition write (o : Output) (m : Machine) : Machine :=
  mkMachine (this m) (world m) (output m ++ [o])%list (dispatched m).

Definition with_world (w : World H) (m : Machine) : Machine :=
  mkMachine (this m) w (output m) (dispatched m).

Definition with_this (e : Executor) (m : Machine) : Machine :=
  mkMachine e (world m) (output m) (dispatched m).

Definition record_call (taskName : string) (c : Command) (m : Machine) : Machine :=
  mkMachine (this m) (world m) (output m) (dispatched m ++ [(taskName, c)])%list.

Definition ok : ExecutionResult := mkResult true None.

(** [setVariable(name, value)] *)
Definition setVariable (name value : string) (m : Machine) : ExecutionResult * Machine :=
  let e := this m in
  (ok,
   with_this
     (mkExecutor (script e) (workingDir e) (taskArgs e) (namedArgs e)
        (assign name value (globalVariables e)))
     m).

(** [runCommand(command)], to the resolution of its promise. *)
Definition runCommand (command : string) (m : Machine) : ExecutionResult * Machine :=
  let m1 := write (console_log ("Running: " ++ command)) m in
  let (w, out) := exec H (world m1) command (workingDir (this m1)) in
  let m2 := with_world w m1 in
  let m3 := if String.eqb (exec_stdout out) EmptyString then m2
            else write (stdout_write (exec_stdout out)) m2 in
  let m4 := if String.eqb (exec_stderr out) EmptyString then m3
            else write (stderr_write (exec_stderr out)) m3 in
  match exec_error out with
  | Some error =>
      (mkResult false (Some ("Command failed: " ++ error_message error)), m4)
  | None => (mkResult true (Some "Command executed successfully"), m4)
  end.

(** [deleteFile(filePath)] *)
Definition deleteFile (filePath : string) (m : Machine) : ExecutionResult * Machine :=
  let fullPath := path_resolve H (workingDir (this m)) filePath in
  if existsSync H (world m) fullPath then
    match unlinkSync H (world m) fullPath with
    | (w, None) => (ok, write (console_log ("Deleted: " ++ filePath)) (with_world w m))
    | (w, Some msg) =>
        (mkResult false (Some ("Failed to delete " ++ filePath ++ ": " ++ msg)),
         with_world w m)
    end
  else
    (ok, write (console_warn ("Warning: File " ++ filePath ++ " does not exist")) m).

(** [echo(message)] *)
Definition echo (msg : string) (m : Machine) : ExecutionResult * Machine :=
  (ok, write (console_log msg) m).

(** The type of [executeTask], as the functions that call it back see it. *)
Definition TaskRunner := string -> Machine -> option (ExecutionResult * Machine).

(** [runTask(taskName)] *)
Definition runTask (executeTask : TaskRunner) (taskName : string) (m : Machine)
    : option (ExecutionResult * Machine) :=
  match executeTask taskName (write (console_log ("Running task: " ++ taskName)) m) with
  | None => None
  | Some (result, m') =>
      if success result then Some (completed taskName, m') else Some (result, m')
  end.

(** [executeCommand(taskName, command)] *)
Definition executeCommandWith (executeTask : TaskRunner) (taskName : string)
    (command : Command) (m0 : Machine) : option (ExecutionResult * Machine) :=
  let m := record_call taskName command m0 in
  let resolved (i : nat) := replaceVariables (this m) taskName (nth_error (cmd_args command) i) in
  let caught (msg : string) := Some (commandError command msg, m) in
  if String.eqb (cmd_type command) "run" then
    match resolved 0 with
    | Normal s => Some (runCommand s m)
    | Throw msg => caught msg
    end
  else if String.eqb (cmd_type command) "del" then
    match resolved 0 with
    | Normal s => Some (deleteFile s m)
    | Throw msg => caught msg
    end
  else if String.eqb (cmd_type command) "ech" then
    match resolved 0 with
    | Normal s => Some (echo s m)
    | Throw msg => caught msg
    end
  else if String.eqb (cmd_type command) "tsk" then
    match resolved 0 with
    | Normal s => runTask executeTask s m
    | Throw msg => caught msg
    end
  else if String.eqb (cmd_type command) "var" then
    let varName := match nth_error (cmd_args command) 0 with
                   | Some n => n
                   | None => "undefined"
                   end in
    match resolved 1 with
    | Normal varValue => Some (setVariable varName varValue m)
    | Throw msg => caught msg
    end
  else
    Some (mkResult false (Some ("Unknown command: " ++ cmd_type command)), m).

(** [executeTask(taskName)]; [fuel] bounds the depth of [tsk] nesting. *)
Fixpoint executeTask (fuel : nat) (taskName : string) (m : Machine)
    : option (ExecutionResult * Machine) :=
  match findTask taskName (script (this m)) with
  | None => Some (notFound taskName, m)
  | Some task =>
      forCommands
        (executeCommandWith
           (match fuel with
            | 0 => fun _ _ => None
            | S fuel' => executeTask fuel'
            end)
           taskName)
        taskName (task_commands task) m
  end.

Definition nested (fuel : nat) : TaskRunner :=
  match fuel with
  | 0 => fun _ _ => None
  | S fuel' => executeTask fuel'
  end.

Definition executeCommand (fuel : nat) : string -> Command -> Machine -> option (ExecutionResult * Machine) :=
  executeCommandWith (nested fuel).

(** *** A session: the calls a client makes on one executor. *)
Inductive Call :=
| CallSetTaskArgs (taskName : string) (args : list string)
| CallSetNamedArgs (args : entries string)
| CallExecuteTask (taskName : string).

Definition perform (fuel : nat) (m : Machine) (c : Call) : option Machine :=
  match c with
  | CallSetTaskArgs n a => Some (with_this (setTaskArgs n a (this m)) m)
  | CallSetNamedArgs a => Some (with_this (setNamedArgs a (this m)) m)
  | CallExecuteTask n =>
      match executeTask fuel n m with
      | Some (_, m') => Some m'
      | None => None
      end
  end.

Fixpoint session (fuel : nat) (m : Machine) (cs : list Call) : option Machine :=
  match cs with
  | [] => Some m
  | c :: rest =>
      match perform fuel m c with
      | Some m' => session fuel m' rest
      | None => None
      end
  end.

End WithHost.

End Exec.

(** ** The executor, the other variant of [executor.ts] (declared
    variables and environment references only; no arguments, no [var]
    command) *)

Module Legacy.
Import JSString Common.

Record Executor := mkExecutor { script : SSALScript; workingDir : string }.

Definition newExecutor (s : SSALScript) (dir : string) : Executor := mkExecutor s dir.

Section WithHost.
Context (H : Host).

(** [replaceVariables(input)] *)
Definition replaceVariables (e : Executor) (input : string) : string :=
  Exec.replaceEnv H (Exec.replaceScriptVariables (variables (script e)) input).

Record Machine := mkMachine {
  this : Executor;
  world : World H;
  output : list Output;
  dispatched : list Command
}.

Definition start (e : Executor) (w : World H) : Machine := mkMachine e w [] [].

Definition write (o : Output) (m : Machine) : Machine :=
  mkMachine (this m) (world m) (output m ++ [o])%list (dispatched m).

Definition with_world (w : World H) (m : Machine) : Machine :=
  mkMachine (this m) w (output m) (dispatched m).

Definition record_call (c : Command) (m : Machine) : Machine :=
  mkMachine (this m) (world m) (output m) (dispatched m ++ [c])%list.

Definition ok : ExecutionResult := mkResult true None.

(** [runCommand(command)], to the resolution of its promise. *)
Definition runCommand (command : string) (m : Machine) : ExecutionResult * Machine :=
  let m1 := write (console_log ("Running: " ++ command)) m in
  let (w, out) := exec H (world m1) command (workingDir (this m1)) in
  let m2 := with_world w m1 in
  let m3 := if String.eqb (exec_stdout out) EmptyString then m2
            else write (stdout_write (exec_stdout out)) m2 in
  let m4 := if String.eqb (exec_stderr out) EmptyString then m3
            else write (stderr_write (exec_stderr out)) m3 in
  match exec_error out with
  | Some error =>
      (mkResult false (Some ("Command failed: " ++ error_message error)), m4)
  | None => (mkResult true (Some "Command executed successfully"), m4)
  end.

(** [deleteFile(filePath)] *)
Definition deleteFile (filePath : string) (m : Machine) : ExecutionResult * Machine :=
  let fullPath := path_resolve H (workingDir (this m)) filePath in
  if existsSync H (world m) fullPath then
    match unlinkSync H (world m) fullPath with
    | (w, None) => (ok, write (console_log ("Deleted: " ++ filePath)) (with_world w m))
    | (w, Some msg) =>
        (mkResult false (Some ("Failed to delete " ++ filePath ++ ": " ++ msg)),
         with_world w m)
    end
  else
    (ok, write (console_warn ("Warning: File " ++ filePath ++ " does not exist")) m).

(** [echo(message)]; [None] is [undefined], which the console prints by
    name. *)
Definition echo (msg : option string) (m : Machine) : ExecutionResult * Machine :=
  (ok, write (console_log (match msg with Some s => s | None => "undefined" end)) m).

Definition TaskRunner := string -> Machine -> option (ExecutionResult * Machine).

(** [runTask(taskName)]; for [undefined] no task has that name. *)
Definition runTask (executeTask : TaskRunner) (taskName : option string) (m : Machine)
    : option (ExecutionResult * Machine) :=
  match taskName with
  | Some n =>
      match executeTask n (write (console_log ("Running task: " ++ n)) m) with
      | None => None
      | Some (result, m') =>
          if success result then Some (completed n, m') else Some (result, m')
      end
  | None => Some (notFound "undefined", write (console_log "Running task: undefined") m)
  end.

(** [executeCommand(command)]: every argument is resolved first. *)
Definition executeCommandWith (executeTask : TaskRunner) (command : Command)
    (m0 : Machine) : option (ExecutionResult * Machine) :=
  let m := record_call command m0 in
  let args := map (replaceVariables (this m)) (cmd_args command) in
  if String.eqb (cmd_type command) "run" then
    match nth_error args 0 with
    | Some s => Some (runCommand s m)
    | None =>
        Some (commandError command (bad_argument H "exec"),
              write (console_log "Running: undefined") m)
    end
  else if String.eqb (cmd_type command) "del" then
    match nth_error args 0 with
    | Some s => Some (deleteFile s m)
    | None => Some (commandError command (bad_argument H "path.resolve"), m)
    end
  else if String.eqb (cmd_type command) "ech" then
    Some (echo (nth_error args 0) m)
  else if String.eqb (cmd_type command) "tsk" then
    runTask executeTask (nth_error args 0) m
  else
    Some (mkResult false (Some ("Unknown command: " ++ cmd_type command)), m).

(** [executeTask(taskName)]; [fuel] bounds the depth of [tsk] nesting. *)
Fixpoint executeTask (fuel : nat) (taskName : string) (m : Machine)
    : option (ExecutionResult * Machine) :=
  match findTask taskName (script (this m)) with
  | None => Some (notFound taskName, m)
  | Some task =>
      forCommands
        (executeCommandWith
           (match fuel with
            | 0 => fun _ _ => None
            | S fuel' => executeTask fuel'
            end))
        taskName (task_commands task) m
  end.

Definition nested (fuel : nat) : TaskRunner :=
  match fuel with
  | 0 => fun _ _ => None
  | S fuel' => executeTask fuel'
  end.

Definition executeCommand (fuel : nat) : Command -> Machine -> option (ExecutionResult * Machine) :=
  executeCommandWith (nested fuel).

End WithHost.

End Legacy.

(** ** The command line ([ssal.ts]): the part of [main] that runs the
    tasks named by the arguments

    [main] first looks through all its arguments for options of its own:
    without arguments, or with one of the help, version and list options
    among them, it prints and returns, and it takes a file option and its
    value out of the arguments.  [mainOptions] lists these options.  When
    the arguments hold none of them, [main] parses the default file and
    hands the arguments, as they are, to the part embedded here.  The
    arguments are read from left to right.  An argument that starts with
    two dashes names an argument and takes the next argument for its
    value; one that starts with a question mark is a positional argument;
    any other is the name of a task, and meeting it runs the task named
    before it.  The decorated lines [main] prints (colours, pictographs)
    are the fields of [Style]. *)

Module Cli.
Import JSString JSObject Common.

(** The arguments [main] acts on before it runs any task. *)
Definition mainOptions : list string :=
  ["--help"; "-h"; "--version"; "-v"; "--list"; "-l"; "--file"; "-f"].

(** The arguments reach the task loop as they are: there is one at
    least, and none is an option of [main]. *)
Definition reachLoop (args : list string) : bool :=
  negb (Nat.eqb (List.length args) 0)
  && forallb (fun a => negb (existsb (String.eqb a) mainOptions)) args.

Record Style := mkStyle {
  (** the line that announces the task of that name *)
  executing : string -> string;
  (** the line that heads the output of a task *)
  task_output : string;
  (** the line that reports the message of a failed task *)
  failure : string -> string;
  (** the line that ends a run without failure *)
  all_done : string
}.

(** How the part ends: it falls through to the end of [main], or the
    process exits with a status. *)
Inductive Ending :=
| Completed
| Exited (status : nat).

Section WithHost.
Context (H : Host) (style : Style).

(** [console.log] of a line feed. *)
Definition blank (m : Exec.Machine H) : Exec.Machine H :=
  Exec.write H (console_log (String lf EmptyString)) m.

(** The text a template literal makes of [result.message]. *)
Definition messageText (r : ExecutionResult) : string :=
  match message r with
  | Some s => s
  | None => "undefined"
  end.

(** How the run of a task from [main] ends: [main] goes on, or the
    failure was reported and the process exits with status 1. *)
Inductive Ran :=
| Succeeded (m : Exec.Machine H)
| Failed (m : Exec.Machine H).

(** The run of [currentTask]: the arguments are handed to the executor,
    the task is announced and executed.  The executor is handed the very
    object the loop fills with named arguments; it reads the object only
    while a task runs, and it is handed over before every run, so handing
    over its content at that point is the same. *)
Definition runCurrent (fuel : nat) (currentTask : string) (currentArgs : list string)
    (namedArgs : entries string) (m : Exec.Machine H) : option Ran :=
  let m1 := Exec.with_this H
              (Exec.setNamedArgs namedArgs
                 (Exec.setTaskArgs currentTask currentArgs (Exec.this H m))) m in
  let m2 := Exec.write H (console_log (executing style currentTask)) m1 in
  let m3 := Exec.write H (console_log (task_output style)) m2 in
  match Exec.executeTask H fuel currentTask m3 with
  | None => None
  | Some (result, m4) =>
      if success result then Some (Succeeded m4)
      else
        Some (Failed
                (blank (Exec.write H (console_log (failure style (messageText result))) m4)))
  end.

(** What the loop hands on: the variables of the loop and the machine,
    or the machine of an exit. *)
Inductive LoopEnd :=
| LoopDone (currentTask : string) (currentArgs : list string)
    (namedArgs : entries string) (m : Exec.Machine H)
| LoopExit (m : Exec.Machine H).

(** The loop over the arguments.  A name that is the last argument has
    no value: it is set to [undefined], which the executor's [replace]
    reads as the text undefined; it is held as that text.  The values
    are texts, so the key __proto__ stores nothing ([assign]). *)
Fixpoint taskLoop (fuel : nat) (args : list string) (currentTask : string)
    (currentArgs : list string) (namedArgs : entries string) (m : Exec.Machine H)
    : option LoopEnd :=
  match args with
  | [] => Some (LoopDone currentTask currentArgs namedArgs m)
  | arg :: rest =>
      if startsWith "--" arg then
        match rest with
        | value :: rest' =>
            taskLoop fuel rest' currentTask currentArgs
              (assign (drop 2 arg) value namedArgs) m
        | [] =>
            Some (LoopDone currentTask currentArgs
                    (assign (drop 2 arg) "undefined" namedArgs) m)
        end
      else if startsWith "?" arg then
        taskLoop fuel rest currentTask (currentArgs ++ [drop 1 arg])%list namedArgs m
      else if String.eqb currentTask EmptyString then
        taskLoop fuel rest arg currentArgs namedArgs m
      else
        match runCurrent fuel currentTask currentArgs namedArgs m with
        | None => None
        | Some (Succeeded m') => taskLoop fuel rest arg [] namedArgs m'
        | Some (Failed m') => Some (LoopExit m')
        end
  end.

(** The loop, the run of the task named last, and the closing lines. *)
Definition runTasks (fuel : nat) (args : list string) (m : Exec.Machine H)
    : option (Ending * Exec.Machine H) :=
  match taskLoop fuel args EmptyString [] [] m with
  | None => None
  | Some (LoopExit m') => Some (Exited 1, m')
  | Some (LoopDone currentTask currentArgs namedArgs m1) =>
      let closing (m2 : Exec.Machine H) :=
        Some (Completed, blank (Exec.write H (console_log (all_done style)) m2)) in
      if String.eqb currentTask EmptyString then closing m1
      else
        match runCurrent fuel currentTask currentArgs namedArgs m1 with
        | None => None
        | Some (Succeeded m2) => closing m2
        | Some (Failed m2) => Some (Exited 1, m2)
        end
  end.

End WithHost.

End Cli.

(** ** A simulated host, to run the executor on concrete inputs

    The world is the list of the existing paths; a path marked with a
    message cannot be unlinked, and [unlinkSync] throws that message. *)

Module Sim.
Import JSString JSObject.

Definition Files := list (string * option string).

Fixpoint remove (p : string) (w : Files) : Files :=
  match w with
  | [] => []
  | (q, k) :: w' => if String.eqb q p then remove p w' else (q, k) :: remove p w'
  end.

Definition sim_unlink (w : Files) (p : string) : Files * option string :=
  match get p w with
  | Some None => (remove p w, None)
  | Some (Some msg) => (w, Some msg)
  | None => (w, Some "ENOENT: no such file or directory")
  end.

Definition sim_exists (w : Files) (p : string) : bool :=
  match get p w with Some _ => true | None => false end.

Definition sim_resolve (dir p : string) : string :=
  if startsWith "/" p then p else dir ++ "/" ++ p.

Definition sim_undefined_read (prop : string) : string :=
  "Cannot read properties of undefined (reading '" ++ prop ++ "')".

(** The host over an environment and a shell, each given as a function. *)
Definition host (env : string -> option string) (shell : string -> ExecOutcome) : Host :=
  mkHost Files env sim_resolve sim_exists sim_unlink
    (fun w command _ => (w, shell command)) sim_undefined_read
    (fun api => "The argument of " ++ api ++ " must be of type string. Received undefined").

Definition no_env : string -> option string := fun _ => None.

(** A shell in which the command [false] ends with status 1 and an error,
    and every other command ends cleanly and silently. *)
Definition plain_shell (command : string) : ExecOutcome :=
  if String.eqb command "false"
  then mkOutcome (Some (mkExecError "Command failed: false" (Some 1))) "" ""
  else mkOutcome None "" "".

(** A script that declares [X] and assigns it again in a task. *)
Definition shadowing : SSALScript :=
  mkScript [mkVariable "X" "declared"]
    [mkTask "t" [mkCommand "var" ["X"; "runtime"]; mkCommand "ech" ["$X"]]].

Definition shadowingText : string :=
  "var X = " ++ dq ++ "declared" ++ dq ++ String lf
  ("task t:" ++ String lf
  ("    var X = " ++ dq ++ "runtime" ++ dq ++ String lf
  ("    ech " ++ dq ++ "$X" ++ dq))).

(** A script whose second command is of no known kind. *)
Definition halting : SSALScript :=
  mkScript []
    [mkTask "t" [mkCommand "ech" ["a"]; mkCommand "boom" ["x"]; mkCommand "ech" ["b"]];
     mkTask "u" [mkCommand "ech" ["a"]; mkCommand "tsk" ["v"]];
     mkTask "v" [mkCommand "var" ["Y"; "1"]]].

Definition plainHost : Host := host no_env plain_shell.

(** A host in whose environment FOO is bar and nothing else is set. *)
Definition fooHost : Host :=
  host (fun n => if String.eqb n "FOO" then Some "bar" else None) plain_shell.

(** The keys of a dictionary filled with b, 10, a, 2, 1 and b again. *)
Definition keys_in_order : list string :=
  map fst (set "b" 6 (set "1" 5 (set "2" 4 (set "a" 3 (set "10" 2 (set "b" 1 [])))))).

(** The script of the end-to-end scenario. *)
Definition greetingText : string :=
  "var GREETING = " ++ dq ++ "hello" ++ dq ++ String lf
  ("task greet:" ++ String lf
  ("    ech " ++ dq ++ "$GREETING world" ++ dq)).

End Sim.

(** ** Notions used in the statements *)

Module Notions.
Import JSString JSObject.

(** A text made of [a], the sigil [x], and [u]. *)
Definition around (a : string) (x : ascii) (u : string) : string := a ++ String x u.

(** The names the script declares, and the keys of a dictionary. *)
Definition declared (s : SSALScript) : list string := map var_name (variables s).
Definition keys {V} (o : entries V) : list string := map fst o.

(** No name of the list is spelt at the start of [u]. *)
Definition noneStarts (names : list string) (u : string) : Prop :=
  Forall (fun n => String.prefix n u = false) names.

(** The lookup [this.taskArgs[taskName]] is answered as [get] answers
    it: the prototype of the object was never replaced (no entry stands
    for an assignment to __proto__), and the name has an entry of its own
    or is a name that no plain object inherits.  At an inherited name
    without an entry the code finds a value that is no array and
    [replaceVariables] throws. *)
Definition ordinaryLookup (e : Exec.Executor) (taskName : string) : bool :=
  negb (hasKey "__proto__" (Exec.taskArgs e))
  && (hasKey taskName (Exec.taskArgs e) || negb (inherited taskName)).

(** No task of the script has a name that plain objects inherit. *)
Definition ordinaryTasks (s : SSALScript) : bool :=
  forallb (fun t => negb (inherited (task_name t))) (tasks s).

(** The names that are interpolated into a regular expression are free
    of syntax characters. *)
Definition literalNames (e : Exec.Executor) : Prop :=
  Forall (fun n => literalName n = true)
    (keys (Exec.namedArgs e) ++ declared (Exec.script e)
     ++ keys (Exec.globalVariables e))%list.

(** Free of both sigils. *)
Definition plain (s : string) : bool := lacks dollar s && lacks qmark s.

Definition plainArgs (args : list string) : Prop :=
  Forall (fun a => plain a = true) args.

(** What follows the dollar sign in a reference to the environment
    variable [n] that is followed by [b]. *)
Definition envTail (n b : string) : string := "env(" ++ dq ++ n ++ dq ++ ")" ++ b.

(** The commands of a list run in order from [m], each with success,
    and leave [m']. *)
Inductive runsAll {M : Type} (step : Command -> M -> option (ExecutionResult * M))
  : list Command -> M -> M -> Prop :=
| runsAll_nil (m : M) : runsAll step [] m m
| runsAll_cons (c : Command) (cs : list Command) (r : ExecutionResult) (m m1 m2 : M) :
    step c m = Some (r, m1) -> success r = true -> runsAll step cs m1 m2 ->
    runsAll step (c :: cs) m m2.

(** A recorded call that is not a [var] command. *)
Definition notVar (call : string * Command) : Prop := cmd_type (snd call) <> "var".

(** Two executor objects that differ in the runtime variables at most. *)
Definition sameButGlobals (e e' : Exec.Executor) : Prop :=
  Exec.script e' = Exec.script e /\ Exec.workingDir e' = Exec.workingDir e
  /\ Exec.taskArgs e' = Exec.taskArgs e /\ Exec.namedArgs e' = Exec.namedArgs e.

(** From [m] to [m'] the calls [delta] were recorded, the object kept
    everything but its runtime variables, and kept those too when no
    call of [delta] is a [var] command. *)
Definition framedBy {H : Host} (delta : list (string * Command))
    (m m' : Exec.Machine H) : Prop :=
  sameButGlobals (Exec.this H m) (Exec.this H m')
  /\ Exec.dispatched H m' = (Exec.dispatched H m ++ delta)%list
  /\ (Forall notVar delta ->
      Exec.globalVariables (Exec.this H m') = Exec.globalVariables (Exec.this H m)).

Definition framedRunner {H : Host} (run : Exec.TaskRunner H) : Prop :=
  forall n m r m', run n m = Some (r, m') -> exists delta, framedBy delta m m'.


(** The declared names are free of syntax characters. *)
Definition literalDeclared (s : SSALScript) : Prop :=
  Forall (fun n => literalName n = true) (declared s).

(** No task of the script has the name. *)
Definition noTaskNamed (taskName : string) (s : SSALScript) : Prop :=
  Forall (fun t => task_name t <> taskName) (tasks s).

(** White space only. *)
Definition spaces (w : string) : bool := forallb_str is_space w.

(** A var line: the keyword and a space, the name, an equals sign and
    the quoted value, with white space where the pattern allows it. *)
Definition varBody (w1 name w2 w3 value : string) : string :=
  "var " ++ w1 ++ name ++ w2 ++ "=" ++ w3 ++ dq ++ value ++ dq.

Definition varLine (w0 w1 name w2 w3 value w4 : string) : string :=
  w0 ++ varBody w1 name w2 w3 value ++ w4.

(** [currentTask], when set, refers to a task of the script. *)
Definition currentTaskListed (st : Parser.State) : Prop :=
  match Parser.currentTask st with
  | Some i => i < List.length (tasks (Parser.script st))
  | None => True
  end.

(** A digit from 1 to 9. *)
Definition digit19 (c : ascii) : bool := Nat.leb 49 (code c) && Nat.leb (code c) 57.

(** The argument a digit stands for, if there is one. *)
Definition positional (args : list string) (c : ascii) : option string :=
  if digit19 c then nth_error args (code c - 49) else None.

(** Positional substitution as the specification words it, in one scan:
    a question mark followed by a digit that numbers a supplied argument
    is replaced by that argument; everything else is kept. *)
Fixpoint substPositional (args : list string) (s : string) : string :=
  match s with
  | EmptyString => EmptyString
  | String c s' =>
      if Ascii.eqb c qmark then
        match s' with
        | String d s'' =>
            match positional args d with
            | Some a => a ++ substPositional args s''
            | None => String c (substPositional args s')
            end
        | EmptyString => String c EmptyString
        end
      else String c (substPositional args s')
  end.

(** The first character of a text, as a property. *)
Definition headSatisfies (p : ascii -> bool) (s : string) : Prop :=
  match s with
  | EmptyString => False
  | String c _ => p c = true
  end.

(** No two question marks in a row. *)
Fixpoint noDoubleQ (s : string) : bool :=
  match s with
  | EmptyString => true
  | String c s' =>
      match s' with
      | String d _ => negb (Ascii.eqb c qmark && Ascii.eqb d qmark)
      | EmptyString => true
      end && noDoubleQ s'
  end.

End Notions.

(** ** Further notions, for the properties beyond the specification's *)

Module MoreNotions.
Import JSString JSObject Notions.

(** A non-empty text of word characters. *)
Definition wordName (n : string) : Prop := n <> "" /\ forallb_str is_word n = true.

(** The open task, when there is one, is the last task of the script;
    before the first task line the script has no task. *)
Definition openIsLast (st : Parser.State) : Prop :=
  match Parser.currentTask st with
  | Some i => S i = List.length (tasks (Parser.script st))
  | None => tasks (Parser.script st) = []
  end.

(** A command has one argument or two. *)
Definition oneOrTwoArgs (c : Command) : Prop :=
  1 <= List.length (cmd_args c) <= 2.

(** A task line: the keyword and a space, the name and a colon, with
    white space where the pattern allows it. *)
Definition taskLine (w0 w1 name w2 : string) : string :=
  w0 ++ ("task " ++ w1 ++ name ++ ":") ++ w2.

(** Free of line terminators. *)
Definition oneLine (s : string) : bool :=
  forallb_str (fun c => negb (is_lineterm c)) s.

(** The number of double quotes. *)
Fixpoint countDq (s : string) : nat :=
  match s with
  | EmptyString => 0
  | String c s' => (if Ascii.eqb c dqc then 1 else 0) + countDq s'
  end.

(** The first character, when there is one, is no white space. *)
Definition startsSolid (s : string) : Prop :=
  match s with
  | EmptyString => False
  | String c _ => is_space c = false
  end.

(** The four things an iteration of the loop can do. *)
Inductive LineEffect (st : Parser.State) : Parser.State -> Prop :=
| line_skipped : LineEffect st st
| line_variable (n v : string) :
    Parser.currentTask st = None -> wordName n -> lacks dqc v = true ->
    LineEffect st (Parser.pushVariable (mkVariable n v) st)
| line_command (i : nat) (c : Command) :
    Parser.currentTask st = Some i -> wordName (cmd_type c) -> oneOrTwoArgs c ->
    LineEffect st (Parser.pushCommand i c st)
| line_task (n : string) :
    wordName n -> LineEffect st (Parser.openTask n st).

(** What the parser admits into a script: variables with a word for a
    name and a value free of double quotes; tasks with a word for a name;
    commands with a word for a keyword and one argument or two. *)
Definition variableOk (v : ScriptVariable) : Prop :=
  wordName (var_name v) /\ lacks dqc (var_value v) = true.

Definition commandOk (c : Command) : Prop := wordName (cmd_type c) /\ oneOrTwoArgs c.

Definition taskOk (t : Task) : Prop :=
  wordName (task_name t) /\ Forall commandOk (task_commands t).

Definition wellFormed (s : SSALScript) : Prop :=
  Forall variableOk (variables s) /\ Forall taskOk (tasks s).

(** From [st] to [st'] the script has grown at its ends only: variables
    were appended; every task is where it was, under its name, with
    commands appended at most; and a task that was not the last one has
    the commands it had. *)
Definition grownFrom (st st' : Parser.State) : Prop :=
  (exists vs, variables (Parser.script st') = (variables (Parser.script st) ++ vs)%list)
  /\ forall j t, nth_error (tasks (Parser.script st)) j = Some t ->
       exists cs,
         nth_error (tasks (Parser.script st')) j
         = Some (mkTask (task_name t) (task_commands t ++ cs)%list)
         /\ (S j < List.length (tasks (Parser.script st)) -> cs = []).

(** Where a stored entry stands: behind entries of other keys, all of
    which were there before. *)
Definition entryPlaced {V : Type} (k : string) (v : V) (o o' : entries V) : Prop :=
  exists pre post,
    o' = (pre ++ (k, v) :: post)%list
    /\ Forall (fun x => x <> k /\ In x (keys o)) (keys pre).

(** A recorded call that neither spawns a process nor deletes a file. *)
Definition offHost (call : string * Command) : Prop :=
  cmd_type (snd call) <> "run" /\ cmd_type (snd call) <> "del".

(** From [m] to [m'] the calls [delta] were recorded, the output grew
    by [more], and the world stayed as it was when no call of [delta] is
    a run or a del command. *)
Definition tracedBy {H : Host} (delta : list (string * Command)) (more : list Output)
    (m m' : Exec.Machine H) : Prop :=
  Exec.dispatched H m' = (Exec.dispatched H m ++ delta)%list
  /\ Exec.output H m' = (Exec.output H m ++ more)%list
  /\ (Forall offHost delta -> Exec.world H m' = Exec.world H m).

Definition tracedRunner {H : Host} (run : Exec.TaskRunner H) : Prop :=
  forall n m r m', run n m = Some (r, m') -> exists delta more, tracedBy delta more m m'.

(** A command that neither spawns a process nor deletes a file, and a
    script of such commands only. *)
Definition quietCommand (c : Command) : Prop :=
  cmd_type c <> "run" /\ cmd_type c <> "del".

Definition quietScript (s : SSALScript) : Prop :=
  Forall (fun t => Forall quietCommand (task_commands t)) (tasks s).

(** A run under a quiet script keeps the script and the world. *)
Definition quietRunner {H : Host} (run : Exec.TaskRunner H) : Prop :=
  forall n m r m', quietScript (Exec.script (Exec.this H m)) -> run n m = Some (r, m') ->
    Exec.script (Exec.this H m') = Exec.script (Exec.this H m)
    /\ Exec.world H m' = Exec.world H m.

(** No key of the dictionary other than [n] is spelt at the start of [u]. *)
Definition onlyStarts {V : Type} (n : string) (o : entries V) (u : string) : Prop :=
  Forall (fun k => k = n \/ String.prefix k u = false) (keys o).

(** Every result a runner returns carries a message. *)
Definition speaks {M : Type} (run : string -> M -> option (ExecutionResult * M)) : Prop :=
  forall n m r m', run n m = Some (r, m') -> message r <> None.





(** The arguments of the command line: an argument that names a task,
    one that may stand where a name is expected (the empty one too), the
    arguments that give positional arguments, and those that give named
    arguments with their values. *)
Definition nameLike (arg : string) : Prop :=
  startsWith "--" arg = false /\ startsWith "?" arg = false.

(** A name on the command line that runs a task: not empty, and not a
    name that plain objects inherit (for such a name the executor's
    lookup of the task's arguments is not answered by its entries
    alone). *)
Definition isTaskName (arg : string) : Prop :=
  arg <> "" /\ nameLike arg /\ inherited arg = false.

Definition positionalArgs (values : list string) : list string :=
  map (String qmark) values.

Definition namedPairs (pairs : list (string * string)) : list string :=
  flat_map (fun p => ["--" ++ fst p; snd p]) pairs.

(** The dictionary after the pairs were stored one by one. *)
Definition storeAll (pairs : list (string * string)) (o : entries string) : entries string :=
  fold_left (fun o p => assign (fst p) (snd p) o) pairs o.

(** A style without colours and pictographs, to run [main] on concrete
    arguments. *)
Definition plainStyle : Cli.Style :=
  Cli.mkStyle (fun t => "Executing task: " ++ t) "Task output:"
    (fun msg => "Failed: " ++ msg) "All tasks completed successfully!".

(** The lines that end a run of [main] without failure. *)
Definition closing {H : Host} (style : Cli.Style) (m : Exec.Machine H) : Exec.Machine H :=
  Cli.blank H (Exec.write H (console_log (Cli.all_done style)) m).

(** How [main] ends after the run of the task named last. *)
Definition afterLast {H : Host} (style : Cli.Style) (ran : option (Cli.Ran H))
    : option (Cli.Ending * Exec.Machine H) :=
  match ran with
  | None => None
  | Some (Cli.Succeeded _ m) => Some (Cli.Completed, closing style m)
  | Some (Cli.Failed _ m) => Some (Cli.Exited 1, m)
  end.

End MoreNotions.

(** * Proofs *)

(** ** Facts on strings and on the replacement scan *)

Module StringFacts.
Import JSString.

Lemma app_nil_r (s : string) : s ++ "" = s.
Proof. induction s as [|c s IH]; simpl; [reflexivity | now rewrite IH]. Qed.

Lemma app_assoc (a b c : string) : (a ++ b) ++ c = a ++ (b ++ c).
Proof. induction a as [|x a IH]; simpl; [reflexivity | now rewrite IH]. Qed.

Lemma length_app (a b : string) :
  String.length (a ++ b) = String.length a + String.length b.
Proof. induction a as [|x a IH]; simpl; [reflexivity | now rewrite IH]. Qed.

Lemma forallb_str_app p (a b : string) :
  forallb_str p (a ++ b) = forallb_str p a && forallb_str p b.
Proof.
  induction a as [|x a IH]; simpl; [reflexivity|].
  now rewrite IH, andb_assoc.
Qed.

Lemma lacks_app x (a b : string) : lacks x (a ++ b) = lacks x a && lacks x b.
Proof. apply forallb_str_app. Qed.

Lemma lacks_cons x c (s : string) :
  lacks x (String c s) = true <-> c <> x /\ lacks x s = true.
Proof.
  unfold lacks; simpl. rewrite andb_true_iff, negb_true_iff.
  split; intros [Hc Hs]; split; auto.
  - intros ->. now rewrite Ascii.eqb_refl in Hc.
  - now apply Ascii.eqb_neq.
Qed.

Lemma prefix_refl_app (p s : string) : String.prefix p (p ++ s) = true.
Proof.
  induction p as [|c p IH]; simpl; [now destruct s|].
  destruct (ascii_dec c c); [assumption | congruence].
Qed.

Lemma prefix_cons x (p : string) c (s : string) :
  String.prefix (String x p) (String c s) =
  if Ascii.eqb x c then String.prefix p s else false.
Proof.
  simpl. destruct (ascii_dec x c) as [->|Hn].
  - now rewrite Ascii.eqb_refl.
  - apply Ascii.eqb_neq in Hn. now rewrite Hn.
Qed.

Lemma prefix_head_neq x (p : string) c (s : string) :
  c <> x -> String.prefix (String x p) (String c s) = false.
Proof.
  intros Hn. rewrite prefix_cons.
  destruct (Ascii.eqb x c) eqn:E; [|reflexivity].
  apply Ascii.eqb_eq in E. congruence.
Qed.

Lemma drop_app (p s : string) : drop (String.length p) (p ++ s) = s.
Proof. induction p as [|c p IH]; simpl; [now destruct s | assumption]. Qed.

(** A template free of dollar signs stands for itself. *)
Lemma GetSubstitution_plain (m b a t : string) :
  lacks dollar t = true -> GetSubstitution m b a t = t.
Proof.
  induction t as [|c t IH]; intros Hl; [reflexivity|].
  apply lacks_cons in Hl as [Hc Hl]. simpl.
  destruct (Ascii.eqb c dollar) eqn:E.
  - apply Ascii.eqb_eq in E. contradiction.
  - now rewrite IH.
Qed.

(** The scan copies a character at which no match starts. *)
Lemma replaceAllFrom_copy (pat t b : string) c (s : string) :
  String.prefix pat (String c s) = false ->
  replaceAllFrom pat t b 0 (String c s) =
  String c (replaceAllFrom pat t (b ++ String c "") 0 s).
Proof. intros Hp. cbn [replaceAllFrom]. now rewrite Hp. Qed.

(** A text without the first character of the pattern is left as it is. *)
Lemma replaceAllFrom_lacks x (p t : string) (s b : string) :
  lacks x s = true -> replaceAllFrom (String x p) t b 0 s = s.
Proof.
  revert b. induction s as [|c s IH]; intros b Hl; [reflexivity|].
  apply lacks_cons in Hl as [Hc Hl].
  rewrite replaceAllFrom_copy by now apply prefix_head_neq.
  now rewrite IH.
Qed.

Lemma replaceAll_lacks x (p t s : string) :
  lacks x s = true -> replaceAll (String x p) t s = s.
Proof. apply replaceAllFrom_lacks. Qed.

(** A prefix without the first character of the pattern is copied. *)
Lemma replaceAllFrom_app_lacks x (p t : string) (a s b : string) :
  lacks x a = true ->
  replaceAllFrom (String x p) t b 0 (a ++ s) =
  a ++ replaceAllFrom (String x p) t (b ++ a) 0 s.
Proof.
  revert b. induction a as [|c a IH]; intros b Hl; cbn [append].
  - now rewrite app_nil_r.
  - apply lacks_cons in Hl as [Hc Hl].
    rewrite replaceAllFrom_copy by now apply prefix_head_neq.
    rewrite IH by assumption. now rewrite app_assoc.
Qed.

(** Passing over the rest of a match. *)
Lemma replaceAllFrom_skip (pat t : string) (u s b : string) :
  replaceAllFrom pat t b (String.length u) (u ++ s) =
  replaceAllFrom pat t (b ++ u) 0 s.
Proof.
  revert b. induction u as [|c u IH]; intros b; cbn [append String.length].
  - now rewrite app_nil_r.
  - cbn [replaceAllFrom]. rewrite IH. now rewrite app_assoc.
Qed.

(** At a match the expanded template is emitted and the scan goes on
    behind the match. *)
Lemma replaceAllFrom_match x (p t : string) (s b : string) :
  replaceAllFrom (String x p) t b 0 (String x p ++ s) =
  GetSubstitution (String x p) b s t
  ++ replaceAllFrom (String x p) t (b ++ String x p) 0 s.
Proof.
  change (String x p ++ s) with (String x (p ++ s)).
  cbn [replaceAllFrom].
  change (String x (p ++ s)) with (String x p ++ s).
  rewrite prefix_refl_app, drop_app.
  f_equal.
  replace (String.length (String x p) - 1) with (String.length p)
    by (cbn [String.length]; lia).
  rewrite replaceAllFrom_skip. now rewrite app_assoc.
Qed.

End StringFacts.

(** ** The substitution passes on texts that hold a single token *)

Module PassFacts.
Import JSString JSObject StringFacts Exec Notions.

Lemma replaceAll_miss x (n v a u : string) :
  lacks x a = true -> lacks x u = true -> String.prefix n u = false ->
  replaceAll (String x n) v (around a x u) = around a x u.
Proof.
  intros Ha Hu Hp. unfold replaceAll, around.
  rewrite replaceAllFrom_app_lacks by assumption. f_equal.
  rewrite replaceAllFrom_copy.
  - now rewrite replaceAllFrom_lacks.
  - rewrite prefix_cons, Ascii.eqb_refl. assumption.
Qed.

Lemma replaceAll_hit x (n v a b : string) :
  lacks x a = true -> lacks x b = true -> lacks dollar v = true ->
  replaceAll (String x n) v (around a x (n ++ b)) = a ++ v ++ b.
Proof.
  intros Ha Hb Hv. unfold replaceAll, around.
  rewrite replaceAllFrom_app_lacks by assumption. f_equal.
  change (String x (n ++ b)) with (String x n ++ b).
  rewrite replaceAllFrom_match, GetSubstitution_plain by assumption.
  now rewrite replaceAllFrom_lacks.
Qed.

Lemma replaceTaskArgs_lacks (args : list string) (i : nat) (s : string) :
  lacks qmark s = true -> replaceTaskArgs i args s = s.
Proof.
  revert i s. induction args as [|arg rest IH]; intros i s Hs; [reflexivity|].
  cbn [replaceTaskArgs]. rewrite replaceAll_lacks by assumption. now apply IH.
Qed.

Lemma replaceEntries_lacks x (o : entries string) (s : string) :
  lacks x s = true -> replaceEntries x o s = s.
Proof.
  revert s. induction o as [|[k v] rest IH]; intros s Hs; [reflexivity|].
  cbn [replaceEntries]. rewrite replaceAll_lacks by assumption. now apply IH.
Qed.

Lemma replaceScriptVariables_lacks (vs : list ScriptVariable) (s : string) :
  lacks dollar s = true -> replaceScriptVariables vs s = s.
Proof.
  revert s. induction vs as [|v rest IH]; intros s Hs; [reflexivity|].
  cbn [replaceScriptVariables]. rewrite replaceAll_lacks by assumption. now apply IH.
Qed.

Lemma match_env_head c (s : string) : c <> dollar -> match_env (String c s) = None.
Proof.
  intros Hc. unfold match_env, lit.
  change ("$env(" ++ dq) with (String dollar ("env(" ++ dq)).
  now rewrite prefix_head_neq.
Qed.

Lemma envVarMatches_lacks (s : string) :
  lacks dollar s = true -> envVarMatches 0 s = [].
Proof.
  induction s as [|c s IH]; intros Hs; [reflexivity|].
  apply lacks_cons in Hs as [Hc Hs].
  cbn [envVarMatches]. rewrite match_env_head by assumption. now apply IH.
Qed.

Lemma replaceEnv_lacks H (s : string) : lacks dollar s = true -> replaceEnv H s = s.
Proof. intros Hs. unfold replaceEnv. now rewrite envVarMatches_lacks. Qed.

Lemma replaceScriptVariables_miss (vs : list ScriptVariable) (a u : string) :
  lacks dollar a = true -> lacks dollar u = true ->
  noneStarts (map var_name vs) u ->
  replaceScriptVariables vs (around a dollar u) = around a dollar u.
Proof.
  intros Ha Hu. induction vs as [|v rest IH]; intros Hn; [reflexivity|].
  cbn [map] in Hn. inversion Hn as [|? ? Hv Hrest]; subst.
  cbn [replaceScriptVariables]. rewrite replaceAll_miss by assumption. now apply IH.
Qed.

Lemma replaceEntries_miss x (o : entries string) (a u : string) :
  lacks x a = true -> lacks x u = true ->
  noneStarts (keys o) u ->
  replaceEntries x o (around a x u) = around a x u.
Proof.
  intros Ha Hu. induction o as [|[k v] rest IH]; intros Hn; [reflexivity|].
  cbn [keys map fst] in Hn. inversion Hn as [|? ? Hv Hrest]; subst.
  cbn [replaceEntries]. rewrite replaceAll_miss by assumption. now apply IH.
Qed.

(** The first declared variable spelt at the token takes it. *)
Lemma replaceScriptVariables_first (pre post : list ScriptVariable) (n v a b : string) :
  lacks dollar a = true -> lacks dollar n = true -> lacks dollar b = true ->
  lacks dollar v = true ->
  noneStarts (map var_name pre) (n ++ b) ->
  replaceScriptVariables (pre ++ mkVariable n v :: post) (around a dollar (n ++ b))
  = a ++ v ++ b.
Proof.
  intros Ha Hn Hb Hv. induction pre as [|w pre IH]; intros Hpre.
  - cbn [app replaceScriptVariables var_name var_value].
    rewrite replaceAll_hit by assumption.
    apply replaceScriptVariables_lacks.
    now rewrite !lacks_app, Ha, Hv, Hb.
  - cbn [map] in Hpre. inversion Hpre as [|? ? Hw Hrest]; subst.
    cbn [app replaceScriptVariables].
    rewrite replaceAll_miss; auto.
    now rewrite lacks_app, Hn, Hb.
Qed.

Lemma replaceEntries_first x (pre post : entries string) (n v a b : string) :
  lacks x a = true -> lacks x n = true -> lacks x b = true ->
  lacks x v = true -> lacks dollar v = true ->
  noneStarts (keys pre) (n ++ b) ->
  replaceEntries x (pre ++ (n, v) :: post)%list (around a x (n ++ b)) = a ++ v ++ b.
Proof.
  intros Ha Hn Hb Hv Hd. induction pre as [|[k w] pre IH]; intros Hpre.
  - cbn [app replaceEntries].
    rewrite replaceAll_hit by assumption.
    apply replaceEntries_lacks.
    now rewrite !lacks_app, Ha, Hv, Hb.
  - cbn [keys map fst] in Hpre. inversion Hpre as [|? ? Hw Hrest]; subst.
    cbn [app replaceEntries].
    rewrite replaceAll_miss; auto.
    now rewrite lacks_app, Hn, Hb.
Qed.

End PassFacts.

(** ** Resolution of a single variable token *)

Module ResolveFacts.
Import JSString JSObject StringFacts Exec Notions PassFacts.

Lemma plain_split (s : string) :
  plain s = true -> lacks dollar s = true /\ lacks qmark s = true.
Proof. unfold plain. now rewrite andb_true_iff. Qed.

Lemma lacks_around x y (a u : string) :
  x <> y -> lacks x a = true -> lacks x u = true -> lacks x (around a y u) = true.
Proof.
  intros Hxy Ha Hu. unfold around. rewrite lacks_app, Ha.
  apply lacks_cons. split; [congruence | assumption].
Qed.

Lemma qmark_dollar : qmark <> dollar.
Proof. discriminate. Qed.

(** Before the dollar passes nothing happens to a text without a
    question mark. *)
Lemma question_passes_idle (e : Executor) (args : list string) (s : string) :
  lacks qmark s = true ->
  replaceEntries qmark (namedArgs e) (replaceTaskArgs 0 args s) = s.
Proof.
  intros Hs. rewrite replaceTaskArgs_lacks by assumption.
  now apply replaceEntries_lacks.
Qed.

Lemma resolve_declared H (e : Executor) (taskName : string)
    (pre post : list ScriptVariable) (n v a b : string) :
  plain a = true -> plain n = true -> plain b = true -> lacks dollar v = true ->
  variables (script e) = (pre ++ mkVariable n v :: post)%list ->
  noneStarts (map var_name pre) (n ++ b) ->
  replaceVariables H e taskName (Some (around a dollar (n ++ b))) = Normal (a ++ v ++ b).
Proof.
  intros [Ha Ha']%plain_split [Hn Hn']%plain_split [Hb Hb']%plain_split Hv Hvars Hpre.
  unfold replaceVariables, replaceNames. f_equal.
  rewrite question_passes_idle.
  2:{ apply lacks_around; auto using qmark_dollar. now rewrite lacks_app, Hn', Hb'. }
  rewrite Hvars, replaceScriptVariables_first by assumption.
  assert (Hres : lacks dollar (a ++ v ++ b) = true)
    by now rewrite !lacks_app, Ha, Hv, Hb.
  rewrite replaceEntries_lacks by assumption.
  now apply replaceEnv_lacks.
Qed.

Lemma resolve_runtime H (e : Executor) (taskName : string)
    (pre post : entries string) (n v a b : string) :
  plain a = true -> plain n = true -> plain b = true -> lacks dollar v = true ->
  noneStarts (declared (script e)) (n ++ b) ->
  globalVariables e = (pre ++ (n, v) :: post)%list ->
  noneStarts (keys pre) (n ++ b) ->
  replaceVariables H e taskName (Some (around a dollar (n ++ b))) = Normal (a ++ v ++ b).
Proof.
  intros [Ha Ha']%plain_split [Hn Hn']%plain_split [Hb Hb']%plain_split Hv Hdecl Hglob Hpre.
  unfold replaceVariables, replaceNames. f_equal.
  assert (Hnb : lacks dollar (n ++ b) = true) by now rewrite lacks_app, Hn, Hb.
  rewrite question_passes_idle.
  2:{ apply lacks_around; auto using qmark_dollar. now rewrite lacks_app, Hn', Hb'. }
  rewrite replaceScriptVariables_miss by assumption.
  rewrite Hglob, replaceEntries_first by assumption.
  apply replaceEnv_lacks. now rewrite !lacks_app, Ha, Hv, Hb.
Qed.


End ResolveFacts.

(** ** Decimal numerals *)

Module DecimalFacts.
Import JSString Notions StringFacts.

Lemma to_uint_normal (n : nat) : Decimal.unorm (Nat.to_uint n) = Nat.to_uint n.
Proof.
  rewrite <- (DecimalNat.Unsigned.to_of (Nat.to_uint n)).
  now rewrite DecimalNat.Unsigned.of_to.
Qed.

Lemma nzhead_not_zero (d d' : Decimal.uint) : Decimal.nzhead d <> Decimal.D0 d'.
Proof. induction d; simpl; try discriminate. assumption. Qed.

Lemma decimal_head (n : nat) : 1 <= n -> headSatisfies digit19 (decimal n).
Proof.
  intros Hn. unfold decimal.
  pose proof (to_uint_normal n) as Hnorm.
  pose proof (DecimalNat.Unsigned.of_to n) as Hto.
  destruct (Nat.to_uint n) as [|d|d|d|d|d|d|d|d|d|d] eqn:E;
    try (simpl; reflexivity).
  - discriminate Hnorm.
  - exfalso. unfold Decimal.unorm in Hnorm. simpl in Hnorm.
    destruct (Decimal.nzhead d) eqn:Ez;
      try (now apply (nzhead_not_zero d d); rewrite Ez; congruence).
    injection Hnorm as <-. cbv in Hto. lia.
Qed.

Lemma decimal_digit (k : nat) :
  1 <= k <= 9 -> decimal k = String (ascii_of_nat (48 + k)) "".
Proof.
  intros Hk.
  do 10 (destruct k as [|k]; [try lia; reflexivity|]). lia.
Qed.

Lemma headSatisfies_no_prefix p (s : string) c (x : string) :
  headSatisfies p s -> p c = false -> String.prefix s (String c x) = false.
Proof.
  destruct s as [|h t]; simpl; [tauto|].
  intros Hh Hc. destruct (ascii_dec h c); [congruence | reflexivity].
Qed.

Lemma headSatisfies_nonempty p (s : string) :
  headSatisfies p s -> String.prefix s "" = false.
Proof. destruct s; simpl; [tauto | reflexivity]. Qed.

End DecimalFacts.

(** ** The positional pass against the one-scan substitution *)

Module PositionalFacts.
Import JSString JSObject Notions StringFacts DecimalFacts Exec.

(** With a template free of dollar signs the text already passed plays
    no part. *)
Lemma replaceAllFrom_before (pat t : string) (s b b' : string) (k : nat) :
  lacks dollar t = true ->
  replaceAllFrom pat t b k s = replaceAllFrom pat t b' k s.
Proof.
  intros Ht. revert b b' k.
  induction s as [|c s IH]; intros b b' k; [reflexivity|].
  cbn [replaceAllFrom]. destruct k as [|k].
  - destruct (String.prefix pat (String c s)).
    + rewrite !GetSubstitution_plain by assumption. f_equal. apply IH.
    + f_equal. apply IH.
  - apply IH.
Qed.

Lemma replaceAll_copy (pat t : string) c (s : string) :
  lacks dollar t = true -> String.prefix pat (String c s) = false ->
  replaceAll pat t (String c s) = String c (replaceAll pat t s).
Proof.
  intros Ht Hp. unfold replaceAll. rewrite replaceAllFrom_copy by assumption.
  f_equal. now apply replaceAllFrom_before.
Qed.

Lemma replaceAll_app_lacks x (p t a s : string) :
  lacks dollar t = true -> lacks x a = true ->
  replaceAll (String x p) t (a ++ s) = a ++ replaceAll (String x p) t s.
Proof.
  intros Ht Ha. unfold replaceAll. rewrite replaceAllFrom_app_lacks by assumption.
  f_equal. now apply replaceAllFrom_before.
Qed.

Lemma replaceAll_match x (p t s : string) :
  lacks dollar t = true ->
  replaceAll (String x p) t (String x p ++ s) = t ++ replaceAll (String x p) t s.
Proof.
  intros Ht. unfold replaceAll.
  rewrite replaceAllFrom_match, GetSubstitution_plain by assumption.
  f_equal. now apply replaceAllFrom_before.
Qed.

Lemma plainArgs_cons a (rest : list string) :
  plainArgs (a :: rest) ->
  lacks dollar a = true /\ lacks qmark a = true /\ plainArgs rest.
Proof.
  intros Hp. inversion Hp as [|? ? Ha Hr]; subst.
  unfold plain in Ha. apply andb_true_iff in Ha as [? ?]. auto.
Qed.

(** The passes copy a stretch without question marks. *)
Lemma replaceTaskArgs_app_lacks (rest : list string) (i : nat) (a s : string) :
  plainArgs rest -> lacks qmark a = true ->
  replaceTaskArgs i rest (a ++ s) = a ++ replaceTaskArgs i rest s.
Proof.
  revert i s. induction rest as [|v rest IH]; intros i s Hp Ha; [reflexivity|].
  apply plainArgs_cons in Hp as (Hd & _ & Hp).
  cbn [replaceTaskArgs]. rewrite replaceAll_app_lacks by assumption. now apply IH.
Qed.

Lemma replaceTaskArgs_cons (rest : list string) (i : nat) c (s : string) :
  plainArgs rest -> c <> qmark ->
  replaceTaskArgs i rest (String c s) = String c (replaceTaskArgs i rest s).
Proof.
  intros Hp Hc.
  change (String c s) with (String c "" ++ s).
  rewrite replaceTaskArgs_app_lacks; auto.
  apply lacks_cons. split; [assumption | reflexivity].
Qed.

Lemma replaceTaskArgs_empty (rest : list string) (i : nat) :
  replaceTaskArgs i rest "" = "".
Proof. revert i. induction rest as [|v rest IH]; intros i; [reflexivity | apply IH]. Qed.

Lemma digit_neq_qmark (k : nat) : 1 <= k <= 9 -> ascii_of_nat (48 + k) <> qmark.
Proof.
  intros Hk E. apply (f_equal nat_of_ascii) in E.
  rewrite nat_ascii_embedding in E by lia. cbv in E. lia.
Qed.

Lemma digit_inj (j k : nat) :
  j <= 9 -> k <= 9 -> ascii_of_nat (48 + j) = ascii_of_nat (48 + k) -> j = k.
Proof.
  intros Hj Hk E. apply (f_equal nat_of_ascii) in E.
  rewrite !nat_ascii_embedding in E by lia. lia.
Qed.

(** A token whose digit numbers a supplied argument is replaced by it. *)
Lemma replaceTaskArgs_token (rest : list string) (i k : nat) (a s : string) :
  plainArgs rest -> i < k -> k <= 9 ->
  nth_error rest (k - 1 - i) = Some a ->
  replaceTaskArgs i rest (String qmark (String (ascii_of_nat (48 + k)) s))
  = a ++ replaceTaskArgs i rest s.
Proof.
  revert i s. induction rest as [|v rest IH]; intros i s Hp Hik Hk Hnth.
  - destruct (k - 1 - i); discriminate.
  - apply plainArgs_cons in Hp as (Hd & Hq & Hp).
    cbn [replaceTaskArgs].
    rewrite decimal_digit by lia.
    destruct (Nat.eq_dec (i + 1) k) as [<-|Hne].
    + replace (i + 1 - 1 - i) with 0 in Hnth by lia.
      cbn [nth_error] in Hnth. injection Hnth as ->.
      change (String qmark (String (ascii_of_nat (48 + (i + 1))) s))
        with (String qmark (String (ascii_of_nat (48 + (i + 1))) "") ++ s).
      rewrite replaceAll_match by assumption.
      now apply replaceTaskArgs_app_lacks.
    + rewrite replaceAll_copy; [|assumption|].
      2:{ rewrite prefix_cons, Ascii.eqb_refl, prefix_cons.
          destruct (Ascii.eqb _ _) eqn:E; [|reflexivity].
          apply Ascii.eqb_eq, digit_inj in E; lia. }
      rewrite replaceAll_copy; [|assumption|].
      2:{ apply prefix_head_neq, digit_neq_qmark. lia. }
      rewrite <- (decimal_digit (i + 1)) by lia.
      apply IH; auto; try lia.
      replace (k - 1 - i) with (S (k - 1 - S i)) in Hnth by lia. exact Hnth.
Qed.

(** A question mark that starts no token stays. *)
Lemma replaceTaskArgs_bare (rest : list string) (i : nat) c (s : string) :
  plainArgs rest -> c <> qmark ->
  (forall j x, i < j <= i + List.length rest ->
     String.prefix (decimal j) (String c x) = false) ->
  replaceTaskArgs i rest (String qmark (String c s))
  = String qmark (replaceTaskArgs i rest (String c s)).
Proof.
  revert i s. induction rest as [|v rest IH]; intros i s Hp Hc Hno; [reflexivity|].
  pose proof Hp as Hp0.
  apply plainArgs_cons in Hp as (Hd & Hq & Hp).
  cbn [replaceTaskArgs].
  rewrite replaceAll_copy; [|assumption|].
  2:{ rewrite prefix_cons, Ascii.eqb_refl. apply Hno. cbn [List.length]. lia. }
  rewrite (replaceAll_copy _ _ c); [|assumption|].
  2:{ now apply prefix_head_neq. }
  apply IH; auto.
  intros j x Hj. apply Hno. cbn [List.length]. lia.
Qed.

Lemma replaceTaskArgs_lone (rest : list string) (i : nat) :
  plainArgs rest ->
  replaceTaskArgs i rest (String qmark "") = String qmark "".
Proof.
  revert i. induction rest as [|v rest IH]; intros i Hp; [reflexivity|].
  apply plainArgs_cons in Hp as (Hd & Hq & Hp).
  cbn [replaceTaskArgs].
  rewrite replaceAll_copy; [|assumption|].
  - change (replaceAll (String qmark (decimal (i + 1))) v "") with "". now apply IH.
  - rewrite prefix_cons, Ascii.eqb_refl.
    apply (headSatisfies_nonempty digit19), decimal_head. lia.
Qed.

Lemma positional_some (args : list string) c (a : string) :
  positional args c = Some a ->
  exists k, 1 <= k <= 9 /\ c = ascii_of_nat (48 + k) /\ nth_error args (k - 1) = Some a.
Proof.
  unfold positional, digit19. destruct (_ && _) eqn:E; [|discriminate].
  apply andb_true_iff in E as [E1 E2].
  apply Nat.leb_le in E1, E2. intros Hn.
  exists (code c - 48). repeat split; try lia.
  - replace (48 + (code c - 48)) with (code c) by lia.
    unfold code. now rewrite ascii_nat_embedding.
  - replace (code c - 48 - 1) with (code c - 49) by lia. exact Hn.
Qed.

Lemma positional_none (args : list string) c (j : nat) (x : string) :
  positional args c = None -> 1 <= j <= List.length args ->
  String.prefix (decimal j) (String c x) = false.
Proof.
  unfold positional. intros Hpos Hj.
  destruct (digit19 c) eqn:E.
  - apply nth_error_None in Hpos.
    unfold digit19 in E. apply andb_true_iff in E as [E1 E2].
    apply Nat.leb_le in E1, E2.
    rewrite decimal_digit by lia. rewrite prefix_cons.
    destruct (Ascii.eqb _ c) eqn:Ec; [|reflexivity].
    apply Ascii.eqb_eq in Ec. subst c. unfold code in *.
    rewrite nat_ascii_embedding in * by lia. lia.
  - apply (headSatisfies_no_prefix digit19); [|assumption].
    apply decimal_head. lia.
Qed.

Lemma noDoubleQ_tail c (s : string) : noDoubleQ (String c s) = true -> noDoubleQ s = true.
Proof. cbn [noDoubleQ]. rewrite andb_true_iff. tauto. Qed.

Lemma noDoubleQ_second (d : ascii) (s : string) :
  noDoubleQ (String qmark (String d s)) = true -> d <> qmark.
Proof.
  cbn [noDoubleQ]. rewrite andb_true_iff, negb_true_iff.
  intros [Hd _] ->. rewrite !Ascii.eqb_refl in Hd. discriminate Hd.
Qed.

(** The loop over the arguments computes the one-scan substitution. *)
Lemma replaceTaskArgs_substPositional (args : list string) (s : string) :
  plainArgs args -> noDoubleQ s = true ->
  replaceTaskArgs 0 args s = substPositional args s.
Proof.
  intros Hp. remember (String.length s) as n eqn:Hn.
  revert s Hn. induction n as [n IH] using lt_wf_ind. intros s Hn Hs.
  destruct s as [|c s]; [apply replaceTaskArgs_empty|].
  cbn [substPositional]. destruct (Ascii.eqb c qmark) eqn:Ec.
  - apply Ascii.eqb_eq in Ec. subst c.
    destruct s as [|d s]; [now apply replaceTaskArgs_lone|].
    destruct (positional args d) as [a|] eqn:Epos.
    + apply positional_some in Epos as (k & Hk & -> & Hnth).
      rewrite replaceTaskArgs_token with (a := a); auto; try lia.
      * f_equal. apply (IH (String.length s)); auto.
        -- subst n. cbn [String.length]. lia.
        -- now apply noDoubleQ_tail, noDoubleQ_tail in Hs.
      * now rewrite Nat.sub_0_r.
    + rewrite replaceTaskArgs_bare; auto.
      * f_equal. apply (IH (String.length (String d s))); auto.
        -- subst n. cbn [String.length]. lia.
        -- now apply noDoubleQ_tail in Hs.
      * now apply noDoubleQ_second in Hs.
      * intros j x Hj. apply (positional_none args); [assumption | lia].
  - apply Ascii.eqb_neq in Ec. rewrite replaceTaskArgs_cons by assumption.
    f_equal. apply (IH (String.length s)); auto.
    + subst n. cbn [String.length]. lia.
    + now apply noDoubleQ_tail in Hs.
Qed.

(** The one-scan substitution brings in no dollar sign. *)
Lemma substPositional_lacks_dollar (args : list string) (s : string) :
  plainArgs args -> lacks dollar s = true ->
  lacks dollar (substPositional args s) = true.
Proof.
  intros Hp. remember (String.length s) as n eqn:Hn.
  revert s Hn. induction n as [n IH] using lt_wf_ind. intros s Hn Hs.
  destruct s as [|c s]; [reflexivity|].
  apply lacks_cons in Hs as [Hc Hs].
  assert (Htail : lacks dollar (substPositional args s) = true).
  { apply (IH (String.length s)); auto. subst n. cbn [String.length]. lia. }
  cbn [substPositional]. destruct (Ascii.eqb c qmark) eqn:Ec.
  - destruct s as [|d s]; [now apply lacks_cons|].
    destruct (positional args d) as [a|] eqn:Epos.
    + apply lacks_cons in Hs as [Hd Hs].
      rewrite lacks_app. apply andb_true_iff. split.
      * unfold positional in Epos. destruct (digit19 d); [|discriminate].
        apply nth_error_In in Epos.
        unfold plainArgs in Hp. rewrite Forall_forall in Hp.
        apply Hp in Epos. unfold plain in Epos.
        now apply andb_true_iff in Epos as [? _].
      * apply (IH (String.length s)); auto. subst n. cbn [String.length]. lia.
    + apply lacks_cons. split; assumption.
  - apply lacks_cons. split; assumption.
Qed.

End PositionalFacts.

(** ** The environment pass *)

Module EnvFacts.
Import JSString JSObject Notions StringFacts PassFacts Exec.

Lemma span_app p (n rest : string) :
  forallb_str p n = true ->
  (match rest with EmptyString => True | String c _ => p c = false end) ->
  span p (n ++ rest) = (n, rest).
Proof.
  intros Hn Hr. induction n as [|c n IH]; cbn [append span].
  - destruct rest as [|c r]; [reflexivity|]. cbn [span]. now rewrite Hr.
  - cbn [forallb_str] in Hn. apply andb_true_iff in Hn as [Hc Hn].
    rewrite Hc, IH by assumption. reflexivity.
Qed.

Lemma lacks_dq_not_dq (n : string) : lacks dqc n = true -> forallb_str not_dq n = true.
Proof. intros Hn; exact Hn. Qed.

Lemma envToken_tail (n b : string) :
  envToken n ++ b = String dollar (envTail n b).
Proof.
  unfold envToken, envTail. rewrite !app_assoc. reflexivity.
Qed.

Lemma match_env_token (n b : string) :
  n <> "" -> lacks dqc n = true ->
  match_env (envToken n ++ b) = Some (n, b).
Proof.
  intros Hne Hn. unfold match_env, envToken.
  replace (("$env(" ++ dq ++ n ++ dq ++ ")") ++ b)
    with (("$env(" ++ dq) ++ (n ++ (dq ++ ")") ++ b)).
  2:{ rewrite !app_assoc. reflexivity. }
  unfold lit at 1. rewrite prefix_refl_app, drop_app.
  unfold many1. rewrite span_app; [| now apply lacks_dq_not_dq | reflexivity].
  destruct n as [|c n]; [congruence|].
  unfold lit. rewrite prefix_refl_app, drop_app. reflexivity.
Qed.

Lemma envVarMatches_skip (u s : string) :
  envVarMatches (String.length u) (u ++ s) = envVarMatches 0 s.
Proof.
  induction u as [|c u IH]; cbn [append String.length].
  - destruct s; reflexivity.
  - cbn [envVarMatches]. exact IH.
Qed.

Lemma envVarMatches_app_lacks (a s : string) :
  lacks dollar a = true -> envVarMatches 0 (a ++ s) = envVarMatches 0 s.
Proof.
  induction a as [|c a IH]; intros Ha; [reflexivity|].
  apply lacks_cons in Ha as [Hc Ha]. cbn [append envVarMatches].
  rewrite match_env_head by assumption. now apply IH.
Qed.

(** A text with one reference has one match. *)
Lemma envVarMatches_token (a n b : string) :
  n <> "" -> lacks dqc n = true ->
  lacks dollar a = true -> lacks dollar b = true ->
  envVarMatches 0 (a ++ envToken n ++ b) = [envToken n].
Proof.
  intros Hne Hn Ha Hb.
  rewrite envVarMatches_app_lacks by assumption.
  pose proof (match_env_token n b Hne Hn) as Hm.
  assert (Hshape : envToken n = String dollar (envTail n "")).
  { now rewrite <- envToken_tail, app_nil_r. }
  rewrite Hshape in Hm |- *.
  cbn [append envVarMatches]. cbn [append] in Hm. rewrite Hm.
  f_equal. rewrite Hshape.
  replace (String.length (String dollar (envTail n "")) - 1)
    with (String.length (envTail n "")) by (cbn [String.length]; lia).
  rewrite envVarMatches_skip. now apply envVarMatches_lacks.
Qed.

Lemma search_match_env_token (n : string) :
  n <> "" -> lacks dqc n = true ->
  search match_env (envToken n) = Some (n, "").
Proof.
  intros Hne Hn.
  pose proof (match_env_token n "" Hne Hn) as Hm.
  rewrite app_nil_r in Hm.
  destruct (envToken n); cbn [search]; now rewrite Hm.
Qed.

(** A reference to an unset variable is passed over. *)
Lemma replaceEnvMatch_unset H (result n : string) :
  n <> "" -> lacks dqc n = true -> process_env H n = None ->
  replaceEnvMatch H result (envToken n) = result.
Proof.
  intros Hne Hn Henv. unfold replaceEnvMatch.
  rewrite search_match_env_token by assumption.
  rewrite Henv. now destruct (negb _).
Qed.

Lemma replaceEnv_token_unset H (a n b : string) :
  n <> "" -> lacks dqc n = true ->
  lacks dollar a = true -> lacks dollar b = true ->
  process_env H n = None ->
  replaceEnv H (a ++ envToken n ++ b) = a ++ envToken n ++ b.
Proof.
  intros Hne Hn Ha Hb Henv. unfold replaceEnv.
  rewrite envVarMatches_token by assumption.
  cbn [fold_left]. now apply replaceEnvMatch_unset.
Qed.

(** A reference to a set variable gives way to its value. *)
Lemma replaceFirstFrom_app_lacks x (p t a s b : string) :
  lacks x a = true ->
  replaceFirstFrom (String x p) t b (a ++ s) =
  a ++ replaceFirstFrom (String x p) t (b ++ a) s.
Proof.
  revert b. induction a as [|c a IH]; intros b Ha; cbn [append].
  - now rewrite app_nil_r.
  - apply lacks_cons in Ha as [Hc Ha].
    cbn [replaceFirstFrom]. rewrite prefix_head_neq by assumption.
    rewrite IH by assumption. now rewrite app_assoc.
Qed.

Lemma replaceFirstFrom_match (pat t s b : string) :
  replaceFirstFrom pat t b (pat ++ s) = GetSubstitution pat b s t ++ s.
Proof.
  destruct (pat ++ s) eqn:E; cbn [replaceFirstFrom]; rewrite <- E;
    now rewrite prefix_refl_app, drop_app.
Qed.

Lemma replaceEnv_token_set H (a n b v : string) :
  n <> "" -> lacks dqc n = true ->
  lacks dollar a = true -> lacks dollar b = true -> lacks dollar v = true ->
  process_env H n = Some v ->
  replaceEnv H (a ++ envToken n ++ b) = a ++ v ++ b.
Proof.
  intros Hne Hn Ha Hb Hv Henv. unfold replaceEnv.
  rewrite envVarMatches_token by assumption.
  cbn [fold_left]. unfold replaceEnvMatch.
  rewrite search_match_env_token by assumption.
  rewrite Henv.
  destruct n as [|c n]; [congruence|]. cbn [String.eqb negb].
  unfold replaceFirst.
  assert (Hshape : envToken (String c n) = String dollar (envTail (String c n) "")).
  { now rewrite <- envToken_tail, app_nil_r. }
  rewrite Hshape.
  rewrite replaceFirstFrom_app_lacks by assumption. f_equal.
  rewrite replaceFirstFrom_match. now rewrite GetSubstitution_plain.
Qed.

End EnvFacts.

(** ** The loop over the commands of a task *)

Module LoopFacts.
Import Common Notions.

Section Loop.
Context {M : Type} (step : Command -> M -> option (ExecutionResult * M)).



(** Whatever the loop returns, it returns in one of its two ways. *)
Lemma forCommands_inv (taskName : string) (cmds : list Command)
    (m m' : M) (r : ExecutionResult) :
  forCommands step taskName cmds m = Some (r, m') ->
  (r = completed taskName /\ runsAll step cmds m m')
  \/ (exists pre c post m1,
        cmds = (pre ++ c :: post)%list /\ runsAll step pre m m1
        /\ step c m1 = Some (r, m') /\ success r = false).
Proof.
  revert m. induction cmds as [|c cs IH]; intros m; cbn [forCommands].
  - intros [= <- <-]. left. split; [reflexivity | constructor].
  - destruct (step c m) as [[r1 m1]|] eqn:Hstep; [|discriminate].
    destruct (success r1) eqn:Hok.
    + intros Hrest. apply IH in Hrest as [[-> Hall]|(pre & c' & post & ma & -> & Hall & Hc & Hf)].
      * left. split; [reflexivity|]. econstructor; eassumption.
      * right. exists (c :: pre), c', post, ma. repeat split; auto.
        econstructor; eassumption.
    + intros [= <- <-]. right. exists [], c, cs, m. repeat split; auto. constructor.
Qed.

Lemma findTask_none (taskName : string) (s : SSALScript) :
  noTaskNamed taskName s -> findTask taskName s = None.
Proof.
  unfold noTaskNamed, findTask. induction (tasks s) as [|t ts IH]; intros Hn.
  - reflexivity.
  - inversion Hn as [|? ? Ht Hts]; subst. cbn [find].
    destruct (String.eqb (task_name t) taskName) eqn:E.
    + apply String.eqb_eq in E. contradiction.
    + now apply IH.
Qed.

End Loop.

End LoopFacts.

(** ** The executor: tasks, commands and their effects *)

Module ExecFacts.
Import JSString JSObject Common Notions StringFacts LoopFacts Exec.

Section WithHost.
Context (H : Host).

Lemma executeTask_eq (fuel : nat) (taskName : string) (m : Machine H) :
  executeTask H fuel taskName m =
  match findTask taskName (script (this H m)) with
  | None => Some (notFound taskName, m)
  | Some task =>
      forCommands (executeCommand H fuel taskName) taskName (task_commands task) m
  end.
Proof. destruct fuel; reflexivity. Qed.

(** *** What each command does to the executor object *)

Lemma sameButGlobals_refl e : sameButGlobals e e.
Proof. repeat split. Qed.

Lemma sameButGlobals_trans e1 e2 e3 :
  sameButGlobals e1 e2 -> sameButGlobals e2 e3 -> sameButGlobals e1 e3.
Proof.
  intros (a1 & a2 & a3 & a4) (b1 & b2 & b3 & b4).
  repeat split; congruence.
Qed.

(** A step that keeps the object and records nothing. *)
Lemma framedBy_nil (m m' : Machine H) :
  this H m' = this H m -> dispatched H m' = dispatched H m -> framedBy [] m m'.
Proof.
  intros Ht Hd. split; [rewrite Ht; apply sameButGlobals_refl|].
  split; [now rewrite Hd, List.app_nil_r | now rewrite Ht].
Qed.

Lemma framedBy_refl (m : Machine H) : framedBy [] m m.
Proof. now apply framedBy_nil. Qed.

Lemma framedBy_trans d1 d2 (m1 m2 m3 : Machine H) :
  framedBy d1 m1 m2 -> framedBy d2 m2 m3 -> framedBy (d1 ++ d2) m1 m3.
Proof.
  intros (Hs1 & Hd1 & Hg1) (Hs2 & Hd2 & Hg2).
  split; [eapply sameButGlobals_trans; eassumption|]. split.
  - now rewrite Hd2, Hd1, List.app_assoc.
  - intros Hall. apply Forall_app in Hall as [Ha Hb].
    now rewrite Hg2, Hg1.
Qed.

Lemma framedBy_record (taskName : string) (c : Command) (m : Machine H) :
  framedBy [(taskName, c)] m (record_call H taskName c m).
Proof. repeat split. Qed.

Lemma framedBy_recorded (taskName : string) (c : Command) d (m m' : Machine H) :
  framedBy d (record_call H taskName c m) m' -> framedBy ((taskName, c) :: d) m m'.
Proof. apply (framedBy_trans [(taskName, c)] d), framedBy_record. Qed.

Lemma runCommand_keeps (command : string) (m : Machine H) :
  this H (snd (runCommand H command m)) = this H m
  /\ dispatched H (snd (runCommand H command m)) = dispatched H m.
Proof.
  unfold runCommand.
  destruct (exec H _ _ _) as [w out]. cbn [this write].
  destruct (String.eqb (exec_stdout out) ""), (String.eqb (exec_stderr out) ""),
    (exec_error out); split; reflexivity.
Qed.

Lemma deleteFile_keeps (filePath : string) (m : Machine H) :
  this H (snd (deleteFile H filePath m)) = this H m
  /\ dispatched H (snd (deleteFile H filePath m)) = dispatched H m.
Proof.
  unfold deleteFile.
  destruct (existsSync H _ _); [|split; reflexivity].
  destruct (unlinkSync H _ _) as [w [msg|]]; split; reflexivity.
Qed.

(** A command records itself first; the rest is framed. *)
Lemma executeCommandWith_framed (run : TaskRunner H) (taskName : string)
    (c : Command) (m m' : Machine H) (r : ExecutionResult) :
  framedRunner run ->
  executeCommandWith H run taskName c m = Some (r, m') ->
  exists later, framedBy ((taskName, c) :: later) m m'.
Proof.
  intros Hrun. unfold executeCommandWith.
  set (m1 := record_call H taskName c m).
  assert (Hstay : exists later, framedBy ((taskName, c) :: later) m m1)
    by (exists []; apply framedBy_record).
  assert (Hkeep : forall m2, this H m2 = this H m1 -> dispatched H m2 = dispatched H m1 ->
            exists later, framedBy ((taskName, c) :: later) m m2).
  { intros m2 Ht Hd. exists []. now apply framedBy_recorded, framedBy_nil. }
  destruct (String.eqb (cmd_type c) "run") eqn:Erun.
  { destruct (replaceVariables _ _ _ _) as [s|msg]; [intros [= Heq] | intros [= <- <-]].
    - destruct (runCommand_keeps s m1) as [Ht Hd]. rewrite Heq in Ht, Hd.
      now apply Hkeep.
    - exact Hstay. }
  destruct (String.eqb (cmd_type c) "del") eqn:Edel.
  { destruct (replaceVariables _ _ _ _) as [s|msg]; [intros [= Heq] | intros [= <- <-]].
    - destruct (deleteFile_keeps s m1) as [Ht Hd]. rewrite Heq in Ht, Hd.
      now apply Hkeep.
    - exact Hstay. }
  destruct (String.eqb (cmd_type c) "ech") eqn:Eech.
  { destruct (replaceVariables _ _ _ _) as [s|msg]; intros [= <- <-].
    - now apply Hkeep.
    - exact Hstay. }
  destruct (String.eqb (cmd_type c) "tsk") eqn:Etsk.
  { destruct (replaceVariables _ _ _ _) as [s|msg].
    - unfold runTask.
      destruct (run s _) as [[r1 m2]|] eqn:Hcall; [|discriminate].
      apply Hrun in Hcall as [d Hcall].
      assert (Hm2 : exists later, framedBy ((taskName, c) :: later) m m2).
      { exists d. apply framedBy_recorded.
        apply (framedBy_trans [] d _ _ _ (framedBy_nil _ _ eq_refl eq_refl) Hcall). }
      destruct (success r1); intros [= <- <-]; exact Hm2.
    - intros [= <- <-]. exact Hstay. }
  destruct (String.eqb (cmd_type c) "var") eqn:Evar.
  { apply String.eqb_eq in Evar.
    destruct (replaceVariables _ _ _ _) as [s|msg]; intros [= <- <-].
    - exists [].
      split; [repeat split|]. split; [reflexivity|].
      intros Hall. inversion Hall as [|? ? Hc _]; subst. now elim Hc.
    - exact Hstay. }
  intros [= <- <-]. exact Hstay.
Qed.

Lemma forCommands_framed step (taskName : string) (cmds : list Command)
    (m m' : Machine H) (r : ExecutionResult) :
  (forall c m r m', step c m = Some (r, m') -> exists d, framedBy d m m') ->
  forCommands step taskName cmds m = Some (r, m') -> exists d, framedBy d m m'.
Proof.
  intros Hstep. revert m. induction cmds as [|c cs IH]; intros m; cbn [forCommands].
  - intros [= <- <-]. exists []. apply framedBy_refl.
  - destruct (step c m) as [[r1 m1]|] eqn:Hc; [|discriminate].
    apply Hstep in Hc as [d1 Hc].
    destruct (success r1).
    + intros Hrest. apply IH in Hrest as [d2 Hrest].
      exists (d1 ++ d2)%list. eapply framedBy_trans; eassumption.
    + intros [= <- <-]. now exists d1.
Qed.

Lemma nested_framed (fuel : nat) :
  (forall k, k < fuel -> framedRunner (executeTask H k)) -> framedRunner (nested H fuel).
Proof.
  destruct fuel as [|fuel]; intros IH.
  - intros ? ? ? ? Hn. discriminate Hn.
  - apply IH. lia.
Qed.

Lemma executeTask_framed (fuel : nat) : framedRunner (executeTask H fuel).
Proof.
  induction fuel as [fuel IH] using lt_wf_ind.
  intros n m r m'. rewrite executeTask_eq.
  destruct (findTask n _) as [task|].
  - apply forCommands_framed. intros c ma ra mb Hc.
    apply executeCommandWith_framed in Hc as [later Hc]; [eexists; exact Hc|].
    now apply nested_framed.
  - intros [= <- <-]. exists []. apply framedBy_refl.
Qed.


(** Every command but tsk returns, whatever the fuel. *)
Lemma executeCommand_returns (fuel : nat) (taskName : string) (c : Command)
    (m : Machine H) :
  cmd_type c <> "tsk" ->
  exists r m', executeCommand H fuel taskName c m = Some (r, m').
Proof.
  intros Hc. unfold executeCommand, executeCommandWith.
  destruct (String.eqb (cmd_type c) "tsk") eqn:Etsk;
    [apply String.eqb_eq in Etsk; contradiction|].
  repeat match goal with
  | |- context [String.eqb (cmd_type c) ?k] => destruct (String.eqb (cmd_type c) k)
  end;
  try (destruct (replaceVariables _ _ _ _) as [s|msg]);
  try (destruct (runCommand _ _ _) as [r m'] eqn:E);
  try (destruct (deleteFile _ _ _) as [r m'] eqn:E);
  eexists; eexists; reflexivity.
Qed.

End WithHost.

End ExecFacts.

(** ** The parser on a var line *)

Module ParserFacts.
Import JSString Notions StringFacts EnvFacts Parser.

Lemma space_not_word (c : ascii) : is_space c = true -> is_word c = false.
Proof. destruct c as [[] [] [] [] [] [] [] []]; vm_compute; congruence. Qed.

Lemma word_not_space (c : ascii) : is_word c = true -> is_space c = false.
Proof. destruct c as [[] [] [] [] [] [] [] []]; vm_compute; congruence. Qed.

Lemma trimEnd_spaces (s w : string) : spaces w = true -> trimEnd (s ++ w) = trimEnd s.
Proof.
  intros Hw. induction s as [|c s IH]; cbn [append].
  - induction w as [|x w IHw]; [reflexivity|].
    cbn [spaces forallb_str] in Hw. apply andb_true_iff in Hw as [Hx Hw].
    cbn [trimEnd]. now rewrite (IHw Hw), Hx.
  - cbn [trimEnd]. now rewrite IH.
Qed.

Lemma trimEnd_ends (s : string) c :
  is_space c = false -> trimEnd (s ++ String c "") = s ++ String c "".
Proof.
  intros Hc. induction s as [|x s IH]; cbn [append trimEnd].
  - now rewrite Hc.
  - rewrite IH. destruct (s ++ String c "") eqn:E; [|reflexivity].
    destruct s; discriminate E.
Qed.

Lemma span_spaces (w rest : string) :
  spaces w = true ->
  (match rest with EmptyString => True | String c _ => is_space c = false end) ->
  span is_space (w ++ rest) = (w, rest).
Proof. apply span_app. Qed.

Lemma search_here {A} (m : string -> option A) (s : string) (r : A) :
  m s = Some r -> search m s = Some r.
Proof. intros Hm. destruct s; cbn [search]; now rewrite Hm. Qed.

Lemma trim_varLine (w0 w1 name w2 w3 value w4 : string) :
  spaces w0 = true -> spaces w4 = true ->
  trim (varLine w0 w1 name w2 w3 value w4) = varBody w1 name w2 w3 value.
Proof.
  intros H0 H4. unfold trim, trimStart, varLine.
  rewrite span_spaces; [|assumption|reflexivity]. cbn [snd].
  rewrite trimEnd_spaces by assumption.
  unfold varBody.
  replace ("var " ++ w1 ++ name ++ w2 ++ "=" ++ w3 ++ dq ++ value ++ dq)
    with (("var " ++ w1 ++ name ++ w2 ++ "=" ++ w3 ++ dq ++ value) ++ String dqc "").
  - now apply trimEnd_ends.
  - rewrite !app_assoc. reflexivity.
Qed.

Lemma head_not_space_word (name rest : string) :
  name <> "" -> forallb_str is_word name = true ->
  match name ++ rest with EmptyString => True | String c _ => is_space c = false end.
Proof.
  destruct name as [|c n]; [congruence|]. intros _ Hn.
  cbn [forallb_str] in Hn. apply andb_true_iff in Hn as [Hc _].
  cbn [append]. now apply word_not_space.
Qed.

Lemma head_not_word_after (w rest : string) c :
  spaces w = true -> is_word c = false ->
  match w ++ String c rest with EmptyString => True | String x _ => is_word x = false end.
Proof.
  destruct w as [|x w]; intros Hw Hc; cbn [append]; [assumption|].
  cbn [spaces forallb_str] in Hw. apply andb_true_iff in Hw as [Hx _].
  now apply space_not_word.
Qed.

Lemma match_var_body (w1 name w2 w3 value : string) :
  spaces w1 = true -> spaces w2 = true -> spaces w3 = true ->
  name <> "" -> forallb_str is_word name = true -> lacks dqc value = true ->
  match_var (varBody w1 name w2 w3 value) = Some (name, value).
Proof.
  intros H1 H2 H3 Hne Hname Hval. unfold match_var, varBody.
  change ("var " ++ w1 ++ name ++ w2 ++ "=" ++ w3 ++ dq ++ value ++ dq)
    with ("var" ++ (String " " w1) ++ name ++ w2 ++ "=" ++ w3 ++ dq ++ value ++ dq).
  unfold lit at 1. rewrite prefix_refl_app, drop_app.
  unfold many1 at 1.
  rewrite span_spaces;
    [| cbn [spaces forallb_str]; apply andb_true_iff; split; [reflexivity | exact H1]
     | now apply head_not_space_word].
  unfold many1.
  rewrite span_app; [| assumption | now apply head_not_word_after].
  destruct name as [|c0 n0]; [congruence|].
  cbn [snd].
  rewrite span_spaces; [| assumption | reflexivity]. cbn [snd].
  unfold lit at 1. rewrite prefix_refl_app, drop_app.
  rewrite span_spaces; [| assumption | reflexivity]. cbn [snd].
  unfold lit at 1. rewrite prefix_refl_app, drop_app.
  rewrite span_app; [| exact Hval | reflexivity].
  reflexivity.
Qed.

Lemma update_nth {A} (f : A -> A) (l : list A) (i : nat) (x : A) :
  nth_error l i = Some x -> nth_error (update i f l) i = Some (f x).
Proof.
  revert i. induction l as [|y l IH]; intros [|i]; cbn; try discriminate.
  - now intros [= ->].
  - apply IH.
Qed.

Lemma update_other {A} (f : A -> A) (l : list A) (i j : nat) :
  j <> i -> nth_error (update i f l) j = nth_error l j.
Proof.
  revert i j. induction l as [|y l IH]; intros [|i] [|j] Hne; cbn; try reflexivity.
  - congruence.
  - apply IH. congruence.
Qed.

(** What the loop body does with a var line. *)
Lemma parseLine_var (st : State) (w0 w1 name w2 w3 value w4 : string) :
  spaces w0 = true -> spaces w1 = true -> spaces w2 = true ->
  spaces w3 = true -> spaces w4 = true ->
  name <> "" -> forallb_str is_word name = true -> lacks dqc value = true ->
  parseLine st (varLine w0 w1 name w2 w3 value w4) =
  match currentTask st with
  | Some i => pushCommand i (mkCommand "var" [name; value]) st
  | None => pushVariable (mkVariable name value) st
  end.
Proof.
  intros H0 H1 H2 H3 H4 Hne Hname Hval. unfold parseLine.
  rewrite trim_varLine by assumption.
  rewrite (search_here _ _ _ (match_var_body w1 name w2 w3 value H1 H2 H3 Hne Hname Hval)).
  unfold varBody, startsWith. rewrite (prefix_refl_app "var "). reflexivity.
Qed.

Lemma length_update {A} (f : A -> A) (l : list A) (i : nat) :
  List.length (update i f l) = List.length l.
Proof.
  revert i. induction l as [|y l IH]; intros [|i]; cbn; try reflexivity.
  now rewrite IH.
Qed.

(** The loop keeps [currentTask] among the tasks of the script. *)
Lemma parseLine_listed (st : State) (rawLine : string) :
  currentTaskListed st -> currentTaskListed (parseLine st rawLine).
Proof.
  unfold currentTaskListed, parseLine. intros Hst.
  destruct (_ || _); [exact Hst|].
  destruct (startsWith "var " _).
  { destruct (search match_var _) as [[n v]|]; [|exact Hst].
    destruct (currentTask st) as [i|] eqn:Ecur.
    - cbn [pushCommand currentTask script tasks]. rewrite Ecur.
      now rewrite length_update.
    - cbn [pushVariable currentTask]. now rewrite Ecur. }
  destruct (startsWith "task " _).
  { destruct (search match_task _) as [n|]; [|exact Hst].
    cbn [openTask currentTask script tasks]. rewrite List.length_app.
    cbn [List.length]. lia. }
  destruct (currentTask st) as [i|] eqn:Ecur; [|now rewrite Ecur].
  destruct (match_indented rawLine); [|now rewrite Ecur].
  destruct (parseCommand rawLine) as [c|]; [|now rewrite Ecur].
  cbn [pushCommand currentTask script tasks]. rewrite Ecur.
  now rewrite length_update.
Qed.

Lemma parse_listed (lines : list string) (st : State) :
  currentTaskListed st -> currentTaskListed (fold_left parseLine lines st).
Proof.
  revert st. induction lines as [|l lines IH]; intros st Hst; [exact Hst|].
  cbn [fold_left]. now apply IH, parseLine_listed.
Qed.

End ParserFacts.

(** ** Dictionaries *)

Module ObjectFacts.
Import JSString JSObject.

Section Entries.
Context {V : Type}.

Lemma get_overwrite (k : string) (v : V) (o : entries V) :
  get k o <> None -> get k (overwrite k v o) = Some v.
Proof.
  induction o as [|[k' v'] o IH]; cbn [get overwrite]; [congruence|].
  destruct (String.eqb k' k) eqn:E; cbn [get]; rewrite E; [reflexivity | exact IH].
Qed.

Lemma get_insertIndex (i : N) (k : string) (v : V) (o : entries V) :
  get k o = None -> get k (insertIndex i k v o) = Some v.
Proof.
  induction o as [|[k' v'] o IH]; cbn [get insertIndex].
  - now rewrite String.eqb_refl.
  - destruct (String.eqb k' k) eqn:E; [discriminate|]. intros Hn.
    destruct (arrayIndex k') as [j|]; [destruct (j <? i)%N|];
      cbn [get]; rewrite ?E, ?String.eqb_refl; auto.
Qed.

Lemma get_app_new (k : string) (v : V) (o : entries V) :
  get k o = None -> get k (o ++ [(k, v)])%list = Some v.
Proof.
  induction o as [|[k' v'] o IH]; cbn [get app].
  - now rewrite String.eqb_refl.
  - destruct (String.eqb k' k); [discriminate | exact IH].
Qed.

(** Reading back what was stored. *)
Lemma get_set (k : string) (v : V) (o : entries V) : get k (set k v o) = Some v.
Proof.
  unfold set. destruct (get k o) eqn:E.
  - apply get_overwrite. congruence.
  - destruct (arrayIndex k); [now apply get_insertIndex | now apply get_app_new].
Qed.

End Entries.

End ObjectFacts.

(** ** The earlier variant of the executor *)

Module LegacyFacts.
Import JSString Common Notions LoopFacts.

Section WithHost.
Context (H : Host).

Lemma legacy_executeTask_eq (fuel : nat) (taskName : string) (m : Legacy.Machine H) :
  Legacy.executeTask H fuel taskName m =
  match findTask taskName (Legacy.script (Legacy.this H m)) with
  | None => Some (notFound taskName, m)
  | Some task =>
      forCommands (Legacy.executeCommand H fuel) taskName (task_commands task) m
  end.
Proof. destruct fuel; reflexivity. Qed.


End WithHost.

End LegacyFacts.

(** ** The law of the loop *)

Module LawFacts.
Import Common Notions LoopFacts.


End LawFacts.

(** * The scenarios of the specification, by evaluation *)

Module Scenarios.
Import JSString JSObject Common Exec.

Example greeting_parses :
  Parser.parseSSALContent Sim.greetingText
  = mkScript [mkVariable "GREETING" "hello"]
      [mkTask "greet" [mkCommand "ech" ["$GREETING world"]]].
Proof. reflexivity. Qed.

Example greeting_runs :
  executeTask Sim.plainHost 0 "greet"
    (start Sim.plainHost (newExecutor (Parser.parseSSALContent Sim.greetingText) "/") [])
  = Some (completed "greet",
          mkMachine Sim.plainHost
            (newExecutor (Parser.parseSSALContent Sim.greetingText) "/") []
            [console_log "hello world"]
            [("greet", mkCommand "ech" ["$GREETING world"])]).
Proof. reflexivity. Qed.

Example environment_set :
  replaceVariables Sim.fooHost (newExecutor (mkScript [] []) "/") "t"
    (Some (envToken "FOO")) = Normal "bar".
Proof. reflexivity. Qed.

Example template_patterns :
  replaceAll "$A" "<$&|$$>" "x$AB" = "x<$A|$>B".
Proof. reflexivity. Qed.

Example entries_order :
  Sim.keys_in_order = ["1"; "2"; "10"; "b"; "a"].
Proof. reflexivity. Qed.

Example nested_task_needs_fuel :
  executeTask Sim.plainHost 0 "u"
    (start Sim.plainHost (newExecutor Sim.halting "/") []) = None
  /\ exists m',
       executeTask Sim.plainHost 1 "u"
         (start Sim.plainHost (newExecutor Sim.halting "/") [])
       = Some (completed "u", m').
Proof. split; [reflexivity | eexists; reflexivity]. Qed.

End Scenarios.

(** * The properties of the specification *)

Module Claims.
Import JSString JSObject Common Notions Exec.
Import StringFacts PassFacts ResolveFacts PositionalFacts EnvFacts LoopFacts.
Import ExecFacts ObjectFacts LawFacts.

(** ** Variable resolution *)

(** C1, as the code has it: when a declared global variable and a runtime
    variable share the name NAME, an argument that contains the token
    dollar-NAME resolves to the declared value.  The pass over the
    declared variables runs first and leaves no token for the pass over
    the runtime variables.  Stated for a text with one token, the first
    declared variable spelt at it being NAME, a declared value free of
    dollar signs, and a task whose arguments are looked up among the
    executor's own entries (at a task name that objects inherit and that
    has no arguments of its own, resolution throws instead). *)
Theorem declared_value_shadows_runtime (H : Host) (e : Executor) (taskName : string)
    (pre post : list ScriptVariable) (name declaredValue runtimeValue a b : string) :
  literalNames e -> ordinaryLookup e taskName = true ->
  variables (script e) = (pre ++ mkVariable name declaredValue :: post)%list ->
  get name (globalVariables e) = Some runtimeValue ->
  noneStarts (map var_name pre) (name ++ b) ->
  plain a = true -> plain name = true -> plain b = true ->
  lacks dollar declaredValue = true ->
  replaceVariables H e taskName (Some (a ++ String dollar name ++ b))
  = Normal (a ++ declaredValue ++ b).
Proof.
  intros _ _ Hvars _ Hpre Ha Hn Hb Hv.
  exact (resolve_declared H e taskName pre post name declaredValue a b Ha Hn Hb Hv Hvars Hpre).
Qed.

Lemma declared_value_shadows_runtime_witness :
  replaceVariables Sim.plainHost
    (mkExecutor Sim.shadowing "/" [] [] [("X", "runtime")]) "t" (Some "say $X!")
  = Normal "say declared!".
Proof.
  apply (declared_value_shadows_runtime Sim.plainHost
           (mkExecutor Sim.shadowing "/" [] [] [("X", "runtime")]) "t"
           [] [] "X" "declared" "runtime" "say " "!");
    try reflexivity; repeat constructor.
Defined.

(** C1 as stated fails: after the task has run its var command, the
    runtime map holds X = runtime, and yet dollar-X resolves to the
    declared value, which is what the ech command prints. *)
Lemma runtime_value_does_not_override :
  exists m',
    executeTask Sim.plainHost 0 "t"
      (start Sim.plainHost (newExecutor Sim.shadowing "/") []) = Some (completed "t", m')
    /\ get "X" (globalVariables (this Sim.plainHost m')) = Some "runtime"
    /\ replaceVariables Sim.plainHost (this Sim.plainHost m') "t" (Some "$X")
       = Normal "declared"
    /\ output Sim.plainHost m' = [console_log "declared"]
    /\ "declared" <> "runtime".
Proof.
  eexists. split; [reflexivity|].
  repeat split; try reflexivity. discriminate.
Qed.

(** C2, as the code has it: a reference to an environment variable that
    is not set is left in the text as it stands; it is not replaced by
    the empty string.  Stated for a text with one reference that no
    declared or runtime variable is spelt at, in both variants of the
    executor; in the variant with arguments, for a task whose arguments
    are looked up among the executor's own entries (at a task name that
    objects inherit and that has no arguments of its own, resolution
    throws before it reaches the environment). *)
Theorem unset_environment_reference_stays (H : Host) (e : Executor)
    (l : Legacy.Executor) (taskName : string) (a n b : string) :
  literalNames e -> literalDeclared (Legacy.script l) ->
  ordinaryLookup e taskName = true ->
  process_env H n = None ->
  n <> "" -> lacks dqc n = true ->
  plain a = true -> plain n = true -> plain b = true ->
  noneStarts (declared (script e)) (envTail n b) ->
  noneStarts (keys (globalVariables e)) (envTail n b) ->
  noneStarts (declared (Legacy.script l)) (envTail n b) ->
  replaceVariables H e taskName (Some (a ++ envToken n ++ b))
  = Normal (a ++ envToken n ++ b)
  /\ Legacy.replaceVariables H l (a ++ envToken n ++ b) = a ++ envToken n ++ b.
Proof.
  intros _ _ _ Henv Hne Hq [Ha Ha']%plain_split [Hn Hn']%plain_split
    [Hb Hb']%plain_split Hdecl Hglob Hleg.
  assert (Htail : lacks dollar (envTail n b) = true).
  { unfold envTail. rewrite !lacks_app, Hn, Hb. reflexivity. }
  assert (Htail' : lacks qmark (envTail n b) = true).
  { unfold envTail. rewrite !lacks_app, Hn', Hb'. reflexivity. }
  split.
  - unfold replaceVariables, replaceNames. f_equal.
    rewrite envToken_tail. fold (around a dollar (envTail n b)).
    rewrite question_passes_idle
      by (apply lacks_around; auto using qmark_dollar).
    rewrite replaceScriptVariables_miss, replaceEntries_miss by assumption.
    unfold around. rewrite <- envToken_tail.
    now apply replaceEnv_token_unset.
  - unfold Legacy.replaceVariables.
    rewrite envToken_tail. fold (around a dollar (envTail n b)).
    rewrite replaceScriptVariables_miss by assumption.
    unfold around. rewrite <- envToken_tail.
    now apply replaceEnv_token_unset.
Qed.

Lemma unset_environment_reference_stays_witness :
  replaceVariables Sim.plainHost (newExecutor Sim.shadowing "/") "t"
    (Some ("home: " ++ envToken "FOO" ++ "."))
  = Normal ("home: " ++ envToken "FOO" ++ ".")
  /\ Legacy.replaceVariables Sim.plainHost (Legacy.newExecutor Sim.shadowing "/")
       ("home: " ++ envToken "FOO" ++ ".")
     = "home: " ++ envToken "FOO" ++ ".".
Proof.
  apply (unset_environment_reference_stays Sim.plainHost
           (newExecutor Sim.shadowing "/") (Legacy.newExecutor Sim.shadowing "/")
           "t" "home: " "FOO" ".");
    try reflexivity; try discriminate; repeat constructor.
Defined.

(** C2 as stated fails: with FOO not set, the reference to FOO resolves
    to itself, not to the empty string. *)
Lemma unset_environment_reference_is_not_emptied :
  replaceVariables Sim.plainHost (newExecutor (mkScript [] []) "/") "t"
    (Some (envToken "FOO")) = Normal (envToken "FOO")
  /\ Legacy.replaceVariables Sim.plainHost (Legacy.newExecutor (mkScript [] []) "/")
       (envToken "FOO") = envToken "FOO"
  /\ envToken "FOO" <> "".
Proof. repeat split; try reflexivity. discriminate. Qed.

(** C5, as the code has it: for positional arguments a1..an free of
    question marks and dollar signs, and a command text free of dollar
    signs and of two question marks in a row (no named argument being
    registered), resolution replaces every question mark followed by a
    digit d from 1 to 9 with d <= n by the d-th argument, and keeps every
    other character: a question mark followed by a digit above n stays,
    and a number of several digits is read by its first digit. *)
Theorem positional_arguments_by_first_digit (H : Host) (e : Executor)
    (taskName : string) (args : list string) (text : string) :
  literalNames e ->
  namedArgs e = [] ->
  plainArgs args ->
  lacks dollar text = true -> noDoubleQ text = true ->
  replaceVariables H (setTaskArgs taskName args e) taskName (Some text)
  = Normal (substPositional args text).
Proof.
  intros _ Hnamed Hargs Htext Hq.
  unfold replaceVariables, replaceNames. f_equal.
  cbn [taskArgs setTaskArgs namedArgs script globalVariables].
  rewrite get_set, Hnamed. cbn [replaceEntries].
  rewrite replaceTaskArgs_substPositional by assumption.
  assert (Hres : lacks dollar (substPositional args text) = true)
    by now apply substPositional_lacks_dollar.
  rewrite replaceScriptVariables_lacks, replaceEntries_lacks by assumption.
  now apply replaceEnv_lacks.
Qed.

Lemma positional_arguments_by_first_digit_witness :
  replaceVariables Sim.plainHost
    (setTaskArgs "t" ["a"; "b"] (newExecutor Sim.shadowing "/")) "t" (Some "?1-?2 ?3")
  = Normal "a-b ?3".
Proof.
  apply (positional_arguments_by_first_digit Sim.plainHost
           (newExecutor Sim.shadowing "/") "t" ["a"; "b"] "?1-?2 ?3");
    try reflexivity; repeat constructor.
Defined.

(** C5 as stated fails for a number of two digits: with the one
    argument a, the token question-mark-10 is not left as it is; its
    first two characters are replaced. *)
Lemma positional_two_digits_not_kept :
  replaceVariables Sim.plainHost
    (setTaskArgs "t" ["a"] (newExecutor (mkScript [] []) "/")) "t" (Some "?10")
  = Normal "a0"
  /\ "a0" <> "?10".
Proof. split; [reflexivity | discriminate]. Qed.



(** ** Commands *)






(** ** Tasks *)

(** C9: when no task of the script has the requested name, executeTask
    returns, whatever the fuel, a failure whose message quotes the name,
    and leaves the machine as it was: no command is dispatched, nothing
    is written.  The same holds in the earlier variant. *)
Theorem unknown_task_is_reported (H : Host) (fuel : nat) (taskName : string)
    (m : Machine H) (l : Legacy.Machine H) :
  (noTaskNamed taskName (script (this H m)) ->
     executeTask H fuel taskName m
     = Some (mkResult false (Some ("Task " ++ dq ++ taskName ++ dq ++ " not found")), m))
  /\ (noTaskNamed taskName (Legacy.script (Legacy.this H l)) ->
       Legacy.executeTask H fuel taskName l
       = Some (mkResult false (Some ("Task " ++ dq ++ taskName ++ dq ++ " not found")), l)).
Proof.
  split; intros Hno.
  - rewrite executeTask_eq, (findTask_none _ _ Hno). reflexivity.
  - rewrite LegacyFacts.legacy_executeTask_eq, (findTask_none _ _ Hno). reflexivity.
Qed.

Lemma unknown_task_is_reported_witness :
  executeTask Sim.plainHost 0 "nope"
    (start Sim.plainHost (newExecutor Sim.halting "/") [])
  = Some (mkResult false (Some ("Task " ++ dq ++ "nope" ++ dq ++ " not found")),
          start Sim.plainHost (newExecutor Sim.halting "/") []).
Proof.
  apply (proj1 (unknown_task_is_reported Sim.plainHost 0 "nope"
           (start Sim.plainHost (newExecutor Sim.halting "/") [])
           (Legacy.start Sim.plainHost (Legacy.newExecutor Sim.halting "/") []))).
  repeat constructor; discriminate.
Defined.



(** C7: through any session on one executor (calls of setTaskArgs,
    setNamedArgs and executeTask in any order) the script stays as it
    was parsed.  The runtime variables are empty in a new executor, and
    they are the same after the session as before it unless a var
    command was dispatched in between. *)
Theorem script_is_never_modified (H : Host) (fuel : nat) (s : SSALScript)
    (dir : string) (m m' : Machine H) (calls : list Call) :
  globalVariables (newExecutor s dir) = []
  /\ (session H fuel m calls = Some m' ->
      script (this H m') = script (this H m)
      /\ exists delta,
           dispatched H m' = (dispatched H m ++ delta)%list
           /\ (Forall notVar delta ->
               globalVariables (this H m') = globalVariables (this H m))).
Proof.
  split; [reflexivity|].
  revert m. induction calls as [|c calls IH]; intros m; cbn [session].
  - intros [= <-]. split; [reflexivity|].
    exists []. split; [now rewrite List.app_nil_r | reflexivity].
  - destruct (perform H fuel m c) as [m1|] eqn:Hc; [|discriminate].
    intros Hrest. apply IH in Hrest as (Hs & d2 & Hd2 & Hg2).
    assert (Hstep : script (this H m1) = script (this H m)
                    /\ exists d1, dispatched H m1 = (dispatched H m ++ d1)%list
                         /\ (Forall notVar d1 ->
                             globalVariables (this H m1) = globalVariables (this H m))).
    { destruct c as [n a|a|n]; cbn [perform] in Hc.
      - injection Hc as <-. split; [reflexivity|].
        exists []. split; [now rewrite List.app_nil_r | reflexivity].
      - injection Hc as <-. split; [reflexivity|].
        exists []. split; [now rewrite List.app_nil_r | reflexivity].
      - destruct (executeTask H fuel n m) as [[r m2]|] eqn:Ht; [|discriminate].
        injection Hc as <-.
        apply executeTask_framed in Ht as (d & (Hsc & _) & Hd & Hg).
        split; [exact Hsc|]. now exists d. }
    destruct Hstep as (Hs1 & d1 & Hd1 & Hg1).
    split; [congruence|].
    exists (d1 ++ d2)%list. split.
    + now rewrite Hd2, Hd1, List.app_assoc.
    + intros Hall. apply Forall_app in Hall as [Ha Hb].
      now rewrite Hg2, Hg1.
Qed.

Lemma script_is_never_modified_witness :
  exists m',
    session Sim.plainHost 1
      (start Sim.plainHost (newExecutor Sim.halting "/") [])
      [CallSetTaskArgs "u" ["x"]; CallExecuteTask "u"; CallExecuteTask "t"] = Some m'
    /\ script (this Sim.plainHost m') = Sim.halting
    /\ globalVariables (this Sim.plainHost m') = [("Y", "1")].
Proof.
  eexists. split; [reflexivity|]. split; [|reflexivity].
  apply (proj2 (script_is_never_modified Sim.plainHost 1 Sim.halting "/"
           (start Sim.plainHost (newExecutor Sim.halting "/") []) _
           [CallSetTaskArgs "u" ["x"]; CallExecuteTask "u"; CallExecuteTask "t"])).
  reflexivity.
Defined.

(** ** The parser *)

(** C6: a var line is read by position.  With a task open it becomes a
    var command with the arguments NAME and VALUE at the end of the
    commands of that task, the other tasks and the variables of the
    script staying as they are; with no task open it becomes a variable
    NAME = VALUE at the end of the variables of the script, and the tasks
    stay.  The states are those of the loop, in which the open task is
    always one of the tasks of the script. *)
Theorem var_line_is_read_by_position (st : Parser.State)
    (w0 w1 name w2 w3 value w4 : string) :
  currentTaskListed st ->
  spaces w0 = true -> spaces w1 = true -> spaces w2 = true ->
  spaces w3 = true -> spaces w4 = true ->
  name <> "" -> forallb_str is_word name = true -> lacks dqc value = true ->
  let st' := Parser.parseLine st (varLine w0 w1 name w2 w3 value w4) in
  (forall i,
      Parser.currentTask st = Some i ->
      exists t,
        nth_error (tasks (Parser.script st)) i = Some t
        /\ nth_error (tasks (Parser.script st')) i
           = Some (mkTask (task_name t)
                     (task_commands t ++ [mkCommand "var" [name; value]])%list)
        /\ (forall j, j <> i ->
              nth_error (tasks (Parser.script st')) j
              = nth_error (tasks (Parser.script st)) j)
        /\ variables (Parser.script st') = variables (Parser.script st)
        /\ Parser.currentTask st' = Some i)
  /\ (Parser.currentTask st = None ->
      variables (Parser.script st')
      = (variables (Parser.script st) ++ [mkVariable name value])%list
      /\ tasks (Parser.script st') = tasks (Parser.script st)
      /\ Parser.currentTask st' = None)
  /\ currentTaskListed st'.
Proof.
  intros Hst H0 H1 H2 H3 H4 Hne Hname Hval. cbv zeta.
  split; [|split]; [| |now apply ParserFacts.parseLine_listed].
  - rewrite ParserFacts.parseLine_var by assumption.
    intros i Hcur. unfold currentTaskListed in Hst. rewrite Hcur in Hst |- *.
    destruct (nth_error (tasks (Parser.script st)) i) as [t|] eqn:Hnth;
      [|apply nth_error_None in Hnth; lia].
    exists t. split; [reflexivity|].
    cbn [Parser.pushCommand Parser.script Parser.currentTask tasks variables].
    repeat split.
    + now rewrite (ParserFacts.update_nth _ _ _ t).
    + intros j Hj. now apply ParserFacts.update_other.
    + exact Hcur.
  - rewrite ParserFacts.parseLine_var by assumption.
    intros Hcur. rewrite Hcur. repeat split. exact Hcur.
Qed.

Lemma var_line_is_read_by_position_witness :
  Parser.parseSSALContent Sim.shadowingText = Sim.shadowing
  /\ variables (Parser.script
        (Parser.parseLine (Parser.mkState (mkScript [] []) None)
           (varLine "" "" "X" " " " " "declared" "")))
     = [mkVariable "X" "declared"]
  /\ nth_error (tasks (Parser.script
        (Parser.parseLine (Parser.mkState (mkScript [] [mkTask "t" []]) (Some 0))
           (varLine "    " "" "X" " " " " "runtime" "")))) 0
     = Some (mkTask "t" [mkCommand "var" ["X"; "runtime"]]).
Proof.
  split; [reflexivity|]. split.
  - apply (proj1 (proj2 (var_line_is_read_by_position
             (Parser.mkState (mkScript [] []) None)
             "" "" "X" " " " " "declared" "" I
             eq_refl eq_refl eq_refl eq_refl eq_refl
             ltac:(discriminate) eq_refl eq_refl))).
    reflexivity.
  - destruct (proj1 (var_line_is_read_by_position
             (Parser.mkState (mkScript [] [mkTask "t" []]) (Some 0))
             "    " "" "X" " " " " "runtime" "" (Nat.lt_0_succ 0)
             eq_refl eq_refl eq_refl eq_refl eq_refl
             ltac:(discriminate) eq_refl eq_refl) 0 eq_refl) as (t & Ht & Ht' & _).
    injection Ht as <-. exact Ht'.
Defined.

End Claims.

(** * Beyond the specification: the parser, line by line *)

Module ParserMore.
Import JSString Notions MoreNotions StringFacts EnvFacts ParserFacts Parser.

Lemma span_all p (w : string) : forallb_str p w = true -> span p w = (w, "").
Proof.
  intros Hw. rewrite <- (app_nil_r w) at 1. now apply span_app.
Qed.

Lemma trim_spaces (w : string) : spaces w = true -> trim w = "".
Proof.
  intros Hw. unfold trim, trimStart. now rewrite (span_all is_space w Hw).
Qed.

(** [trimEnd] keeps everything up to a character that is no white space. *)
Lemma trimEnd_keeps (a : string) c (b : string) :
  is_space c = false -> exists b', trimEnd (a ++ String c b) = a ++ String c b'.
Proof.
  intros Hc. induction a as [|x a IH]; cbn [append trimEnd].
  - destruct (trimEnd b) as [|y r]; [rewrite Hc|]; eexists; reflexivity.
  - destruct IH as [b' ->]. exists b'.
    destruct (a ++ String c b') eqn:E; [destruct a; discriminate E | reflexivity].
Qed.

Lemma trim_keeps (w a : string) c (b : string) :
  spaces w = true -> startsSolid (a ++ String c b) -> is_space c = false ->
  exists b', trim (w ++ a ++ String c b) = a ++ String c b'.
Proof.
  intros Hw Ha Hc. unfold trim, trimStart.
  rewrite span_spaces; [|assumption|].
  - cbn [snd]. now apply trimEnd_keeps.
  - destruct (a ++ String c b); [exact I | exact Ha].
Qed.

Lemma prefix_nil (s : string) : String.prefix "" s = true.
Proof. now destruct s. Qed.

(** Blank lines and comment lines, indented or not, change nothing. *)
Lemma parseLine_blank (st : State) (w : string) :
  spaces w = true -> parseLine st w = st.
Proof. intros Hw. unfold parseLine. now rewrite trim_spaces. Qed.

Lemma parseLine_comment (st : State) (w rest : string) :
  spaces w = true -> parseLine st (w ++ "#" ++ rest) = st.
Proof.
  intros Hw. unfold parseLine.
  destruct (trim_keeps w "" "#" rest Hw eq_refl eq_refl) as [b' Ht].
  cbn [append] in Ht. change ("#" ++ rest) with (String "#" rest). rewrite Ht.
  unfold startsWith. rewrite prefix_cons, Ascii.eqb_refl, prefix_nil.
  reflexivity.
Qed.

(** *** Task lines *)

Lemma trim_taskLine (w0 w1 name w2 : string) :
  spaces w0 = true -> spaces w2 = true ->
  trim (taskLine w0 w1 name w2) = "task " ++ w1 ++ name ++ ":".
Proof.
  intros H0 H2. unfold trim, trimStart, taskLine.
  rewrite span_spaces; [|assumption|reflexivity]. cbn [snd].
  rewrite trimEnd_spaces by assumption.
  replace ("task " ++ w1 ++ name ++ ":") with (("task " ++ w1 ++ name) ++ String ":" "").
  - now apply trimEnd_ends.
  - rewrite !app_assoc. reflexivity.
Qed.

Lemma match_task_body (w1 name : string) :
  spaces w1 = true -> wordName name ->
  match_task ("task " ++ w1 ++ name ++ ":") = Some name.
Proof.
  intros H1 [Hne Hname]. unfold match_task.
  change ("task " ++ w1 ++ name ++ ":") with ("task" ++ (String " " w1) ++ name ++ ":").
  unfold lit at 1. rewrite prefix_refl_app, drop_app.
  unfold many1 at 1.
  rewrite span_spaces;
    [| cbn [spaces forallb_str]; apply andb_true_iff; split; [reflexivity | exact H1]
     | now apply head_not_space_word].
  unfold many1.
  rewrite span_app; [| assumption | reflexivity].
  destruct name as [|c0 n0]; [congruence|].
  reflexivity.
Qed.

Lemma parseLine_task (st : State) (w0 w1 name w2 : string) :
  spaces w0 = true -> spaces w1 = true -> spaces w2 = true -> wordName name ->
  parseLine st (taskLine w0 w1 name w2) = openTask name st.
Proof.
  intros H0 H1 H2 Hname. unfold parseLine.
  rewrite trim_taskLine by assumption.
  rewrite (search_here _ _ _ (match_task_body w1 name H1 Hname)).
  unfold startsWith. rewrite (prefix_refl_app "task "). reflexivity.
Qed.

End ParserMore.

(** * Beyond the specification: what every parsed script satisfies *)

Module ParserInvariants.
Import JSString Notions MoreNotions StringFacts EnvFacts ParserFacts Parser.

Lemma span_sound p (s a b : string) :
  span p s = (a, b) -> forallb_str p a = true /\ s = a ++ b.
Proof.
  revert a b. induction s as [|c s IH]; intros a b; cbn [span].
  - intros [= <- <-]. split; reflexivity.
  - destruct (p c) eqn:Hc.
    + destruct (span p s) as [a' b'] eqn:E. intros [= <- <-].
      destruct (IH a' b' eq_refl) as [Ha ->]. split; [|reflexivity].
      cbn [forallb_str]. now rewrite Hc.
    + intros [= <- <-]. split; reflexivity.
Qed.

Lemma many1_sound p (s a b : string) :
  many1 p s = Some (a, b) -> a <> "" /\ forallb_str p a = true /\ s = a ++ b.
Proof.
  unfold many1. destruct (span p s) as [a' b'] eqn:E.
  destruct a' as [|c a']; [discriminate|]. intros [= <- <-].
  apply span_sound in E as [Ha Hs]. repeat split; [discriminate | assumption | assumption].
Qed.

Lemma search_sound {A} (m : string -> option A) (s : string) (r : A) :
  search m s = Some r -> exists t, m t = Some r.
Proof.
  induction s as [|c s IH]; cbn [search].
  - destruct (m "") eqn:E; [|discriminate]. intros [= <-]. now exists "".
  - destruct (m (String c s)) eqn:E.
    + intros [= <-]. now exists (String c s).
    + exact IH.
Qed.

Lemma match_var_sound (t n v : string) :
  match_var t = Some (n, v) -> wordName n /\ lacks dqc v = true.
Proof.
  unfold match_var.
  destruct (lit "var" t) as [s1|]; [|discriminate].
  destruct (many1 is_space s1) as [[ws s2]|]; [|discriminate].
  destruct (many1 is_word s2) as [[name s3]|] eqn:Hname; [|discriminate].
  destruct (lit "=" _) as [s4|]; [|discriminate].
  destruct (lit dq _) as [s5|]; [|discriminate].
  destruct (span not_dq s5) as [value s6] eqn:Hvalue.
  destruct (lit dq s6) as [[|? ?]|]; try discriminate.
  intros [= <- <-].
  apply many1_sound in Hname as (Hne & Hw & _).
  apply span_sound in Hvalue as (Hv & _).
  repeat split; assumption.
Qed.

Lemma match_task_sound (t n : string) : match_task t = Some n -> wordName n.
Proof.
  unfold match_task.
  destruct (lit "task" t) as [s1|]; [|discriminate].
  destruct (many1 is_space s1) as [[ws s2]|]; [|discriminate].
  destruct (many1 is_word s2) as [[name s3]|] eqn:Hname; [|discriminate].
  destruct (lit ":" s3) as [[|? ?]|]; try discriminate.
  intros [= <-].
  apply many1_sound in Hname as (Hne & Hw & _). split; assumption.
Qed.

Lemma match_keyword_sound (t kw w rest : string) :
  match_keyword t = Some (kw, w, rest) -> wordName kw.
Proof.
  unfold match_keyword.
  destruct (many1 is_space t) as [[ws s1]|]; [|discriminate].
  destruct (many1 is_word s1) as [[k s2]|] eqn:Hk; [|discriminate].
  destruct (many1 is_space s2) as [[w' s3]|]; [|discriminate].
  intros [= <- <- <-].
  apply many1_sound in Hk as (Hne & Hw & _). split; assumption.
Qed.

(** What the cascade yields: a keyword of word characters and one or
    two arguments. *)
Lemma parseCommand_sound (rawLine : string) (c : Command) :
  parseCommand rawLine = Some c -> wordName (cmd_type c) /\ oneOrTwoArgs c.
Proof.
  unfold parseCommand, oneOrTwoArgs.
  destruct (search match_two_quoted rawLine) as [[[kw a] b]|] eqn:E1.
  { intros [= <-]. cbn. split; [|lia].
    apply search_sound in E1 as [t Ht]. unfold match_two_quoted in Ht.
    destruct (match_keyword t) as [[[k w] s1]|] eqn:Hk; [|discriminate].
    apply match_keyword_sound in Hk.
    destruct (match_quoted s1) as [[a' s2]|]; [|discriminate].
    destruct (many1 is_space s2) as [[w' s3]|]; [|discriminate].
    destruct (match_quoted s3) as [[b' [|? ?]]|]; try discriminate.
    now injection Ht as <- _ _. }
  destruct (search match_one_quoted rawLine) as [[kw a]|] eqn:E2.
  { intros [= <-]. cbn. split; [|lia].
    apply search_sound in E2 as [t Ht]. unfold match_one_quoted in Ht.
    destruct (match_keyword t) as [[[k w] s1]|] eqn:Hk; [|discriminate].
    apply match_keyword_sound in Hk.
    destruct (match_quoted s1) as [[a' [|? ?]]|]; try discriminate.
    now injection Ht as <- _. }
  destruct (search match_quoted_tail rawLine) as [[[kw a] tail]|] eqn:E3.
  { intros [= <-]. cbn. split; [|lia].
    apply search_sound in E3 as [t Ht]. unfold match_quoted_tail in Ht.
    destruct (match_keyword t) as [[[k w] s1]|] eqn:Hk; [|discriminate].
    apply match_keyword_sound in Hk.
    destruct (match_quoted s1) as [[a' s2]|]; [|discriminate].
    destruct (forallb_str _ _); [|discriminate].
    now injection Ht as <- _ _. }
  destruct (search match_unquoted rawLine) as [[kw rest]|] eqn:E4; [|discriminate].
  intros [= <-]. cbn. split; [|lia].
  apply search_sound in E4 as [t Ht]. unfold match_unquoted in Ht.
  destruct (match_keyword t) as [[[k w] s1]|] eqn:Hk; [|discriminate].
  apply match_keyword_sound in Hk.
  destruct s1 as [|x s1].
  - destruct (last_char w) as [c0|]; [|discriminate].
    destruct (_ && _); [|discriminate]. now injection Ht as <- _.
  - destruct (forallb_str _ _); [|discriminate]. now injection Ht as <- _.
Qed.

Lemma parseLine_effect (st : State) (rawLine : string) :
  LineEffect st (parseLine st rawLine).
Proof.
  unfold parseLine.
  destruct (_ || _); [constructor|].
  destruct (startsWith "var " _).
  { destruct (search match_var _) as [[n v]|] eqn:E; [|constructor].
    apply search_sound in E as [t Ht]. apply match_var_sound in Ht as [Hn Hv].
    destruct (currentTask st) as [i|] eqn:Ecur.
    - apply line_command; [assumption | | cbv; lia].
      split; [discriminate | reflexivity].
    - now apply line_variable. }
  destruct (startsWith "task " _).
  { destruct (search match_task _) as [n|] eqn:E; [|constructor].
    apply search_sound in E as [t Ht]. apply match_task_sound in Ht.
    now apply line_task. }
  destruct (currentTask st) as [i|] eqn:Ecur; [|constructor].
  destruct (match_indented rawLine); [|constructor].
  destruct (parseCommand rawLine) as [c|] eqn:E; [|constructor].
  apply parseCommand_sound in E as [Hk Ha]. now apply line_command.
Qed.

(** A property of the loop state that every effect keeps holds of every
    state the loop reaches. *)
Lemma loop_invariant (P : State -> Prop) (lines : list string) (st : State) :
  (forall a b, P a -> LineEffect a b -> P b) ->
  P st -> P (fold_left parseLine lines st).
Proof.
  intros Hkeep. revert st. induction lines as [|l lines IH]; intros st Hst; [exact Hst|].
  cbn [fold_left]. apply IH. eapply Hkeep; [exact Hst | apply parseLine_effect].
Qed.

Lemma Forall_update {A} (P : A -> Prop) (f : A -> A) (l : list A) (i : nat) :
  Forall P l -> (forall x, P x -> P (f x)) -> Forall P (update i f l).
Proof.
  intros Hl Hf. revert i. induction Hl as [|x l Hx Hl IH]; intros [|i]; cbn [update];
    constructor; auto.
Qed.

Lemma update_app_last {A} (f : A -> A) (l : list A) (x : A) :
  update (List.length l) f (l ++ [x]) = (l ++ [f x])%list.
Proof. induction l as [|y l IH]; cbn; [reflexivity | now rewrite IH]. Qed.

End ParserInvariants.

(** * Beyond the specification: the forms of a command line *)

Module CommandLines.
Import JSString Notions MoreNotions StringFacts EnvFacts ParserFacts Parser.
Import ParserMore ParserInvariants.

Lemma lit_sound (p s r : string) : lit p s = Some r -> s = p ++ r.
Proof.
  unfold lit. destruct (String.prefix p s) eqn:E; [|discriminate]. intros [= <-].
  revert s E. induction p as [|a p IH]; intros s E; [now destruct s|].
  destruct s as [|b s]; [discriminate|].
  rewrite prefix_cons in E. destruct (Ascii.eqb a b) eqn:Eab; [|discriminate].
  apply Ascii.eqb_eq in Eab. subst b. cbn [append String.length drop].
  f_equal. now apply IH.
Qed.

Lemma countDq_app (a b : string) : countDq (a ++ b) = countDq a + countDq b.
Proof. induction a as [|c a IH]; cbn [append countDq]; [reflexivity | rewrite IH; lia]. Qed.

Lemma lacks_countDq (s : string) : lacks dqc s = true -> countDq s = 0.
Proof.
  induction s as [|c s IH]; intros Hs; [reflexivity|].
  apply lacks_cons in Hs as [Hc Hs]. cbn [countDq].
  apply Ascii.eqb_neq in Hc. now rewrite Hc, IH.
Qed.

Lemma space_not_dq (c : ascii) : is_space c = true -> negb (Ascii.eqb c dqc) = true.
Proof. destruct c as [[] [] [] [] [] [] [] []]; vm_compute; congruence. Qed.

Lemma word_not_dq (c : ascii) : is_word c = true -> negb (Ascii.eqb c dqc) = true.
Proof. destruct c as [[] [] [] [] [] [] [] []]; vm_compute; congruence. Qed.

Lemma forallb_str_impl (p q : ascii -> bool) (s : string) :
  (forall c, p c = true -> q c = true) ->
  forallb_str p s = true -> forallb_str q s = true.
Proof.
  intros Hpq. induction s as [|c s IH]; [reflexivity|].
  cbn [forallb_str]. rewrite !andb_true_iff. intros [Hc Hs]. auto.
Qed.

Lemma spaces_lack_dq (w : string) : spaces w = true -> lacks dqc w = true.
Proof. apply forallb_str_impl, space_not_dq. Qed.

Lemma word_lacks_dq (n : string) : forallb_str is_word n = true -> lacks dqc n = true.
Proof. apply forallb_str_impl, word_not_dq. Qed.

Lemma match_quoted_sound (s q r : string) :
  match_quoted s = Some (q, r) -> s = dq ++ q ++ dq ++ r.
Proof.
  unfold match_quoted.
  destruct (lit dq s) as [s1|] eqn:E1; [|discriminate].
  destruct (span not_dq s1) as [q' s2] eqn:E2.
  destruct (lit dq s2) as [s3|] eqn:E3; [|discriminate].
  intros [= <- <-].
  apply lit_sound in E1, E3. apply span_sound in E2 as [_ E2]. now subst.
Qed.

Lemma match_keyword_parts (t kw w rest : string) :
  match_keyword t = Some (kw, w, rest) -> exists w0, t = w0 ++ kw ++ w ++ rest.
Proof.
  unfold match_keyword.
  destruct (many1 is_space t) as [[ws s1]|] eqn:E1; [|discriminate].
  destruct (many1 is_word s1) as [[k s2]|] eqn:E2; [|discriminate].
  destruct (many1 is_space s2) as [[w' s3]|] eqn:E3; [|discriminate].
  intros [= <- <- <-].
  apply many1_sound in E1 as (_ & _ & ->), E2 as (_ & _ & ->), E3 as (_ & _ & ->).
  now exists ws.
Qed.

Lemma countDq_dq : countDq dq = 1.
Proof. reflexivity. Qed.

(** A match of a quoted argument needs two double quotes. *)
Lemma match_quoted_count (s q r : string) :
  match_quoted s = Some (q, r) -> countDq s = 2 + countDq q + countDq r.
Proof.
  intros Hm. apply match_quoted_sound in Hm as ->.
  rewrite !countDq_app, countDq_dq. lia.
Qed.

Lemma match_two_quoted_count (t : string) r :
  match_two_quoted t = Some r -> 4 <= countDq t.
Proof.
  unfold match_two_quoted.
  destruct (match_keyword t) as [[[kw w] s1]|] eqn:Ek; [|discriminate].
  destruct (match_quoted s1) as [[a s2]|] eqn:Ea; [|discriminate].
  destruct (many1 is_space s2) as [[w' s3]|] eqn:Ew; [|discriminate].
  destruct (match_quoted s3) as [[b [|? ?]]|] eqn:Eb; try discriminate.
  intros _.
  apply match_keyword_parts in Ek as [w0 ->].
  apply match_quoted_count in Ea, Eb.
  apply many1_sound in Ew as (_ & _ & ->).
  rewrite !countDq_app, Ea, countDq_app, Eb. lia.
Qed.

Lemma match_one_quoted_count (t : string) r :
  match_one_quoted t = Some r -> 2 <= countDq t.
Proof.
  unfold match_one_quoted.
  destruct (match_keyword t) as [[[kw w] s1]|] eqn:Ek; [|discriminate].
  destruct (match_quoted s1) as [[a [|? ?]]|] eqn:Ea; try discriminate.
  intros _.
  apply match_keyword_parts in Ek as [w0 ->].
  apply match_quoted_count in Ea.
  rewrite !countDq_app, Ea. lia.
Qed.

Lemma match_quoted_tail_count (t : string) r :
  match_quoted_tail t = Some r -> 2 <= countDq t.
Proof.
  unfold match_quoted_tail.
  destruct (match_keyword t) as [[[kw w] s1]|] eqn:Ek; [|discriminate].
  destruct (match_quoted s1) as [[a s2]|] eqn:Ea; [|discriminate].
  intros _.
  apply match_keyword_parts in Ek as [w0 ->].
  apply match_quoted_count in Ea.
  rewrite !countDq_app, Ea. lia.
Qed.

(** A pattern that needs [n] double quotes matches nowhere in a text
    that has fewer. *)
Lemma search_few_quotes {A} (m : string -> option A) (n : nat) (s : string) :
  (forall t r, m t = Some r -> n <= countDq t) ->
  countDq s < n -> search m s = None.
Proof.
  intros Hm. induction s as [|c s IH]; intros Hs; cbn [search].
  - destruct (m "") eqn:E; [|reflexivity]. apply Hm in E. lia.
  - destruct (m (String c s)) eqn:E; [apply Hm in E; lia|].
    apply IH. cbn [countDq] in Hs. lia.
Qed.

(** A keyword other than [k] followed by white space does not start
    with [k] and a space. *)
Lemma keyword_prefix (k kw x : string) (sp : ascii) (y : string) :
  forallb_str is_word k = true -> is_word sp = false ->
  forallb_str is_word kw = true ->
  (match x with EmptyString => True | String c _ => is_word c = false end) ->
  String.prefix (k ++ String sp y) (kw ++ x) = true -> kw = k.
Proof.
  revert kw. induction k as [|a k IH]; intros kw Hk Hsp Hkw Hx Hp.
  - destruct kw as [|c kw]; [reflexivity|].
    cbn [append] in Hp. rewrite prefix_cons in Hp.
    destruct (Ascii.eqb sp c) eqn:E; [|discriminate].
    apply Ascii.eqb_eq in E. subst c.
    cbn [forallb_str] in Hkw. apply andb_true_iff in Hkw as [Hc _]. congruence.
  - cbn [forallb_str] in Hk. apply andb_true_iff in Hk as [Ha Hk].
    destruct kw as [|c kw].
    + cbn [append] in Hp. destruct x as [|c x]; [discriminate|].
      rewrite prefix_cons in Hp.
      destruct (Ascii.eqb a c) eqn:E; [|discriminate].
      apply Ascii.eqb_eq in E. subst c. congruence.
    + cbn [append] in Hp. rewrite prefix_cons in Hp.
      destruct (Ascii.eqb a c) eqn:E; [|discriminate].
      apply Ascii.eqb_eq in E. subst c.
      cbn [forallb_str] in Hkw. apply andb_true_iff in Hkw as [_ Hkw].
      f_equal. now apply IH.
Qed.

Lemma head_space_not_word (w rest : string) :
  w <> "" -> spaces w = true ->
  match w ++ rest with EmptyString => True | String c _ => is_word c = false end.
Proof.
  destruct w as [|c w]; [congruence|]. intros _ Hw.
  cbn [spaces forallb_str] in Hw. apply andb_true_iff in Hw as [Hc _].
  cbn [append]. now apply space_not_word.
Qed.

Lemma head_solid (rest : string) :
  startsSolid rest ->
  match rest with EmptyString => True | String c _ => is_space c = false end.
Proof. destruct rest; [intros [] | auto]. Qed.

(** The head of a command line: white space, the keyword, white space,
    and a rest that starts with no white space. *)
Lemma match_keyword_line (w0 kw w1 rest : string) :
  w0 <> "" -> spaces w0 = true -> wordName kw ->
  w1 <> "" -> spaces w1 = true -> startsSolid rest ->
  match_keyword (w0 ++ kw ++ w1 ++ rest) = Some (kw, w1, rest).
Proof.
  intros Hn0 H0 [Hkn Hk] Hn1 H1 Hr. unfold match_keyword, many1.
  rewrite span_spaces; [| assumption | now apply head_not_space_word].
  destruct w0 as [|c0 w0']; [congruence|].
  rewrite span_app; [| assumption | now apply head_space_not_word].
  destruct kw as [|k0 kw']; [congruence|].
  rewrite span_spaces; [| assumption | now apply head_solid].
  destruct w1 as [|c1 w1']; [congruence|]. reflexivity.
Qed.

Lemma match_indented_line (w0 kw rest : string) :
  w0 <> "" -> spaces w0 = true -> wordName kw ->
  match_indented (w0 ++ kw ++ rest) = true.
Proof.
  intros Hn0 H0 [Hkn Hk]. unfold match_indented, many1.
  rewrite span_spaces; [| assumption | now apply head_not_space_word].
  destruct w0 as [|c0 w0']; [congruence|].
  destruct kw as [|k0 kw']; [congruence|].
  cbn [forallb_str] in Hk. apply andb_true_iff in Hk as [Hk0 _].
  cbn [append span]. rewrite Hk0. now destruct (span is_word (kw' ++ rest)).
Qed.

(** An indented line whose keyword is neither var nor task reaches the
    cascade of command patterns when a task is open. *)
Lemma parseLine_cascade (st : State) (i : nat) (w0 kw w1 rest : string) :
  currentTask st = Some i ->
  w0 <> "" -> spaces w0 = true -> wordName kw -> kw <> "var" -> kw <> "task" ->
  w1 <> "" -> spaces w1 = true -> startsSolid rest ->
  parseLine st (w0 ++ kw ++ w1 ++ rest) =
  match parseCommand (w0 ++ kw ++ w1 ++ rest) with
  | Some c => pushCommand i c st
  | None => st
  end.
Proof.
  intros Hcur Hn0 H0 Hkw Hvar Htask Hn1 H1 Hr. unfold parseLine.
  destruct rest as [|c b]; [destruct Hr|]. cbn [startsSolid] in Hr.
  assert (Hsolid : startsSolid ((kw ++ w1) ++ String c b)).
  { destruct Hkw as [Hkn Hk]. destruct kw as [|k0 kw']; [congruence|].
    cbn [forallb_str] in Hk. apply andb_true_iff in Hk as [Hk0 _].
    cbn [append startsSolid]. now apply word_not_space. }
  destruct (trim_keeps w0 (kw ++ w1) c b H0 Hsolid Hr) as [b' Ht].
  rewrite app_assoc in Ht. rewrite Ht. clear Ht.
  rewrite app_assoc.
  assert (Hx : match w1 ++ String c b' with
               | EmptyString => True | String x _ => is_word x = false end)
    by now apply head_space_not_word.
  destruct Hkw as [Hkn Hk].
  assert (Hv : startsWith "var " (kw ++ w1 ++ String c b') = false).
  { unfold startsWith. destruct (String.prefix _ _) eqn:E; [|reflexivity].
    apply (keyword_prefix "var" kw _ " " "") in E;
      [congruence | reflexivity | reflexivity | assumption | assumption]. }
  assert (Ht : startsWith "task " (kw ++ w1 ++ String c b') = false).
  { unfold startsWith. destruct (String.prefix _ _) eqn:E; [|reflexivity].
    apply (keyword_prefix "task" kw _ " " "") in E;
      [congruence | reflexivity | reflexivity | assumption | assumption]. }
  rewrite Hv, Ht, Hcur.
  rewrite <- app_assoc, match_indented_line; [| assumption.. | now split].
  rewrite app_assoc.
  destruct kw as [|k0 kw']; [congruence|].
  cbn [forallb_str] in Hk. apply andb_true_iff in Hk as [Hk0 _].
  cbn [append String.eqb]. unfold startsWith.
  rewrite prefix_head_neq; [reflexivity|].
  intros ->. discriminate Hk0.
Qed.

(** The line that holds a keyword and one quoted argument. *)
Lemma parseCommand_one_quoted (w0 kw w1 arg : string) :
  w0 <> "" -> spaces w0 = true -> wordName kw ->
  w1 <> "" -> spaces w1 = true -> lacks dqc arg = true ->
  parseCommand (w0 ++ kw ++ w1 ++ dq ++ arg ++ dq) = Some (mkCommand kw [arg]).
Proof.
  intros Hn0 H0 Hkw Hn1 H1 Harg. unfold parseCommand.
  rewrite (search_few_quotes match_two_quoted 4).
  - rewrite (search_here match_one_quoted _ (kw, arg)); [reflexivity|].
    unfold match_one_quoted.
    rewrite match_keyword_line; [| assumption.. | reflexivity].
    unfold match_quoted, lit. rewrite prefix_refl_app, drop_app.
    rewrite span_app; [| exact Harg | reflexivity].
    reflexivity.
  - intros t r. apply match_two_quoted_count.
  - destruct Hkw as [_ Hk].
    rewrite !countDq_app, countDq_dq.
    rewrite (lacks_countDq w0), (lacks_countDq kw), (lacks_countDq w1), (lacks_countDq arg);
      auto using spaces_lack_dq, word_lacks_dq. 
Qed.

(** The line that holds a keyword and two quoted arguments. *)
Lemma parseCommand_two_quoted (w0 kw w1 a w2 b : string) :
  w0 <> "" -> spaces w0 = true -> wordName kw ->
  w1 <> "" -> spaces w1 = true -> lacks dqc a = true ->
  w2 <> "" -> spaces w2 = true -> lacks dqc b = true ->
  parseCommand (w0 ++ kw ++ w1 ++ (dq ++ a ++ dq) ++ w2 ++ dq ++ b ++ dq)
  = Some (mkCommand kw [a; b]).
Proof.
  intros Hn0 H0 Hkw Hn1 H1 Ha Hn2 H2 Hb. unfold parseCommand.
  rewrite (search_here match_two_quoted _ (kw, a, b)); [reflexivity|].
  unfold match_two_quoted.
  rewrite match_keyword_line; [| assumption.. | reflexivity].
  rewrite !app_assoc.
  unfold match_quoted at 1, lit. rewrite prefix_refl_app, drop_app.
  rewrite span_app; [| exact Ha | reflexivity].
  rewrite (prefix_refl_app dq), drop_app.
  unfold many1. rewrite span_spaces; [| assumption | reflexivity].
  destruct w2 as [|c2 w2']; [congruence|].
  unfold match_quoted, lit. rewrite prefix_refl_app, drop_app.
  rewrite span_app; [| exact Hb | reflexivity].
  reflexivity.
Qed.

(** The line that holds a keyword and text without double quotes. *)
Lemma parseCommand_unquoted (w0 kw w1 rest : string) :
  w0 <> "" -> spaces w0 = true -> wordName kw ->
  w1 <> "" -> spaces w1 = true ->
  startsSolid rest -> lacks dqc rest = true -> oneLine rest = true ->
  parseCommand (w0 ++ kw ++ w1 ++ rest) = Some (mkCommand kw [rest]).
Proof.
  intros Hn0 H0 Hkw Hn1 H1 Hr Hq Hl. unfold parseCommand.
  assert (Hcount : countDq (w0 ++ kw ++ w1 ++ rest) < 2).
  { destruct Hkw as [_ Hk]. rewrite !countDq_app.
    rewrite (lacks_countDq w0), (lacks_countDq kw), (lacks_countDq w1), (lacks_countDq rest);
      auto using spaces_lack_dq, word_lacks_dq. }
  rewrite (search_few_quotes match_two_quoted 4);
    [| intros t r; apply match_two_quoted_count | lia].
  rewrite (search_few_quotes match_one_quoted 2);
    [| intros t r; apply match_one_quoted_count | lia].
  rewrite (search_few_quotes match_quoted_tail 2);
    [| intros t r; apply match_quoted_tail_count | lia].
  rewrite (search_here match_unquoted _ (kw, rest)); [reflexivity|].
  unfold match_unquoted.
  rewrite match_keyword_line by assumption.
  destruct rest as [|c b]; [destruct Hr|].
  unfold oneLine in Hl. now rewrite Hl.
Qed.

End CommandLines.

(** * Beyond the specification: dictionaries and variable resolution *)

Module ResolveMore.
Import JSString JSObject Common Notions MoreNotions Exec.
Import StringFacts PassFacts ResolveFacts PositionalFacts EnvFacts ObjectFacts.

Section Entries.
Context {V : Type}.

Lemma get_overwrite_other (k k' : string) (v : V) (o : entries V) :
  k' <> k -> get k' (overwrite k v o) = get k' o.
Proof.
  intros Hne. induction o as [|[x v'] o IH]; [reflexivity|].
  cbn [overwrite]. destruct (String.eqb x k) eqn:E; cbn [get].
  - apply String.eqb_eq in E. subst x.
    destruct (String.eqb k k') eqn:E'; [apply String.eqb_eq in E'; congruence | reflexivity].
  - now rewrite IH.
Qed.

Lemma get_insertIndex_other (i : N) (k k' : string) (v : V) (o : entries V) :
  k' <> k -> get k' (insertIndex i k v o) = get k' o.
Proof.
  intros Hne.
  assert (Hk : String.eqb k k' = false) by (apply String.eqb_neq; congruence).
  induction o as [|[x v'] o IH]; cbn [insertIndex get]; [now rewrite Hk|].
  destruct (arrayIndex x) as [j|]; [destruct (j <? i)%N|]; cbn [get]; rewrite ?Hk, ?IH;
    reflexivity.
Qed.

Lemma get_app_other (k k' : string) (v : V) (o : entries V) :
  k' <> k -> get k' (o ++ [(k, v)])%list = get k' o.
Proof.
  intros Hne.
  assert (Hk : String.eqb k k' = false) by (apply String.eqb_neq; congruence).
  induction o as [|[x v'] o IH]; cbn [app get]; [now rewrite Hk|].
  now rewrite IH.
Qed.

(** Storing under one key leaves the other keys as they were. *)
Lemma get_set_other (k k' : string) (v : V) (o : entries V) :
  k' <> k -> get k' (set k v o) = get k' o.
Proof.
  intros Hne. unfold set. destruct (get k o).
  - now apply get_overwrite_other.
  - destruct (arrayIndex k); [now apply get_insertIndex_other | now apply get_app_other].
Qed.

Lemma Forall_keys_weaken (k x : string) (v : V) (o pre : entries V) :
  Forall (fun y => y <> k /\ In y (keys o)) (keys pre) ->
  Forall (fun y => y <> k /\ In y (keys ((x, v) :: o))) (keys pre).
Proof.
  apply Forall_impl. intros y [Hy Hin]. split; [assumption | now right].
Qed.

Lemma overwrite_placed (k : string) (v : V) (o : entries V) :
  get k o <> None -> entryPlaced k v o (overwrite k v o).
Proof.
  induction o as [|[x v'] o IH]; cbn [get overwrite]; [congruence|].
  destruct (String.eqb x k) eqn:E.
  - intros _. apply String.eqb_eq in E. subst x.
    exists [], o. split; [reflexivity | constructor].
  - intros Hg. destruct (IH Hg) as (pre & post & -> & Hpre).
    exists ((x, v') :: pre), post. split; [reflexivity|].
    cbn [keys map fst]. constructor.
    + split; [now apply String.eqb_neq | now left].
    + now apply (Forall_keys_weaken k x v' o pre).
Qed.

Lemma insertIndex_placed (i : N) (k : string) (v : V) (o : entries V) :
  get k o = None -> entryPlaced k v o (insertIndex i k v o).
Proof.
  induction o as [|[x v'] o IH]; cbn [get insertIndex].
  - intros _. exists [], []. split; [reflexivity | constructor].
  - destruct (String.eqb x k) eqn:E; [discriminate|]. intros Hg.
    assert (Hhere : entryPlaced k v ((x, v') :: o) ((k, v) :: (x, v') :: o))
      by (exists [], ((x, v') :: o); split; [reflexivity | constructor]).
    destruct (arrayIndex x) as [j|]; [destruct (j <? i)%N|]; try exact Hhere.
    destruct (IH Hg) as (pre & post & -> & Hpre).
    exists ((x, v') :: pre), post. split; [reflexivity|].
    cbn [keys map fst]. constructor.
    + split; [now apply String.eqb_neq | now left].
    + now apply (Forall_keys_weaken k x v' o pre).
Qed.

Lemma get_none_keys (k : string) (o : entries V) :
  get k o = None -> Forall (fun x => x <> k /\ In x (keys o)) (keys o).
Proof.
  induction o as [|[x v'] o IH]; cbn [get]; [constructor|].
  destruct (String.eqb x k) eqn:E; [discriminate|]. intros Hg.
  cbn [keys map fst]. constructor.
  - split; [now apply String.eqb_neq | now left].
  - apply (Forall_keys_weaken k x v' o o). now apply IH.
Qed.

Lemma set_placed (k : string) (v : V) (o : entries V) : entryPlaced k v o (set k v o).
Proof.
  unfold set. destruct (get k o) eqn:E.
  - apply overwrite_placed. congruence.
  - destruct (arrayIndex k); [now apply insertIndex_placed|].
    exists o, []. split; [reflexivity | now apply get_none_keys].
Qed.

End Entries.

Section WithHost.
Context (H : Host).

(** A text without sigils resolves to itself. *)
Lemma replaceVariables_plain (e : Executor) (taskName s : string) :
  plain s = true -> replaceVariables H e taskName (Some s) = Normal s.
Proof.
  intros [Hd Hq]%plain_split. unfold replaceVariables, replaceNames. f_equal.
  rewrite question_passes_idle by assumption.
  rewrite replaceScriptVariables_lacks, replaceEntries_lacks by assumption.
  now apply replaceEnv_lacks.
Qed.

Lemma legacy_replaceVariables_plain (l : Legacy.Executor) (s : string) :
  lacks dollar s = true -> Legacy.replaceVariables H l s = s.
Proof.
  intros Hd. unfold Legacy.replaceVariables.
  rewrite replaceScriptVariables_lacks by assumption. now apply replaceEnv_lacks.
Qed.

(** A template that is one variable reference stands for itself. *)
Lemma GetSubstitution_reference (m b a name : string) :
  wordName name -> lacks dollar name = true ->
  GetSubstitution m b a (String dollar name) = String dollar name.
Proof.
  intros [Hne Hw] Hd. destruct name as [|c n]; [congruence|].
  cbn [forallb_str] in Hw. apply andb_true_iff in Hw as [Hc _].
  apply lacks_cons in Hd as [_ Hn].
  pose proof (GetSubstitution_plain m b a n Hn) as Htail.
  destruct c as [[] [] [] [] [] [] [] []];
    try (exfalso; vm_compute in Hc; congruence);
    cbn; now rewrite Htail.
Qed.

End WithHost.

End ResolveMore.

(** * Beyond the specification: what a run leaves behind *)

Module ExecMore.
Import JSString JSObject Common Notions MoreNotions Exec.
Import StringFacts LoopFacts ExecFacts.

Section WithHost.
Context (H : Host).

(** *** The world and the output *)

Lemma tracedBy_nil (more : list Output) (m m' : Machine H) :
  dispatched H m' = dispatched H m -> output H m' = (output H m ++ more)%list ->
  world H m' = world H m -> tracedBy [] more m m'.
Proof.
  intros Hd Ho Hw. split; [now rewrite Hd, List.app_nil_r|]. split; assumption || auto.
Qed.

Lemma tracedBy_refl (m : Machine H) : tracedBy [] [] m m.
Proof. apply tracedBy_nil; auto. now rewrite List.app_nil_r. Qed.

Lemma tracedBy_trans d1 d2 o1 o2 (m1 m2 m3 : Machine H) :
  tracedBy d1 o1 m1 m2 -> tracedBy d2 o2 m2 m3 -> tracedBy (d1 ++ d2) (o1 ++ o2) m1 m3.
Proof.
  intros (Hd1 & Ho1 & Hw1) (Hd2 & Ho2 & Hw2). split; [|split].
  - now rewrite Hd2, Hd1, List.app_assoc.
  - now rewrite Ho2, Ho1, List.app_assoc.
  - intros Hall. apply Forall_app in Hall as [Ha Hb]. now rewrite Hw2, Hw1.
Qed.

Lemma tracedBy_record (taskName : string) (c : Command) (m : Machine H) :
  tracedBy [(taskName, c)] [] m (record_call H taskName c m).
Proof.
  split; [reflexivity|]. split; [cbn; now rewrite List.app_nil_r | reflexivity].
Qed.

Lemma tracedBy_write (o : Output) (m : Machine H) : tracedBy [] [o] m (write H o m).
Proof. now apply tracedBy_nil. Qed.

(** A step that may touch the world, in a command that is run or del. *)
Lemma tracedBy_host (taskName : string) (c : Command) (more : list Output)
    (m1 m' : Machine H) (m : Machine H) :
  m1 = record_call H taskName c m ->
  (cmd_type c = "run" \/ cmd_type c = "del") ->
  dispatched H m' = dispatched H m1 -> output H m' = (output H m1 ++ more)%list ->
  tracedBy [(taskName, c)] more m m'.
Proof.
  intros -> Hc Hd Ho. split; [exact Hd|]. split; [exact Ho|].
  intros Hall. inversion Hall as [|? ? [Hr Hdl] _]; subst. cbn [snd] in *.
  destruct Hc; contradiction.
Qed.

Lemma runCommand_output (command : string) (m : Machine H) :
  exists more, output H (snd (runCommand H command m)) = (output H m ++ more)%list.
Proof.
  unfold runCommand. destruct (exec H _ _ _) as [w out].
  destruct (String.eqb (exec_stdout out) ""), (String.eqb (exec_stderr out) ""),
    (exec_error out); cbn [snd output write with_world];
    rewrite <- ?List.app_assoc; eexists; reflexivity.
Qed.

Lemma deleteFile_output (filePath : string) (m : Machine H) :
  exists more, output H (snd (deleteFile H filePath m)) = (output H m ++ more)%list.
Proof.
  unfold deleteFile. destruct (existsSync H _ _).
  - destruct (unlinkSync H _ _) as [w [msg|]]; cbn [snd output write with_world].
    + exists []. now rewrite List.app_nil_r.
    + eexists; reflexivity.
  - eexists; reflexivity.
Qed.

Lemma executeCommandWith_traced (run : TaskRunner H) (taskName : string)
    (c : Command) (m m' : Machine H) (r : ExecutionResult) :
  tracedRunner run ->
  executeCommandWith H run taskName c m = Some (r, m') ->
  exists delta more, tracedBy delta more m m'.
Proof.
  intros Hrun. unfold executeCommandWith.
  set (m1 := record_call H taskName c m).
  assert (Hstay : exists delta more, tracedBy delta more m m1)
    by (exists [(taskName, c)], []; apply tracedBy_record).
  destruct (String.eqb (cmd_type c) "run") eqn:Erun.
  { apply String.eqb_eq in Erun.
    destruct (replaceVariables _ _ _ _) as [s|msg]; [intros [= Heq] | intros [= <- <-]];
      [|exact Hstay].
    destruct (runCommand_keeps H s m1) as [_ Hd].
    destruct (runCommand_output s m1) as [more Ho]. rewrite Heq in Hd, Ho.
    exists [(taskName, c)], more. eapply tracedBy_host; eauto. }
  destruct (String.eqb (cmd_type c) "del") eqn:Edel.
  { apply String.eqb_eq in Edel.
    destruct (replaceVariables _ _ _ _) as [s|msg]; [intros [= Heq] | intros [= <- <-]];
      [|exact Hstay].
    destruct (deleteFile_keeps H s m1) as [_ Hd].
    destruct (deleteFile_output s m1) as [more Ho]. rewrite Heq in Hd, Ho.
    exists [(taskName, c)], more. eapply tracedBy_host; eauto. }
  destruct (String.eqb (cmd_type c) "ech") eqn:Eech.
  { destruct (replaceVariables _ _ _ _) as [s|msg]; intros [= <- <-]; [|exact Hstay].
    exists ([(taskName, c)] ++ [])%list, ([] ++ [console_log s])%list.
    eapply tracedBy_trans; [apply tracedBy_record | apply tracedBy_write]. }
  destruct (String.eqb (cmd_type c) "tsk") eqn:Etsk.
  { destruct (replaceVariables _ _ _ _) as [s|msg]; [|intros [= <- <-]; exact Hstay].
    unfold runTask.
    destruct (run s _) as [[r1 m2]|] eqn:Hcall; [|discriminate].
    apply Hrun in Hcall as (d & o & Hcall).
    assert (Hm2 : exists delta more, tracedBy delta more m m2).
    { eexists. eexists.
      eapply tracedBy_trans; [apply tracedBy_record|].
      eapply tracedBy_trans; [apply tracedBy_write | exact Hcall]. }
    destruct (success r1); intros [= <- <-]; exact Hm2. }
  destruct (String.eqb (cmd_type c) "var") eqn:Evar.
  { destruct (replaceVariables _ _ _ _) as [s|msg]; intros [= <- <-]; [|exact Hstay].
    exists [(taskName, c)], []. split; [reflexivity|].
    split; [cbn; now rewrite List.app_nil_r | reflexivity]. }
  intros [= <- <-]. exact Hstay.
Qed.

Lemma forCommands_traced step (taskName : string) (cmds : list Command)
    (m m' : Machine H) (r : ExecutionResult) :
  (forall c m r m', step c m = Some (r, m') -> exists d o, tracedBy d o m m') ->
  forCommands step taskName cmds m = Some (r, m') -> exists d o, tracedBy d o m m'.
Proof.
  intros Hstep. revert m. induction cmds as [|c cs IH]; intros m; cbn [forCommands].
  - intros [= <- <-]. exists [], []. apply tracedBy_refl.
  - destruct (step c m) as [[r1 m1]|] eqn:Hc; [|discriminate].
    apply Hstep in Hc as (d1 & o1 & Hc).
    destruct (success r1).
    + intros Hrest. apply IH in Hrest as (d2 & o2 & Hrest).
      eexists. eexists. eapply tracedBy_trans; eassumption.
    + intros [= <- <-]. now exists d1, o1.
Qed.

Lemma executeTask_traced (fuel : nat) : tracedRunner (executeTask H fuel).
Proof.
  induction fuel as [fuel IH] using lt_wf_ind.
  intros n m r m'. rewrite executeTask_eq.
  destruct (findTask n _) as [task|].
  - apply forCommands_traced. intros c ma ra mb Hc.
    apply executeCommandWith_traced in Hc; [exact Hc|].
    destruct fuel as [|fuel]; [intros ? ? ? ? Hn; discriminate Hn | apply IH; lia].
  - intros [= <- <-]. exists [], []. apply tracedBy_refl.
Qed.

(** *** Messages *)

Lemma forCommands_speaks {M} (step : Command -> M -> option (ExecutionResult * M))
    (taskName : string) (cmds : list Command) (m m' : M) (r : ExecutionResult) :
  (forall c m r m', step c m = Some (r, m') -> success r = false -> message r <> None) ->
  forCommands step taskName cmds m = Some (r, m') -> message r <> None.
Proof.
  intros Hstep Hrun.
  apply forCommands_inv in Hrun as [[-> _]|(pre & c & post & m1 & _ & _ & Hc & Hf)].
  - discriminate.
  - eapply Hstep; eassumption.
Qed.

Lemma runCommand_speaks (command : string) (m : Machine H) :
  message (fst (runCommand H command m)) <> None.
Proof.
  unfold runCommand. destruct (exec H _ _ _) as [w out].
  destruct (exec_error out); discriminate.
Qed.

Lemma deleteFile_speaks (filePath : string) (m : Machine H) :
  success (fst (deleteFile H filePath m)) = false ->
  message (fst (deleteFile H filePath m)) <> None.
Proof.
  unfold deleteFile. destruct (existsSync H _ _); [|discriminate].
  destruct (unlinkSync H _ _) as [w [msg|]]; discriminate.
Qed.

(** A failing command says why. *)
Lemma executeCommandWith_speaks (run : TaskRunner H) (taskName : string)
    (c : Command) (m m' : Machine H) (r : ExecutionResult) :
  speaks run ->
  executeCommandWith H run taskName c m = Some (r, m') ->
  success r = false -> message r <> None.
Proof.
  intros Hrun. unfold executeCommandWith.
  set (m1 := record_call H taskName c m).
  destruct (String.eqb (cmd_type c) "run").
  { destruct (replaceVariables _ _ _ _) as [s|msg]; [intros [= Heq] | intros [= <- <-]];
      [|discriminate].
    intros _. pose proof (runCommand_speaks s m1) as Hs. now rewrite Heq in Hs. }
  destruct (String.eqb (cmd_type c) "del").
  { destruct (replaceVariables _ _ _ _) as [s|msg]; [intros [= Heq] | intros [= <- <-]];
      [|discriminate].
    pose proof (deleteFile_speaks s m1) as Hs. now rewrite Heq in Hs. }
  destruct (String.eqb (cmd_type c) "ech").
  { destruct (replaceVariables _ _ _ _) as [s|msg]; intros [= <- <-]; discriminate. }
  destruct (String.eqb (cmd_type c) "tsk").
  { destruct (replaceVariables _ _ _ _) as [s|msg]; [|intros [= <- <-]; discriminate].
    unfold runTask.
    destruct (run s _) as [[r1 m2]|] eqn:Hcall; [|discriminate].
    apply Hrun in Hcall.
    destruct (success r1); intros [= <- <-]; [discriminate | now intros _]. }
  destruct (String.eqb (cmd_type c) "var").
  { destruct (replaceVariables _ _ _ _) as [s|msg]; intros [= <- <-]; discriminate. }
  intros [= <- <-]. discriminate.
Qed.

Lemma executeTask_speaks (fuel : nat) : speaks (executeTask H fuel).
Proof.
  induction fuel as [fuel IH] using lt_wf_ind.
  intros n m r m'. rewrite executeTask_eq.
  destruct (findTask n _) as [task|]; [|intros [= <- <-]; discriminate].
  apply forCommands_speaks. intros c ma ra mb.
  apply executeCommandWith_speaks.
  destruct fuel as [|fuel]; [intros ? ? ? ? Hn; discriminate Hn | apply IH; lia].
Qed.

Lemma legacy_executeCommandWith_speaks (run : Legacy.TaskRunner H)
    (c : Command) (m m' : Legacy.Machine H) (r : ExecutionResult) :
  speaks run ->
  Legacy.executeCommandWith H run c m = Some (r, m') ->
  success r = false -> message r <> None.
Proof.
  intros Hrun. unfold Legacy.executeCommandWith.
  set (m1 := Legacy.record_call H c m).
  destruct (String.eqb (cmd_type c) "run").
  { destruct (nth_error _ 0) as [s|]; [intros [= Heq] | intros [= <- <-]; discriminate].
    intros _. revert Heq. unfold Legacy.runCommand.
    destruct (exec H _ _ _) as [w out].
    destruct (exec_error out); intros [= <- _]; discriminate. }
  destruct (String.eqb (cmd_type c) "del").
  { destruct (nth_error _ 0) as [s|]; [intros [= Heq] | intros [= <- <-]; discriminate].
    revert Heq. unfold Legacy.deleteFile.
    destruct (existsSync H _ _); [|intros [= <- _]; discriminate].
    destruct (unlinkSync H _ _) as [w [msg|]]; intros [= <- _]; discriminate. }
  destruct (String.eqb (cmd_type c) "ech").
  { intros [= <- <-]. discriminate. }
  destruct (String.eqb (cmd_type c) "tsk").
  { unfold Legacy.runTask. destruct (nth_error _ 0) as [s|].
    - destruct (run s _) as [[r1 m2]|] eqn:Hcall; [|discriminate].
      apply Hrun in Hcall.
      destruct (success r1); intros [= <- <-]; [discriminate | now intros _].
    - intros [= <- <-]. discriminate. }
  intros [= <- <-]. discriminate.
Qed.

Lemma legacy_executeTask_speaks (fuel : nat) : speaks (Legacy.executeTask H fuel).
Proof.
  induction fuel as [fuel IH] using lt_wf_ind.
  intros n m r m'. rewrite LegacyFacts.legacy_executeTask_eq.
  destruct (findTask n _) as [task|]; [|intros [= <- <-]; discriminate].
  apply forCommands_speaks. intros c ma ra mb.
  apply legacy_executeCommandWith_speaks.
  destruct fuel as [|fuel]; [intros ? ? ? ? Hn; discriminate Hn | apply IH; lia].
Qed.

End WithHost.

End ExecMore.

(** * Beyond the specification: the two variants of the executor *)

Module VariantFacts.
Import JSString JSObject Common Notions MoreNotions.
Import StringFacts LoopFacts ExecFacts.

Section WithHost.
Context (H : Host) (script : SSALScript).

Lemma findTask_In (n : string) (s : SSALScript) (t : Task) :
  findTask n s = Some t -> In t (tasks s) /\ task_name t = n.
Proof.
  unfold findTask. intros Hf. apply find_some in Hf as [Hin Hn].
  split; [exact Hin | now apply String.eqb_eq].
Qed.











End WithHost.

End VariantFacts.

(** * Beyond the specification: the shape of a parsed script *)

Module ParserShape.
Import JSString Notions MoreNotions StringFacts EnvFacts ParserFacts Parser.
Import ParserMore ParserInvariants CommandLines.

(** *** Well-formedness *)

Lemma wellFormed_effect (a b : State) :
  wellFormed (script a) -> LineEffect a b -> wellFormed (script b).
Proof.
  intros [Hv Ht] Heff. destruct Heff as [|n v Hcur Hn Hval|i c Hcur Hk Hargs|n Hn].
  - now split.
  - split; [|exact Ht]. cbn. apply Forall_app. split; [exact Hv|].
    constructor; [now split | constructor].
  - split; [exact Hv|]. cbn. apply Forall_update; [exact Ht|].
    intros t [Hname Hcmds]. split; [exact Hname|]. cbn.
    apply Forall_app. split; [exact Hcmds|]. constructor; [now split | constructor].
  - split; [exact Hv|]. cbn. apply Forall_app. split; [exact Ht|].
    constructor; [|constructor]. split; [exact Hn | constructor].
Qed.

Lemma word_not_syntax (c : ascii) : is_word c = true -> negb (is_syntax c) = true.
Proof.
  destruct c as [[] [] [] [] [] [] [] []]; intros Hc;
    try reflexivity; vm_compute in Hc; discriminate.
Qed.

Lemma wordName_literal (n : string) : wordName n -> literalName n = true.
Proof. intros [_ Hw]. exact (forallb_str_impl _ _ n word_not_syntax Hw). Qed.

Lemma parse_wellFormed (content : string) : wellFormed (parseSSALContent content).
Proof.
  unfold parseSSALContent.
  apply (loop_invariant (fun st => wellFormed (script st))).
  - exact wellFormed_effect.
  - split; constructor.
Qed.

(** *** Growth *)

Lemma grownFrom_refl (st : State) : grownFrom st st.
Proof.
  split; [exists []; now rewrite List.app_nil_r|].
  intros j [name cmds] Hj. exists []. split; [|reflexivity].
  cbn. now rewrite List.app_nil_r.
Qed.

Lemma grownFrom_trans (a b c : State) :
  grownFrom a b -> grownFrom b c -> grownFrom a c.
Proof.
  intros [[vs1 Hv1] Ht1] [[vs2 Hv2] Ht2]. split.
  - exists (vs1 ++ vs2)%list. now rewrite Hv2, Hv1, List.app_assoc.
  - intros j t Hj. destruct (Ht1 j t Hj) as (cs1 & Hb & Hfrozen1).
    destruct (Ht2 j _ Hb) as (cs2 & Hc & Hfrozen2). cbn in Hc.
    exists (cs1 ++ cs2)%list. split; [now rewrite List.app_assoc|].
    intros Hlt. rewrite (Hfrozen1 Hlt). cbn. apply Hfrozen2.
    assert (Hjb : j < List.length (tasks (script b)))
      by (apply nth_error_Some; congruence).
    destruct (Nat.eq_dec (S j) (List.length (tasks (script b)))) as [Heq|]; [|lia].
    exfalso.
    assert (Hlast : nth_error (tasks (script a)) (S j) <> None)
      by (apply nth_error_Some; lia).
    destruct (nth_error (tasks (script a)) (S j)) as [t'|] eqn:E; [|contradiction].
    destruct (Ht1 (S j) t' E) as (cs & Hb' & _).
    assert (S j < List.length (tasks (script b)))
      by (apply nth_error_Some; congruence).
    lia.
Qed.

Lemma grownFrom_effect (a b : State) :
  openIsLast a -> LineEffect a b -> grownFrom a b /\ openIsLast b.
Proof.
  intros Hopen Heff. destruct Heff as [|n v Hcur Hn Hval|i c Hcur Hk Hargs|n Hn].
  - split; [apply grownFrom_refl | exact Hopen].
  - split; [|exact Hopen]. split; [now exists [mkVariable n v]|].
    intros j [name cmds] Hj. exists []. cbn. rewrite List.app_nil_r. now split.
  - unfold openIsLast in Hopen. rewrite Hcur in Hopen. split.
    + split; [exists []; cbn; now rewrite List.app_nil_r|].
      intros j t Hj. cbn [pushCommand script tasks].
      destruct (Nat.eq_dec j i) as [->|Hne].
      * exists [c]. split; [|lia].
        exact (update_nth (fun t => mkTask (task_name t) (task_commands t ++ [c])%list)
                 _ _ _ Hj).
      * exists []. rewrite update_other by assumption. rewrite Hj.
        destruct t as [name cmds]. cbn. rewrite List.app_nil_r. now split.
    + unfold openIsLast. cbn. rewrite Hcur. now rewrite length_update.
  - split.
    + split; [exists []; cbn; now rewrite List.app_nil_r|].
      intros j [name cmds] Hj. exists []. cbn. rewrite List.app_nil_r. split; [|reflexivity].
      rewrite nth_error_app1; [exact Hj|]. apply nth_error_Some. congruence.
    + unfold openIsLast. cbn. rewrite List.length_app. cbn. lia.
Qed.

Lemma parse_grows (lines : list string) (st : State) :
  openIsLast st ->
  grownFrom st (fold_left parseLine lines st) /\ openIsLast (fold_left parseLine lines st).
Proof.
  revert st. induction lines as [|l lines IH]; intros st Hopen; cbn [fold_left].
  - split; [apply grownFrom_refl | exact Hopen].
  - destruct (grownFrom_effect st (parseLine st l) Hopen (parseLine_effect st l))
      as [Hg Hopen'].
    destruct (IH _ Hopen') as [Hg' Hlast]. split; [|exact Hlast].
    eapply grownFrom_trans; eassumption.
Qed.

(** *** Lines that leave no trace *)

Lemma prefix_app (p a b : string) :
  String.prefix p a = true -> String.prefix p (a ++ b) = true.
Proof.
  revert a. induction p as [|x p IH]; intros a; [intros _; apply prefix_nil|].
  destruct a as [|c a]; [discriminate|]. cbn [append]. rewrite !prefix_cons.
  destruct (Ascii.eqb x c); [apply IH | discriminate].
Qed.

Lemma trimEnd_split (s : string) :
  exists b, s = trimEnd s ++ b /\ spaces b = true.
Proof.
  induction s as [|c s (b & Hs & Hb)]; [now exists ""|].
  cbn [trimEnd]. destruct (trimEnd s) as [|x r] eqn:E.
  - destruct (is_space c) eqn:Hc.
    + exists (String c s). split; [reflexivity|].
      cbn in Hs. subst b. unfold spaces in *. cbn [forallb_str]. now rewrite Hc.
    + exists b. cbn [append]. split; [now rewrite Hs at 1 | exact Hb].
  - exists b. cbn [append]. split; [now rewrite Hs at 1 | exact Hb].
Qed.

Lemma trim_split (s : string) :
  exists a b, s = a ++ trim s ++ b /\ spaces a = true /\ spaces b = true.
Proof.
  unfold trim, trimStart. destruct (span is_space s) as [a rest] eqn:E.
  apply span_sound in E as [Ha ->]. cbn [snd].
  destruct (trimEnd_split rest) as (b & Hr & Hb).
  exists a, b. split; [now rewrite <- Hr | now split].
Qed.

Lemma countDq_trim (s : string) : countDq (trim s) <= countDq s.
Proof.
  destruct (trim_split s) as (a & b & Hs & _). rewrite Hs at 2.
  rewrite !countDq_app. lia.
Qed.

Lemma match_var_count (t : string) r : match_var t = Some r -> 2 <= countDq t.
Proof.
  unfold match_var.
  destruct (lit "var" t) as [s1|] eqn:E1; [|discriminate]. apply lit_sound in E1.
  destruct (many1 is_space s1) as [[ws s2]|] eqn:E2; [|discriminate].
  apply many1_sound in E2 as (_ & _ & E2).
  destruct (many1 is_word s2) as [[name s3]|] eqn:E3; [|discriminate].
  apply many1_sound in E3 as (_ & _ & E3).
  destruct (span is_space s3) as [w1 x] eqn:E4. apply span_sound in E4 as [_ E4].
  cbn [snd]. destruct (lit "=" x) as [s4|] eqn:E5; [|discriminate]. apply lit_sound in E5.
  destruct (span is_space s4) as [w2 y] eqn:E6. apply span_sound in E6 as [_ E6].
  cbn [snd]. destruct (lit dq y) as [s5|] eqn:E7; [|discriminate]. apply lit_sound in E7.
  destruct (span not_dq s5) as [value s6] eqn:E8. apply span_sound in E8 as [_ E8].
  destruct (lit dq s6) as [[|? ?]|] eqn:E9; try discriminate. apply lit_sound in E9.
  intros _. subst. rewrite !countDq_app, countDq_dq. lia.
Qed.

Lemma many1_solid (c : ascii) (rest : string) :
  is_space c = false -> many1 is_space (String c rest) = None.
Proof. intros Hc. unfold many1. cbn [span]. now rewrite Hc. Qed.

Lemma trim_solid (c : ascii) (rest : string) :
  is_space c = false -> trim (String c rest) = trimEnd (String c rest).
Proof. intros Hc. unfold trim, trimStart. cbn [span]. now rewrite Hc. Qed.

Lemma prefix_trimEnd (p s : string) :
  String.prefix p (trimEnd s) = true -> String.prefix p s = true.
Proof.
  intros Hp. destruct (trimEnd_split s) as (b & Hs & _). rewrite Hs.
  now apply prefix_app.
Qed.

(** *** A quoted argument followed by more text *)

Lemma search_suffix {A} (m : string -> option A) (s : string) (r : A) :
  search m s = Some r -> exists pre t, s = pre ++ t /\ m t = Some r.
Proof.
  induction s as [|c s IH]; cbn [search].
  - destruct (m "") eqn:E; [|discriminate]. intros [= <-]. now exists "", "".
  - destruct (m (String c s)) eqn:E.
    + intros [= <-]. now exists "", (String c s).
    + intros Hs. destruct (IH Hs) as (pre & t & -> & Ht).
      now exists (String c pre), t.
Qed.

Lemma last_char_app (pre t : string) :
  t <> "" -> last_char (pre ++ t) = last_char t.
Proof.
  intros Ht. induction pre as [|c pre IH]; [reflexivity|].
  cbn [append last_char]. rewrite IH.
  destruct (pre ++ t) eqn:E; [|reflexivity].
  destruct pre; [cbn in E; congruence | discriminate].
Qed.

Lemma last_char_lacks x (s : string) : lacks x s = true -> last_char s <> Some x.
Proof.
  induction s as [|c s IH]; [discriminate|].
  intros [Hc Hs]%lacks_cons. cbn [last_char].
  destruct s; [congruence | now apply IH].
Qed.

Lemma last_char_dq (s : string) : last_char (s ++ dq) = Some dqc.
Proof. now rewrite last_char_app. Qed.

Lemma match_one_quoted_last (t : string) r :
  match_one_quoted t = Some r -> last_char t = Some dqc.
Proof.
  unfold match_one_quoted.
  destruct (match_keyword t) as [[[kw w] s1]|] eqn:Hk; [|discriminate].
  apply match_keyword_parts in Hk as [w0 ->].
  destruct (match_quoted s1) as [[a [|? ?]]|] eqn:Hq; try discriminate.
  apply match_quoted_sound in Hq. subst s1. intros _.
  rewrite app_nil_r, <- !app_assoc. apply last_char_dq.
Qed.

Lemma search_one_quoted_none (s : string) :
  last_char s <> Some dqc -> search match_one_quoted s = None.
Proof.
  intros Hs. destruct (search match_one_quoted s) as [r|] eqn:E; [|reflexivity].
  exfalso. apply search_suffix in E as (pre & t & -> & Ht).
  apply match_one_quoted_last in Ht. apply Hs.
  rewrite last_char_app; [exact Ht|]. intros ->. discriminate.
Qed.

Lemma match_quoted_here (a r : string) :
  lacks dqc a = true -> match_quoted (dq ++ a ++ dq ++ r) = Some (a, r).
Proof.
  intros Ha. unfold match_quoted, lit. rewrite prefix_refl_app, drop_app.
  rewrite span_app; [| exact Ha | reflexivity].
  now rewrite (prefix_refl_app dq), drop_app.
Qed.

(** The line that holds a keyword, a quoted argument and more text
    after it: the text, trimmed, is joined to the argument by a space. *)
Lemma parseCommand_quoted_tail (w0 kw w1 a w2 rest : string) :
  w0 <> "" -> spaces w0 = true -> wordName kw ->
  w1 <> "" -> spaces w1 = true -> lacks dqc a = true -> spaces w2 = true ->
  startsSolid rest -> lacks dqc rest = true -> oneLine rest = true ->
  parseCommand (w0 ++ kw ++ w1 ++ (dq ++ a ++ dq) ++ w2 ++ rest)
  = Some (mkCommand kw [a ++ " " ++ trimEnd rest]).
Proof.
  intros Hn0 H0 Hkw Hn1 H1 Ha H2 Hr Hq Hl. unfold parseCommand.
  assert (Hcount : countDq (w0 ++ kw ++ w1 ++ (dq ++ a ++ dq) ++ w2 ++ rest) < 4).
  { destruct Hkw as [_ Hk]. rewrite !countDq_app, countDq_dq.
    rewrite (lacks_countDq w0), (lacks_countDq kw), (lacks_countDq w1),
      (lacks_countDq a), (lacks_countDq w2), (lacks_countDq rest);
      auto using spaces_lack_dq, word_lacks_dq. }
  rewrite (search_few_quotes match_two_quoted 4);
    [| intros t r; apply match_two_quoted_count | exact Hcount].
  destruct rest as [|c b]; [destruct Hr|].
  rewrite search_one_quoted_none.
  2:{ rewrite <- !app_assoc.
      rewrite !(last_char_app _ (String c b)) by discriminate.
      now apply last_char_lacks. }
  rewrite (search_here match_quoted_tail _ (kw, a, String c b)).
  - cbn [String.eqb]. rewrite trim_solid by exact Hr. reflexivity.
  - unfold match_quoted_tail.
    rewrite match_keyword_line; [| assumption.. | reflexivity].
    rewrite !app_assoc. rewrite match_quoted_here by assumption.
    rewrite span_spaces; [| assumption | exact Hr]. cbn [snd].
    unfold oneLine in Hl. now rewrite Hl.
Qed.

(** A quoted argument followed by white space only. *)
Lemma parseCommand_quoted_spaces (w0 kw w1 a w2 : string) :
  w0 <> "" -> spaces w0 = true -> wordName kw ->
  w1 <> "" -> spaces w1 = true -> lacks dqc a = true -> spaces w2 = true ->
  parseCommand (w0 ++ kw ++ w1 ++ (dq ++ a ++ dq) ++ w2) = Some (mkCommand kw [a]).
Proof.
  intros Hn0 H0 Hkw Hn1 H1 Ha H2.
  destruct w2 as [|c w2].
  { rewrite app_nil_r. now apply parseCommand_one_quoted. }
  unfold parseCommand.
  assert (Hcount : countDq (w0 ++ kw ++ w1 ++ (dq ++ a ++ dq) ++ String c w2) < 4).
  { destruct Hkw as [_ Hk]. rewrite !countDq_app, countDq_dq.
    rewrite (lacks_countDq w0), (lacks_countDq kw), (lacks_countDq w1),
      (lacks_countDq a), (lacks_countDq (String c w2));
      auto using spaces_lack_dq, word_lacks_dq. }
  rewrite (search_few_quotes match_two_quoted 4);
    [| intros t r; apply match_two_quoted_count | exact Hcount].
  rewrite search_one_quoted_none.
  2:{ rewrite <- !app_assoc.
      rewrite !(last_char_app _ (String c w2)) by discriminate.
      now apply last_char_lacks, spaces_lack_dq. }
  rewrite (search_here match_quoted_tail _ (kw, a, "")).
  - cbn [String.eqb]. now rewrite app_nil_r.
  - unfold match_quoted_tail.
    rewrite match_keyword_line; [| assumption.. | reflexivity].
    rewrite !app_assoc.
    replace (String c w2) with (String c w2 ++ "") by apply app_nil_r.
    rewrite match_quoted_here by assumption.
    rewrite span_spaces; [| assumption | exact I]. reflexivity.
Qed.

(** *** Lines that end in a line terminator *)

Lemma last_char_forallb p (s : string) (c : ascii) :
  forallb_str p s = true -> last_char s = Some c -> p c = true.
Proof.
  induction s as [|x s IH]; [discriminate|].
  cbn [forallb_str last_char]. intros [Hx Hs]%andb_true_iff.
  destruct s; [intros [= <-]; exact Hx | now apply IH].
Qed.

Lemma match_unquoted_last (t : string) r :
  match_unquoted t = Some r ->
  exists c, last_char t = Some c /\ is_lineterm c = false.
Proof.
  unfold match_unquoted.
  destruct (match_keyword t) as [[[kw w] rest]|] eqn:Hk; [|discriminate].
  apply match_keyword_parts in Hk as [w0 ->].
  destruct rest as [|x rest].
  - destruct (last_char w) as [c|] eqn:Hw; [|discriminate].
    destruct (Nat.ltb 1 (String.length w)); [|discriminate].
    destruct (is_lineterm c) eqn:Hc; [discriminate|]. intros _.
    exists c. split; [|exact Hc].
    rewrite app_nil_r, <- !app_assoc. rewrite last_char_app; [exact Hw|].
    intros ->. discriminate.
  - destruct (forallb_str _ (String x rest)) eqn:Hall; [|discriminate]. intros _.
    destruct (last_char (String x rest)) as [c|] eqn:Hl.
    + exists c. split.
      * rewrite <- !app_assoc. now rewrite last_char_app.
      * apply (last_char_forallb _ _ c) in Hall; [|exact Hl].
        now apply negb_true_iff in Hall.
    + exfalso. clear - Hl. revert x Hl. induction rest as [|y rest IH]; intros x.
      * discriminate.
      * cbn [last_char]. apply IH.
Qed.

Lemma search_unquoted_none (s : string) (c : ascii) :
  last_char s = Some c -> is_lineterm c = true -> search match_unquoted s = None.
Proof.
  intros Hs Hc. destruct (search match_unquoted s) as [r|] eqn:E; [|reflexivity].
  exfalso. apply search_suffix in E as (pre & t & -> & Ht).
  apply match_unquoted_last in Ht as (c' & Hl & Hc').
  rewrite last_char_app in Hs by (intros ->; discriminate). congruence.
Qed.

Lemma parseLine_lineterm (st : State) (rawLine : string) (c : ascii) :
  countDq rawLine < 2 -> last_char rawLine = Some c -> is_lineterm c = true ->
  startsWith "task " (trim rawLine) = false ->
  parseLine st rawLine = st.
Proof.
  intros Hcount Hl Hc Htask. unfold parseLine.
  destruct (_ || _); [reflexivity|].
  destruct (startsWith "var " (trim rawLine)).
  { rewrite (search_few_quotes match_var 2); [reflexivity | |].
    - intros t r. apply match_var_count.
    - pose proof (countDq_trim rawLine). lia. }
  rewrite Htask.
  destruct (currentTask st); [|reflexivity].
  destruct (match_indented rawLine); [|reflexivity].
  unfold parseCommand.
  rewrite (search_few_quotes match_two_quoted 4);
    [| intros t r; apply match_two_quoted_count | lia].
  rewrite (search_few_quotes match_one_quoted 2);
    [| intros t r; apply match_one_quoted_count | lia].
  rewrite (search_few_quotes match_quoted_tail 2);
    [| intros t r; apply match_quoted_tail_count | lia].
  now rewrite (search_unquoted_none rawLine c).
Qed.

(** *** Lines that are no command lines *)

Lemma parseLine_unindented (st : State) (c : ascii) (rest : string) :
  is_space c = false ->
  String.prefix "var " (String c rest) = false ->
  String.prefix "task " (String c rest) = false ->
  parseLine st (String c rest) = st.
Proof.
  intros Hc Hvar Htask. unfold parseLine. rewrite trim_solid by assumption.
  destruct (_ || _); [reflexivity|].
  unfold startsWith.
  destruct (String.prefix "var " (trimEnd (String c rest))) eqn:E1.
  { apply prefix_trimEnd in E1. congruence. }
  destruct (String.prefix "task " (trimEnd (String c rest))) eqn:E2.
  { apply prefix_trimEnd in E2. congruence. }
  destruct (currentTask st); [|reflexivity].
  unfold match_indented. now rewrite many1_solid.
Qed.

Lemma parseLine_var_unquoted (st : State) (rawLine : string) :
  startsWith "var " (trim rawLine) = true -> countDq rawLine < 2 ->
  parseLine st rawLine = st.
Proof.
  intros Hvar Hcount. unfold parseLine.
  destruct (_ || _); [reflexivity|]. rewrite Hvar.
  rewrite (search_few_quotes match_var 2); [reflexivity | |].
  - intros t r. apply match_var_count.
  - pose proof (countDq_trim rawLine). lia.
Qed.

End ParserShape.

(** * Beyond the specification: resolution and runs, further *)

Module RunFacts.
Import JSString JSObject Common Notions MoreNotions Exec.
Import StringFacts PassFacts ResolveFacts EnvFacts LoopFacts ExecFacts.
Import CommandLines ResolveMore VariantFacts.

Lemma replaceAll_expands x (n t a b : string) :
  lacks x a = true -> lacks x b = true ->
  replaceAll (String x n) t (around a x (n ++ b))
  = a ++ GetSubstitution (String x n) a b t ++ b.
Proof.
  intros Ha Hb. unfold replaceAll, around.
  rewrite replaceAllFrom_app_lacks by assumption. f_equal.
  change (String x (n ++ b)) with (String x n ++ b).
  rewrite replaceAllFrom_match. cbn [append]. f_equal.
  now rewrite replaceAllFrom_lacks.
Qed.

Lemma word_not_dollar (c : ascii) : is_word c = true -> negb (Ascii.eqb c dollar) = true.
Proof.
  destruct c as [[] [] [] [] [] [] [] []]; intros Hc;
    try reflexivity; vm_compute in Hc; discriminate.
Qed.

Lemma word_not_qmark (c : ascii) : is_word c = true -> negb (Ascii.eqb c qmark) = true.
Proof.
  destruct c as [[] [] [] [] [] [] [] []]; intros Hc;
    try reflexivity; vm_compute in Hc; discriminate.
Qed.

Lemma wordName_plain (n : string) : wordName n -> plain n = true.
Proof.
  intros [_ Hw]. unfold plain, lacks.
  rewrite (forallb_str_impl _ _ n word_not_dollar Hw).
  now rewrite (forallb_str_impl _ _ n word_not_qmark Hw).
Qed.

Lemma placed_noneStarts {V} (n : string) (v : V) (o o' : entries V) (u : string) :
  onlyStarts n o u -> entryPlaced n v o o' ->
  exists pre post, o' = (pre ++ (n, v) :: post)%list /\ noneStarts (keys pre) u.
Proof.
  intros Honly (pre & post & -> & Hpre). exists pre, post. split; [reflexivity|].
  unfold noneStarts, onlyStarts in *. rewrite Forall_forall in *.
  intros k Hk. destruct (Hpre k Hk) as [Hne Hin].
  destruct (Honly k Hin) as [->|Hp]; [contradiction | exact Hp].
Qed.

Section WithHost.
Context (H : Host).

(** *** Quiet scripts *)

Lemma executeCommandWith_quiet (run : TaskRunner H) (taskName : string)
    (c : Command) (m m' : Machine H) (r : ExecutionResult) :
  quietRunner run -> quietCommand c ->
  quietScript (script (this H m)) ->
  executeCommandWith H run taskName c m = Some (r, m') ->
  script (this H m') = script (this H m) /\ world H m' = world H m.
Proof.
  intros Hrun [Hr Hd] Hq. unfold executeCommandWith.
  destruct (String.eqb (cmd_type c) "run") eqn:Erun;
    [apply String.eqb_eq in Erun; contradiction|].
  destruct (String.eqb (cmd_type c) "del") eqn:Edel;
    [apply String.eqb_eq in Edel; contradiction|].
  destruct (String.eqb (cmd_type c) "ech").
  { destruct (replaceVariables _ _ _ _); intros [= <- <-]; now split. }
  destruct (String.eqb (cmd_type c) "tsk").
  { destruct (replaceVariables _ _ _ _) as [s|msg]; [|intros [= <- <-]; now split].
    unfold runTask. destruct (run s _) as [[r1 m2]|] eqn:Hcall; [|discriminate].
    apply Hrun in Hcall; [|exact Hq].
    destruct (success r1); intros [= <- <-]; exact Hcall. }
  destruct (String.eqb (cmd_type c) "var").
  { destruct (replaceVariables _ _ _ _); intros [= <- <-]; now split. }
  intros [= <- <-]. now split.
Qed.

Lemma forCommands_quiet step (s : SSALScript) (taskName : string)
    (cmds : list Command) :
  (forall c m r m', In c cmds -> script (this H m) = s -> step c m = Some (r, m') ->
     script (this H m') = s /\ world H m' = world H m) ->
  forall (m m' : Machine H) r,
  script (this H m) = s ->
  forCommands step taskName cmds m = Some (r, m') ->
  script (this H m') = s /\ world H m' = world H m.
Proof.
  induction cmds as [|c cs IH]; intros Hstep m m' r Hs; cbn [forCommands].
  - intros [= <- <-]. now split.
  - destruct (step c m) as [[r1 m1]|] eqn:Hc; [|discriminate].
    destruct (Hstep c m r1 m1 (or_introl eq_refl) Hs Hc) as [Hs1 Hw1].
    destruct (success r1).
    + intros Hrest. apply IH in Hrest; [| |exact Hs1].
      * destruct Hrest as [Hs2 Hw2]. split; [exact Hs2 | congruence].
      * intros c' ma ra mb Hin. apply Hstep. now right.
    + intros [= <- <-]. now split.
Qed.

Lemma executeTask_quiet (fuel : nat) : quietRunner (executeTask H fuel).
Proof.
  induction fuel as [fuel IH] using lt_wf_ind.
  intros n m r m' Hq. rewrite executeTask_eq.
  destruct (findTask n _) as [task|] eqn:Hfind; [|intros [= <- <-]; now split].
  apply findTask_In in Hfind as [Hin _].
  pose proof Hq as Hall. unfold quietScript in Hall. rewrite Forall_forall in Hall.
  pose proof (Hall _ Hin) as Hcmds. rewrite Forall_forall in Hcmds.
  intros Hrun.
  apply (forCommands_quiet _ (script (this H m))) in Hrun; [exact Hrun | | reflexivity].
  intros c ma ra mb Hc Hs Hstep.
  apply executeCommandWith_quiet in Hstep.
  - now rewrite <- Hs.
  - destruct fuel as [|fuel]; [intros ? ? ? ? _ Hn; discriminate Hn | apply IH; lia].
  - now apply Hcmds.
  - now rewrite Hs.
Qed.

(** *** Runs that need no bound *)

Lemma forCommands_returns {M} (step : Command -> M -> option (ExecutionResult * M))
    (taskName : string) (cmds : list Command) :
  (forall c m, In c cmds -> exists r m', step c m = Some (r, m')) ->
  forall m, exists r m', forCommands step taskName cmds m = Some (r, m').
Proof.
  induction cmds as [|c cs IH]; intros Hstep m; cbn [forCommands]; [eauto|].
  destruct (Hstep c m (or_introl eq_refl)) as (r1 & m1 & ->).
  destruct (success r1); [|eauto].
  apply IH. intros c' m' Hin. apply Hstep. now right.
Qed.

End WithHost.

End RunFacts.

(** * Beyond the specification: the command line *)

Module CliFacts.
Import JSString JSObject Common Notions MoreNotions Exec Cli.
Import StringFacts ExecFacts ExecMore RunFacts.

Section WithHost.
Context (H : Host) (style : Style).

(** The three rules of the loop. *)
Lemma taskLoop_named (fuel : nat) (pairs : list (string * string)) (rest : list string)
    (cur : string) (ca : list string) (named : entries string) (m : Machine H) :
  taskLoop H style fuel (namedPairs pairs ++ rest) cur ca named m
  = taskLoop H style fuel rest cur ca (storeAll pairs named) m.
Proof.
  revert named. induction pairs as [|[k v] pairs IH]; intros named; [reflexivity|].
  cbn [namedPairs flat_map fst snd app]. cbn [taskLoop].
  unfold startsWith at 1. rewrite prefix_refl_app.
  change (drop 2 ("--" ++ k)) with k. apply IH.
Qed.

Lemma taskLoop_positional (fuel : nat) (values : list string) (rest : list string)
    (cur : string) (ca : list string) (named : entries string) (m : Machine H) :
  taskLoop H style fuel (positionalArgs values ++ rest) cur ca named m
  = taskLoop H style fuel rest cur (ca ++ values) named m.
Proof.
  revert ca. induction values as [|v values IH]; intros ca.
  - cbn. now rewrite List.app_nil_r.
  - cbn [positionalArgs map app taskLoop]. 
    change (startsWith "--" (String qmark v)) with false.
    change (startsWith "?" (String qmark v)) with (String.prefix "" v).
    rewrite ParserMore.prefix_nil. cbn [drop].
    fold (positionalArgs values). rewrite IH. now rewrite <- List.app_assoc.
Qed.

Lemma taskLoop_name (fuel : nat) (arg : string) (rest : list string)
    (cur : string) (ca : list string) (named : entries string) (m : Machine H) :
  nameLike arg ->
  taskLoop H style fuel (arg :: rest) cur ca named m
  = if String.eqb cur "" then taskLoop H style fuel rest arg ca named m
    else match runCurrent H style fuel cur ca named m with
         | None => None
         | Some (Succeeded _ m') => taskLoop H style fuel rest arg [] named m'
         | Some (Failed _ m') => Some (LoopExit H m')
         end.
Proof. intros [Hd Hq]. cbn [taskLoop]. now rewrite Hd, Hq. Qed.

Lemma isTaskName_eqb (t : string) : isTaskName t -> String.eqb t "" = false.
Proof. intros [Hne _]. now apply String.eqb_neq. Qed.

(** *** Quiet scripts *)

Lemma runCurrent_quiet (fuel : nat) (cur : string) (ca : list string)
    (named : entries string) (m m' : Machine H) :
  quietScript (script (this H m)) ->
  (runCurrent H style fuel cur ca named m = Some (Succeeded H m')
   \/ runCurrent H style fuel cur ca named m = Some (Failed H m')) ->
  script (this H m') = script (this H m) /\ world H m' = world H m.
Proof.
  intros Hq. unfold runCurrent.
  destruct (executeTask H fuel cur _) as [[r m4]|] eqn:Hrun; [|intros [?|?]; discriminate].
  apply executeTask_quiet in Hrun; [|exact Hq]. cbn in Hrun.
  destruct (success r); intros [Heq|Heq]; try discriminate; injection Heq as <-; exact Hrun.
Qed.

Lemma taskLoop_quiet (fuel : nat) (args : list string) :
  forall (cur : string) (ca : list string) (named : entries string) (m : Machine H),
  quietScript (script (this H m)) ->
  match taskLoop H style fuel args cur ca named m with
  | Some (LoopDone _ _ _ _ m') | Some (LoopExit _ m') =>
      script (this H m') = script (this H m) /\ world H m' = world H m
  | None => True
  end.
Proof.
  remember (List.length args) as n eqn:Hn. revert args Hn.
  induction n as [n IH] using lt_wf_ind. intros args Hn cur ca named m Hq.
  destruct args as [|arg rest]; [cbn; now split|].
  cbn [taskLoop].
  destruct (startsWith "--" arg).
  { destruct rest as [|v rest']; [cbn; now split|].
    apply (IH (List.length rest')); [cbn in Hn; lia | reflexivity | exact Hq]. }
  destruct (startsWith "?" arg).
  { apply (IH (List.length rest)); [cbn in Hn; lia | reflexivity | exact Hq]. }
  destruct (String.eqb cur "").
  { apply (IH (List.length rest)); [cbn in Hn; lia | reflexivity | exact Hq]. }
  destruct (runCurrent H style fuel cur ca named m) as [[m1|m1]|] eqn:Hrun; [| |exact I].
  - destruct (runCurrent_quiet fuel cur ca named m m1 Hq (or_introl Hrun)) as [Hs Hw].
    assert (Hq1 : quietScript (script (this H m1))) by now rewrite Hs.
    pose proof (IH (List.length rest) ltac:(cbn in Hn; lia) rest eq_refl arg [] named m1 Hq1)
      as Hrest.
    destruct (taskLoop H style fuel rest arg [] named m1) as [[? ? ? m2|m2]|];
      [| |exact I]; destruct Hrest as [Hs2 Hw2]; split; congruence.
  - exact (runCurrent_quiet fuel cur ca named m m1 Hq (or_intror Hrun)).
Qed.

Lemma runTasks_quiet (fuel : nat) (args : list string) (m m' : Machine H) (e : Ending) :
  quietScript (script (this H m)) ->
  runTasks H style fuel args m = Some (e, m') ->
  world H m' = world H m.
Proof.
  intros Hq. unfold runTasks.
  pose proof (taskLoop_quiet fuel args "" [] [] m Hq) as Hloop.
  destruct (taskLoop H style fuel args "" [] [] m) as [[cur ca named m1|m1]|];
    [| |discriminate].
  - destruct Hloop as [Hs Hw].
    assert (Hq1 : quietScript (script (this H m1))) by now rewrite Hs.
    destruct (String.eqb cur "").
    + intros [= <- <-]. exact Hw.
    + destruct (runCurrent H style fuel cur ca named m1) as [[m2|m2]|] eqn:Hrun;
        [| |discriminate].
      * destruct (runCurrent_quiet fuel cur ca named m1 m2 Hq1 (or_introl Hrun)) as [_ Hw2].
        intros [= <- <-]. cbn. congruence.
      * destruct (runCurrent_quiet fuel cur ca named m1 m2 Hq1 (or_intror Hrun)) as [_ Hw2].
        intros [= <- <-]. congruence.
  - destruct Hloop as [_ Hw]. intros [= <- <-]. exact Hw.
Qed.

End WithHost.

End CliFacts.

(** * Properties of the code beyond the specification: the parser *)

Module ParserProperties.
Import JSString Notions MoreNotions StringFacts ParserFacts Parser.
Import ParserMore ParserInvariants CommandLines ParserShape.

(** X1: a line of white space only, and a line whose first character
    after the leading white space is the hash sign, leave the script and
    the current task as they are, whatever follows the hash sign. *)
Theorem blank_and_comment_lines_are_skipped (st : State) (w rest : string) :
  spaces w = true ->
  parseLine st w = st /\ parseLine st (w ++ "#" ++ rest) = st.
Proof.
  intros Hw. split; [now apply parseLine_blank | now apply parseLine_comment].
Qed.

Lemma blank_and_comment_lines_are_skipped_witness :
  parseLine (mkState Sim.shadowing (Some 0)) "   " = mkState Sim.shadowing (Some 0)
  /\ parseLine (mkState Sim.shadowing (Some 0)) ("   " ++ "#" ++ " task x:")
     = mkState Sim.shadowing (Some 0).
Proof.
  apply (blank_and_comment_lines_are_skipped (mkState Sim.shadowing (Some 0))
           "   " " task x:").
  reflexivity.
Defined.

(** X2: a task line (the keyword task, white space, a name of word
    characters and a colon, with white space around) appends a task of
    that name without commands to the script and makes it the current
    task; the variables and the earlier tasks stay.  A name already in
    use is appended again. *)
Theorem task_line_opens_a_task (st : State) (w0 w1 name w2 : string) :
  spaces w0 = true -> spaces w1 = true -> spaces w2 = true -> wordName name ->
  parseLine st (taskLine w0 w1 name w2)
  = mkState
      (mkScript (variables (script st)) (tasks (script st) ++ [mkTask name []])%list)
      (Some (List.length (tasks (script st)))).
Proof.
  intros H0 H1 H2 Hn. now rewrite parseLine_task.
Qed.

Lemma task_line_opens_a_task_witness :
  parseLine (mkState Sim.shadowing (Some 0)) (taskLine "  " " " "t" " ")
  = mkState
      (mkScript (variables Sim.shadowing)
         (tasks Sim.shadowing ++ [mkTask "t" []])%list)
      (Some 1).
Proof.
  apply (task_line_opens_a_task (mkState Sim.shadowing (Some 0)) "  " " " "t" " ");
    try reflexivity.
  split; [discriminate | reflexivity].
Defined.

(** X3: the parser only appends.  Reading further lines after a prefix
    of the lines keeps every variable in its place and adds variables at
    the end; every task stays at its position under its name, commands
    are added at the end of a task's list only, and only the last task
    of the prefix can still receive commands.  At every point the current
    task, when there is one, is the last task of the script. *)
Theorem parser_only_appends (lines more : list string) :
  grownFrom (fold_left parseLine lines (mkState (mkScript [] []) None))
            (fold_left parseLine (lines ++ more) (mkState (mkScript [] []) None))
  /\ openIsLast (fold_left parseLine lines (mkState (mkScript [] []) None)).
Proof.
  assert (Hinit : openIsLast (mkState (mkScript [] []) None)) by reflexivity.
  destruct (parse_grows lines _ Hinit) as [_ Hopen].
  split; [|exact Hopen].
  rewrite fold_left_app. now apply parse_grows.
Qed.

(** X4: every script the parser returns is well formed: the name of a
    variable and of a task is a non-empty run of word characters, the
    value of a variable holds no double quote, and every command has a
    non-empty keyword of word characters and one argument or two. *)
Theorem parsed_script_is_well_formed (content : string) :
  wellFormed (parseSSALContent content).
Proof. exact (parse_wellFormed content). Qed.

(** X5: the names a parsed script declares hold no character of regular
    expression syntax, so an executor made from a parsed script meets the
    condition under which its patterns are literal texts. *)
Theorem parsed_names_are_literal (content dir : string) :
  literalDeclared (parseSSALContent content)
  /\ literalNames (Exec.newExecutor (parseSSALContent content) dir).
Proof.
  assert (Hd : literalDeclared (parseSSALContent content)).
  { destruct (parse_wellFormed content) as [Hv _].
    unfold literalDeclared, declared. apply Forall_map.
    eapply Forall_impl; [|exact Hv].
    intros v [Hn _]. now apply wordName_literal. }
  split; [exact Hd|].
  unfold literalNames. cbn. now rewrite List.app_nil_r.
Qed.

(** X6: in a task, an indented line that holds a keyword and one
    double-quoted argument, with or without white space behind the
    closing quote, adds the command of that keyword with the text between
    the quotes for its one argument.  Any word serves as a keyword, other
    than var and task, which make other kinds of line. *)
Theorem quoted_line_gives_one_argument (st : State) (i : nat)
    (w0 kw w1 arg w2 : string) :
  currentTask st = Some i ->
  w0 <> "" -> spaces w0 = true -> wordName kw -> kw <> "var" -> kw <> "task" ->
  w1 <> "" -> spaces w1 = true -> lacks dqc arg = true -> spaces w2 = true ->
  parseLine st (w0 ++ kw ++ w1 ++ (dq ++ arg ++ dq) ++ w2)
  = pushCommand i (mkCommand kw [arg]) st.
Proof.
  intros Hcur Hn0 H0 Hkw Hv Ht Hn1 H1 Harg H2.
  rewrite parseLine_cascade with (i := i); try assumption; [|reflexivity].
  now rewrite parseCommand_quoted_spaces.
Qed.

Lemma quoted_line_gives_one_argument_witness :
  parseLine (mkState Sim.shadowing (Some 0))
    ("  " ++ "ech" ++ " " ++ (dq ++ "hi" ++ dq) ++ chr 13)
  = pushCommand 0 (mkCommand "ech" ["hi"]) (mkState Sim.shadowing (Some 0)).
Proof.
  apply (quoted_line_gives_one_argument (mkState Sim.shadowing (Some 0)) 0
           "  " "ech" " " "hi" (chr 13));
    try reflexivity; try discriminate.
  split; [discriminate | reflexivity].
Defined.

(** X7: in a task, an indented line that holds a keyword and two
    double-quoted arguments separated by white space adds the command
    with the two texts for its arguments, in their order. *)
Theorem quoted_line_gives_two_arguments (st : State) (i : nat)
    (w0 kw w1 a w2 b : string) :
  currentTask st = Some i ->
  w0 <> "" -> spaces w0 = true -> wordName kw -> kw <> "var" -> kw <> "task" ->
  w1 <> "" -> spaces w1 = true -> lacks dqc a = true ->
  w2 <> "" -> spaces w2 = true -> lacks dqc b = true ->
  parseLine st (w0 ++ kw ++ w1 ++ (dq ++ a ++ dq) ++ w2 ++ dq ++ b ++ dq)
  = pushCommand i (mkCommand kw [a; b]) st.
Proof.
  intros Hcur Hn0 H0 Hkw Hv Ht Hn1 H1 Ha Hn2 H2 Hb.
  rewrite parseLine_cascade with (i := i); try assumption; [|reflexivity].
  now rewrite parseCommand_two_quoted.
Qed.

Lemma quoted_line_gives_two_arguments_witness :
  parseLine (mkState Sim.shadowing (Some 0))
    ("  " ++ "cpy" ++ " " ++ (dq ++ "a" ++ dq) ++ " " ++ dq ++ "b" ++ dq)
  = pushCommand 0 (mkCommand "cpy" ["a"; "b"]) (mkState Sim.shadowing (Some 0)).
Proof.
  apply (quoted_line_gives_two_arguments (mkState Sim.shadowing (Some 0)) 0
           "  " "cpy" " " "a" " " "b");
    try reflexivity; try discriminate.
  split; [discriminate | reflexivity].
Defined.

(** X8: in a task, an indented line that holds a keyword, one
    double-quoted argument and further text without double quotes adds
    the command with one argument: the text between the quotes, a space,
    and the further text without the white space around it. *)
Theorem quoted_argument_takes_the_tail (st : State) (i : nat)
    (w0 kw w1 a w2 rest : string) :
  currentTask st = Some i ->
  w0 <> "" -> spaces w0 = true -> wordName kw -> kw <> "var" -> kw <> "task" ->
  w1 <> "" -> spaces w1 = true -> lacks dqc a = true -> spaces w2 = true ->
  startsSolid rest -> lacks dqc rest = true -> oneLine rest = true ->
  parseLine st (w0 ++ kw ++ w1 ++ (dq ++ a ++ dq) ++ w2 ++ rest)
  = pushCommand i (mkCommand kw [a ++ " " ++ trimEnd rest]) st.
Proof.
  intros Hcur Hn0 H0 Hkw Hv Ht Hn1 H1 Ha H2 Hr Hq Hl.
  rewrite parseLine_cascade with (i := i); try assumption; [|reflexivity].
  now rewrite parseCommand_quoted_tail.
Qed.

Lemma quoted_argument_takes_the_tail_witness :
  parseLine (mkState Sim.shadowing (Some 0))
    ("  " ++ "run" ++ " " ++ (dq ++ "gcc" ++ dq) ++ "  " ++ "-o main  ")
  = pushCommand 0 (mkCommand "run" ["gcc -o main"]) (mkState Sim.shadowing (Some 0)).
Proof.
  apply (quoted_argument_takes_the_tail (mkState Sim.shadowing (Some 0)) 0
           "  " "run" " " "gcc" "  " "-o main  ");
    try reflexivity; try discriminate.
  split; [discriminate | reflexivity].
Defined.

(** X9: in a task, an indented line that holds a keyword and text
    without double quotes adds the command with that text, as it stands
    up to the end of the line, for its one argument. *)
Theorem unquoted_line_gives_the_rest (st : State) (i : nat)
    (w0 kw w1 rest : string) :
  currentTask st = Some i ->
  w0 <> "" -> spaces w0 = true -> wordName kw -> kw <> "var" -> kw <> "task" ->
  w1 <> "" -> spaces w1 = true ->
  startsSolid rest -> lacks dqc rest = true -> oneLine rest = true ->
  parseLine st (w0 ++ kw ++ w1 ++ rest) = pushCommand i (mkCommand kw [rest]) st.
Proof.
  intros Hcur Hn0 H0 Hkw Hv Ht Hn1 H1 Hr Hq Hl.
  rewrite parseLine_cascade with (i := i); try assumption.
  now rewrite parseCommand_unquoted.
Qed.

Lemma unquoted_line_gives_the_rest_witness :
  parseLine (mkState Sim.shadowing (Some 0)) ("  " ++ "run" ++ " " ++ "make all ")
  = pushCommand 0 (mkCommand "run" ["make all "]) (mkState Sim.shadowing (Some 0)).
Proof.
  apply (unquoted_line_gives_the_rest (mkState Sim.shadowing (Some 0)) 0
           "  " "run" " " "make all ");
    try reflexivity; try discriminate.
  split; [discriminate | reflexivity].
Defined.

(** X10: a line that starts with a character other than white space
    and does not start with the keyword var or task and a space is
    ignored, in a task as well as outside: a command must be indented. *)
Theorem unindented_line_is_ignored (st : State) (c : ascii) (rest : string) :
  is_space c = false ->
  String.prefix "var " (String c rest) = false ->
  String.prefix "task " (String c rest) = false ->
  parseLine st (String c rest) = st.
Proof. exact (parseLine_unindented st c rest). Qed.

Lemma unindented_line_is_ignored_witness :
  parseLine (mkState Sim.shadowing (Some 0)) ("ech " ++ dq ++ "hi" ++ dq)
  = mkState Sim.shadowing (Some 0).
Proof.
  apply (unindented_line_is_ignored (mkState Sim.shadowing (Some 0)) "e"
           ("ch " ++ dq ++ "hi" ++ dq));
    reflexivity.
Defined.

(** X11: a line that starts, after white space, with the keyword var
    and a space and holds fewer than two double quotes is dropped without
    a trace, in a task as well as outside: a value must be quoted. *)
Theorem var_line_without_quotes_is_dropped (st : State) (rawLine : string) :
  startsWith "var " (trim rawLine) = true -> countDq rawLine < 2 ->
  parseLine st rawLine = st.
Proof. exact (parseLine_var_unquoted st rawLine). Qed.

Lemma var_line_without_quotes_is_dropped_witness :
  parseLine (mkState Sim.shadowing None) "  var X = 5" = mkState Sim.shadowing None.
Proof.
  apply (var_line_without_quotes_is_dropped (mkState Sim.shadowing None) "  var X = 5").
  - reflexivity.
  - cbv. lia.
Defined.

(** X12: a line that ends in a line terminator (a carriage return, as
    every line of a file with CRLF line ends does) and holds fewer than
    two double quotes is dropped, unless it is a task line: an unquoted
    command on such a line is lost without a trace. *)
Theorem unquoted_line_with_line_end_is_dropped (st : State) (rawLine : string)
    (c : ascii) :
  countDq rawLine < 2 -> last_char rawLine = Some c -> is_lineterm c = true ->
  startsWith "task " (trim rawLine) = false ->
  parseLine st rawLine = st.
Proof. exact (parseLine_lineterm st rawLine c). Qed.

Lemma unquoted_line_with_line_end_is_dropped_witness :
  parseLine (mkState Sim.shadowing (Some 0)) ("  run make" ++ chr 13)
  = mkState Sim.shadowing (Some 0).
Proof.
  apply (unquoted_line_with_line_end_is_dropped (mkState Sim.shadowing (Some 0))
           ("  run make" ++ chr 13) (ascii_of_nat 13)).
  - cbv. lia.
  - reflexivity.
  - reflexivity.
  - reflexivity.
Defined.

End ParserProperties.

(** * Properties of the code beyond the specification: the executor *)

Module ExecutorProperties.
Import JSString JSObject Common Notions MoreNotions Exec.
Import StringFacts PassFacts ResolveFacts EnvFacts LoopFacts ExecFacts ObjectFacts.
Import CommandLines ResolveMore ExecMore VariantFacts RunFacts.

(** ** Resolution *)

(** X13: a text that holds neither a dollar sign nor a question mark
    resolves to itself, in both variants of the executor, whatever
    arguments and variables are known; in the variant with arguments,
    for a task whose arguments are looked up among the executor's own
    entries (at a task name that objects inherit and that has no
    arguments of its own, resolution throws). *)
Theorem plain_text_resolves_to_itself (H : Host) (e : Executor)
    (l : Legacy.Executor) (taskName s : string) :
  literalNames e -> literalDeclared (Legacy.script l) ->
  ordinaryLookup e taskName = true ->
  plain s = true ->
  replaceVariables H e taskName (Some s) = Normal s
  /\ Legacy.replaceVariables H l s = s.
Proof.
  intros _ _ _ Hs. split; [now apply replaceVariables_plain|].
  apply legacy_replaceVariables_plain. now apply plain_split in Hs.
Qed.

Lemma plain_text_resolves_to_itself_witness :
  replaceVariables Sim.fooHost
    (setTaskArgs "t" ["a"] (newExecutor Sim.shadowing "/")) "t" (Some "make all")
  = Normal "make all"
  /\ Legacy.replaceVariables Sim.fooHost (Legacy.newExecutor Sim.shadowing "/") "make all"
     = "make all".
Proof.
  apply (plain_text_resolves_to_itself Sim.fooHost
           (setTaskArgs "t" ["a"] (newExecutor Sim.shadowing "/"))
           (Legacy.newExecutor Sim.shadowing "/") "t" "make all");
    try reflexivity; repeat constructor.
Defined.

(** X14: a named argument is substituted.  In a text with one token, a
    question mark followed by the key, the token is replaced by the value
    registered under the key.  Stated for a task without positional
    arguments whose name is no name that objects inherit, the key being
    the first registered key spelt at the token, and a value free of
    dollar signs and question marks. *)
Theorem named_argument_is_substituted (H : Host) (e : Executor) (taskName : string)
    (pre post : entries string) (key value a b : string) :
  literalNames e -> ordinaryLookup e taskName = true ->
  get taskName (taskArgs e) = None ->
  namedArgs e = (pre ++ (key, value) :: post)%list ->
  noneStarts (keys pre) (key ++ b) ->
  plain a = true -> plain key = true -> plain b = true -> plain value = true ->
  replaceVariables H e taskName (Some (a ++ String qmark key ++ b))
  = Normal (a ++ value ++ b).
Proof.
  intros _ _ Hargs Hnamed Hpre [Ha Ha']%plain_split [Hk Hk']%plain_split
    [Hb Hb']%plain_split [Hv Hv']%plain_split.
  unfold replaceVariables, replaceNames. f_equal.
  rewrite Hargs, Hnamed. cbn [replaceTaskArgs].
  change (a ++ String qmark key ++ b) with (around a qmark (key ++ b)).
  rewrite replaceEntries_first by assumption.
  assert (Hres : lacks dollar (a ++ value ++ b) = true)
    by now rewrite !lacks_app, Ha, Hv, Hb.
  rewrite replaceScriptVariables_lacks, replaceEntries_lacks by assumption.
  now apply replaceEnv_lacks.
Qed.

Lemma named_argument_is_substituted_witness :
  replaceVariables Sim.plainHost
    (setNamedArgs [("mode", "fast")] (newExecutor Sim.shadowing "/")) "t"
    (Some "build ?mode now")
  = Normal "build fast now".
Proof.
  apply (named_argument_is_substituted Sim.plainHost
           (setNamedArgs [("mode", "fast")] (newExecutor Sim.shadowing "/")) "t"
           [] [] "mode" "fast" "build " " now");
    try reflexivity; repeat constructor.
Defined.

(** X15: a reference to an environment variable that is set is replaced
    by its value, the empty value included.  Stated for a text with one
    reference that no declared or runtime variable is spelt at, a
    variable whose name is no name that objects inherit (so that its
    value is a text), and a value free of dollar signs, in both variants
    of the executor; in the variant with arguments, for a task whose
    arguments are looked up among the executor's own entries. *)
Theorem set_environment_reference_is_replaced (H : Host) (e : Executor)
    (l : Legacy.Executor) (taskName : string) (a n b v : string) :
  literalNames e -> literalDeclared (Legacy.script l) ->
  ordinaryLookup e taskName = true -> inherited n = false ->
  process_env H n = Some v ->
  n <> "" -> lacks dqc n = true ->
  plain a = true -> plain n = true -> plain b = true -> lacks dollar v = true ->
  noneStarts (declared (script e)) (envTail n b) ->
  noneStarts (keys (globalVariables e)) (envTail n b) ->
  noneStarts (declared (Legacy.script l)) (envTail n b) ->
  replaceVariables H e taskName (Some (a ++ envToken n ++ b)) = Normal (a ++ v ++ b)
  /\ Legacy.replaceVariables H l (a ++ envToken n ++ b) = a ++ v ++ b.
Proof.
  intros _ _ _ _ Henv Hne Hq [Ha Ha']%plain_split [Hn Hn']%plain_split
    [Hb Hb']%plain_split Hv Hdecl Hglob Hleg.
  assert (Htail : lacks dollar (envTail n b) = true).
  { unfold envTail. rewrite !lacks_app, Hn, Hb. reflexivity. }
  assert (Htail' : lacks qmark (envTail n b) = true).
  { unfold envTail. rewrite !lacks_app, Hn', Hb'. reflexivity. }
  split.
  - unfold replaceVariables, replaceNames. f_equal.
    rewrite envToken_tail. fold (around a dollar (envTail n b)).
    rewrite question_passes_idle
      by (apply lacks_around; auto using qmark_dollar).
    rewrite replaceScriptVariables_miss, replaceEntries_miss by assumption.
    unfold around. rewrite <- envToken_tail.
    now apply replaceEnv_token_set.
  - unfold Legacy.replaceVariables.
    rewrite envToken_tail. fold (around a dollar (envTail n b)).
    rewrite replaceScriptVariables_miss by assumption.
    unfold around. rewrite <- envToken_tail.
    now apply replaceEnv_token_set.
Qed.

Lemma set_environment_reference_is_replaced_witness :
  replaceVariables Sim.fooHost (newExecutor Sim.shadowing "/") "t"
    (Some ("home: " ++ envToken "FOO" ++ "."))
  = Normal "home: bar."
  /\ Legacy.replaceVariables Sim.fooHost (Legacy.newExecutor Sim.shadowing "/")
       ("home: " ++ envToken "FOO" ++ ".")
     = "home: bar.".
Proof.
  apply (set_environment_reference_is_replaced Sim.fooHost
           (newExecutor Sim.shadowing "/") (Legacy.newExecutor Sim.shadowing "/")
           "t" "home: " "FOO" "." "bar");
    try reflexivity; try discriminate; repeat constructor.
Defined.

(** X16: the value of an argument is scanned by the later passes.  When
    the value of a named argument is a reference to a declared variable,
    the token of the argument resolves to the value of that variable, not
    to the text of the reference.  Stated for a task without positional
    arguments whose name is no name that objects inherit. *)
Theorem argument_value_is_expanded_again (H : Host) (e : Executor) (taskName : string)
    (pre post : list ScriptVariable) (key name v a b : string) :
  literalNames e -> ordinaryLookup e taskName = true ->
  get taskName (taskArgs e) = None ->
  namedArgs e = [(key, String dollar name)] ->
  variables (script e) = (pre ++ mkVariable name v :: post)%list ->
  noneStarts (map var_name pre) (name ++ b) ->
  plain a = true -> plain key = true -> plain b = true ->
  wordName name -> lacks dollar v = true ->
  replaceVariables H e taskName (Some (a ++ String qmark key ++ b))
  = Normal (a ++ v ++ b).
Proof.
  intros _ _ Hargs Hnamed Hvars Hpre [Ha Ha']%plain_split [Hk Hk']%plain_split
    [Hb Hb']%plain_split Hname Hv.
  pose proof (wordName_plain name Hname) as [Hn Hn']%plain_split.
  unfold replaceVariables, replaceNames. f_equal.
  rewrite Hargs, Hnamed. cbn [replaceTaskArgs replaceEntries].
  change (a ++ String qmark key ++ b) with (around a qmark (key ++ b)).
  rewrite replaceAll_expands by assumption.
  rewrite GetSubstitution_reference by assumption.
  change (a ++ String dollar name ++ b) with (around a dollar (name ++ b)).
  rewrite Hvars, replaceScriptVariables_first by assumption.
  assert (Hres : lacks dollar (a ++ v ++ b) = true)
    by now rewrite !lacks_app, Ha, Hv, Hb.
  rewrite replaceEntries_lacks by assumption.
  now apply replaceEnv_lacks.
Qed.

Lemma argument_value_is_expanded_again_witness :
  replaceVariables Sim.plainHost
    (setNamedArgs [("who", "$X")] (newExecutor Sim.shadowing "/")) "t"
    (Some "say ?who!")
  = Normal "say declared!".
Proof.
  apply (argument_value_is_expanded_again Sim.plainHost
           (setNamedArgs [("who", "$X")] (newExecutor Sim.shadowing "/")) "t"
           [] [] "who" "X" "declared" "say " "!");
    try reflexivity; repeat constructor.
  discriminate.
Defined.

(** X17: positional arguments belong to their task.  Setting the
    arguments of one task changes nothing in the resolution of texts for
    a task of another name, and the other task's arguments are still
    looked up among the executor's own entries.  Stated for arguments
    set under a name other than __proto__ (under that name the
    assignment replaces the prototype of the dictionary, which changes
    what other names find). *)
Theorem task_arguments_are_per_task (H : Host) (e : Executor)
    (taskName other : string) (args : list string) (input : option string) :
  other <> "__proto__" -> ordinaryLookup e taskName = true ->
  taskName <> other ->
  replaceVariables H (setTaskArgs other args e) taskName input
  = replaceVariables H e taskName input
  /\ ordinaryLookup (setTaskArgs other args e) taskName = true.
Proof.
  intros Hproto Hord Hne. split.
  - destruct input as [s|]; unfold replaceVariables.
    + unfold replaceNames. cbn [setTaskArgs taskArgs namedArgs script globalVariables].
      now rewrite get_set_other.
    + unfold firstMethod. cbn [setTaskArgs taskArgs namedArgs script globalVariables].
      now rewrite get_set_other.
  - unfold ordinaryLookup, hasKey in *. cbn [setTaskArgs taskArgs].
    rewrite !get_set_other by congruence. exact Hord.
Qed.

Lemma task_arguments_are_per_task_witness :
  replaceVariables Sim.plainHost
    (setTaskArgs "build" ["x"] (newExecutor Sim.shadowing "/")) "t" (Some "?1")
  = replaceVariables Sim.plainHost (newExecutor Sim.shadowing "/") "t" (Some "?1")
  /\ ordinaryLookup (setTaskArgs "build" ["x"] (newExecutor Sim.shadowing "/")) "t" = true.
Proof.
  apply (task_arguments_are_per_task Sim.plainHost (newExecutor Sim.shadowing "/")
           "t" "build" ["x"] (Some "?1")).
  - discriminate.
  - reflexivity.
  - discriminate.
Defined.

(** X18: a var command sets a runtime variable that later references
    see.  The command succeeds, and in the executor it leaves a text with
    one token, a dollar sign followed by the name, resolves to the value
    the command resolved, provided no declared variable and no other
    runtime variable is spelt at the token.  Stated for a variable of a
    name other than __proto__ (under that name the assignment stores
    nothing) and a task whose arguments are looked up among the
    executor's own entries. *)
Theorem var_command_sets_runtime_variable (H : Host) (run : TaskRunner H)
    (taskName name text value a b : string) (m : Machine H) :
  literalNames (this H m) -> literalName name = true ->
  ordinaryLookup (this H m) taskName = true -> name <> "__proto__" ->
  replaceVariables H (this H m) taskName (Some text) = Normal value ->
  plain a = true -> plain name = true -> plain b = true -> lacks dollar value = true ->
  noneStarts (declared (script (this H m))) (name ++ b) ->
  onlyStarts name (globalVariables (this H m)) (name ++ b) ->
  exists m',
    executeCommandWith H run taskName (mkCommand "var" [name; text]) m = Some (ok, m')
    /\ get name (globalVariables (this H m')) = Some value
    /\ replaceVariables H (this H m') taskName (Some (a ++ String dollar name ++ b))
       = Normal (a ++ value ++ b).
Proof.
  intros _ _ _ Hproto Htext Ha Hn Hb Hv Hdecl Honly.
  unfold executeCommandWith. cbn [cmd_type cmd_args String.eqb Ascii.eqb Bool.eqb nth_error].
  cbn [record_call this]. rewrite Htext. eexists. split; [reflexivity|].
  cbn [setVariable snd with_this this globalVariables].
  unfold assign. rewrite (proj2 (String.eqb_neq name "__proto__") Hproto).
  split; [apply get_set|].
  destruct (placed_noneStarts name value _ _ (name ++ b) Honly
              (set_placed name value (globalVariables (this H m))))
    as (pre & post & Hset & Hpre).
  apply resolve_runtime with (pre := pre) (post := post); assumption.
Qed.

Lemma var_command_sets_runtime_variable_witness :
  exists m',
    executeCommandWith Sim.plainHost (fun _ _ => None) "t"
      (mkCommand "var" ["Y"; "one"])
      (start Sim.plainHost (newExecutor Sim.shadowing "/") []) = Some (ok, m')
    /\ get "Y" (globalVariables (this Sim.plainHost m')) = Some "one"
    /\ replaceVariables Sim.plainHost (this Sim.plainHost m') "t"
         (Some ("say " ++ String dollar "Y" ++ "!"))
       = Normal ("say " ++ "one" ++ "!").
Proof.
  apply (var_command_sets_runtime_variable Sim.plainHost (fun _ _ => None)
           "t" "Y" "one" "one" "say " "!"
           (start Sim.plainHost (newExecutor Sim.shadowing "/") []));
    try reflexivity; try discriminate; repeat constructor.
Defined.

(** ** Runs *)

(** X19: a run of a task only adds to what was written, and it changes
    the world through run and del commands only: when no command it
    dispatched is of one of these two kinds, the world is as it was. *)
Theorem world_changes_only_by_run_and_del (H : Host) (fuel : nat) (taskName : string)
    (m m' : Machine H) (r : ExecutionResult) :
  executeTask H fuel taskName m = Some (r, m') ->
  exists delta more,
    dispatched H m' = (dispatched H m ++ delta)%list
    /\ output H m' = (output H m ++ more)%list
    /\ (Forall offHost delta -> world H m' = world H m).
Proof. exact (executeTask_traced H fuel taskName m r m'). Qed.

Lemma world_changes_only_by_run_and_del_witness :
  exists delta more,
    [("v", mkCommand "var" ["Y"; "1"])] = ([] ++ delta)%list
    /\ @nil Output = ([] ++ more)%list
    /\ (Forall offHost delta -> @nil (string * option string) = []).
Proof.
  exact (world_changes_only_by_run_and_del Sim.plainHost 0 "v"
           (start Sim.plainHost (newExecutor Sim.halting "/") [])
           (mkMachine Sim.plainHost
              (mkExecutor Sim.halting "/" [] [] [("Y", "1")]) [] []
              [("v", mkCommand "var" ["Y"; "1"])])
           (completed "v") eq_refl).
Defined.

(** X20: a script without run and del commands cannot touch the world.
    Whatever task of such a script is run, and however its tasks call one
    another, the world after the run is the world before it. *)
Theorem quiet_script_keeps_world (H : Host) (fuel : nat) (taskName : string)
    (m m' : Machine H) (r : ExecutionResult) :
  quietScript (script (this H m)) ->
  executeTask H fuel taskName m = Some (r, m') ->
  world H m' = world H m.
Proof.
  intros Hq Hrun. now destruct (executeTask_quiet H fuel taskName m r m' Hq Hrun).
Qed.

Lemma quiet_script_keeps_world_witness :
  world Sim.plainHost
    (mkMachine Sim.plainHost (mkExecutor Sim.shadowing "/" [] [] [("X", "runtime")])
       [("/a", None)] [console_log "declared"]
       [("t", mkCommand "var" ["X"; "runtime"]); ("t", mkCommand "ech" ["$X"])])
  = world Sim.plainHost
      (start Sim.plainHost (newExecutor Sim.shadowing "/") [("/a", None)]).
Proof.
  apply (quiet_script_keeps_world Sim.plainHost 0 "t"
           (start Sim.plainHost (newExecutor Sim.shadowing "/") [("/a", None)])
           _ (completed "t")).
  - repeat constructor; discriminate.
  - reflexivity.
Defined.

(** X21: every result that executeTask returns carries a message, be
    it a success or a failure, in both variants of the executor. *)
Theorem task_result_carries_message (H : Host) (fuel : nat) (taskName : string)
    (m m' : Machine H) (l l' : Legacy.Machine H) (r r' : ExecutionResult) :
  executeTask H fuel taskName m = Some (r, m') ->
  Legacy.executeTask H fuel taskName l = Some (r', l') ->
  message r <> None /\ message r' <> None.
Proof.
  intros Hm Hl. split.
  - exact (executeTask_speaks H fuel taskName m r m' Hm).
  - exact (legacy_executeTask_speaks H fuel taskName l r' l' Hl).
Qed.

Lemma task_result_carries_message_witness :
  message (mkResult false (Some "Unknown command: boom")) <> None
  /\ message (mkResult false (Some "Unknown command: boom")) <> None.
Proof.
  apply (task_result_carries_message Sim.plainHost 0 "t"
           (start Sim.plainHost (newExecutor Sim.halting "/") [])
           (mkMachine Sim.plainHost (newExecutor Sim.halting "/") []
              [console_log "a"]
              [("t", mkCommand "ech" ["a"]); ("t", mkCommand "boom" ["x"])])
           (Legacy.start Sim.plainHost (Legacy.newExecutor Sim.halting "/") [])
           (Legacy.mkMachine Sim.plainHost (Legacy.newExecutor Sim.halting "/") []
              [console_log "a"]
              [mkCommand "ech" ["a"]; mkCommand "boom" ["x"]]));
    reflexivity.
Defined.

(** X22: a tsk command that names a task the script does not have
    fails with the message of executeTask for a missing task (Task, the
    name between double quotes, not found), as it is, after the line that
    announces the task was written.  Stated for a command in a task whose
    arguments are looked up among the executor's own entries. *)
Theorem tsk_of_missing_task_fails (H : Host) (fuel : nat) (taskName name : string)
    (m : Machine H) :
  literalNames (this H m) -> ordinaryLookup (this H m) taskName = true ->
  plain name = true ->
  noTaskNamed name (script (this H m)) ->
  executeCommand H (S fuel) taskName (mkCommand "tsk" [name]) m
  = Some (mkResult false (Some ("Task " ++ dq ++ name ++ dq ++ " not found")),
          write H (console_log ("Running task: " ++ name))
            (record_call H taskName (mkCommand "tsk" [name]) m)).
Proof.
  intros _ _ Hname Hmiss. unfold executeCommand, executeCommandWith.
  cbn [cmd_type cmd_args String.eqb Ascii.eqb Bool.eqb nth_error].
  rewrite replaceVariables_plain by assumption.
  unfold runTask, nested. rewrite executeTask_eq.
  cbn [write record_call this]. now rewrite findTask_none.
Qed.

Lemma tsk_of_missing_task_fails_witness :
  executeCommand Sim.plainHost 1 "t" (mkCommand "tsk" ["nowhere"])
    (start Sim.plainHost (newExecutor Sim.shadowing "/") [])
  = Some (mkResult false (Some ("Task " ++ dq ++ "nowhere" ++ dq ++ " not found")),
          write Sim.plainHost (console_log ("Running task: " ++ "nowhere"))
            (record_call Sim.plainHost "t" (mkCommand "tsk" ["nowhere"])
               (start Sim.plainHost (newExecutor Sim.shadowing "/") []))).
Proof.
  apply (tsk_of_missing_task_fails Sim.plainHost 0 "t" "nowhere"
           (start Sim.plainHost (newExecutor Sim.shadowing "/") []));
    try reflexivity; repeat constructor; discriminate.
Defined.

(** X23: a command of one of the five kinds that has no argument at
    all.  In the variant with arguments it fails in the catch clause of
    executeCommand (Error executing command, the kind between double
    quotes, and the message of the engine for a method read on undefined)
    and has no effect: nothing is written and nothing is run, deleted or
    set.  In the earlier variant an ech command without argument succeeds
    and prints the word undefined.  Stated, for the variant with
    arguments, for a command in a task whose arguments are looked up
    among the executor's own entries. *)
Theorem command_without_argument (H : Host) (run : TaskRunner H)
    (run' : Legacy.TaskRunner H) (taskName : string) (c : Command)
    (m : Machine H) (l : Legacy.Machine H) :
  ordinaryLookup (this H m) taskName = true ->
  cmd_args c = [] ->
  In (cmd_type c) ["run"; "del"; "ech"; "tsk"; "var"] ->
  executeCommandWith H run taskName c m
  = Some (mkResult false
            (Some ("Error executing command " ++ dq ++ cmd_type c ++ dq ++ ": "
                   ++ undefined_read H (firstMethod (this H m) taskName))),
          record_call H taskName c m)
  /\ (cmd_type c = "ech" ->
      Legacy.executeCommandWith H run' c l
      = Some (mkResult true None,
              Legacy.write H (console_log "undefined") (Legacy.record_call H c l))).
Proof.
  intros _ Hargs Hkind. split.
  - unfold executeCommandWith. rewrite Hargs.
    cbn [nth_error replaceVariables record_call this]. unfold commandError.
    destruct Hkind as [<-|[<-|[<-|[<-|[<-|[]]]]]]; reflexivity.
  - intros Hech. unfold Legacy.executeCommandWith. now rewrite Hargs, Hech.
Qed.

Lemma command_without_argument_witness :
  executeCommandWith Sim.plainHost (fun _ _ => None) "t" (mkCommand "ech" [])
    (start Sim.plainHost (newExecutor Sim.shadowing "/") [])
  = Some (mkResult false
            (Some ("Error executing command " ++ dq ++ "ech" ++ dq ++ ": "
                   ++ "Cannot read properties of undefined (reading 'replace')")),
          record_call Sim.plainHost "t" (mkCommand "ech" [])
            (start Sim.plainHost (newExecutor Sim.shadowing "/") []))
  /\ (cmd_type (mkCommand "ech" []) = "ech" ->
      Legacy.executeCommandWith Sim.plainHost (fun _ _ => None) (mkCommand "ech" [])
        (Legacy.start Sim.plainHost (Legacy.newExecutor Sim.shadowing "/") [])
      = Some (mkResult true None,
              Legacy.write Sim.plainHost (console_log "undefined")
                (Legacy.record_call Sim.plainHost (mkCommand "ech" [])
                   (Legacy.start Sim.plainHost (Legacy.newExecutor Sim.shadowing "/") [])))).
Proof.
  apply (command_without_argument Sim.plainHost (fun _ _ => None) (fun _ _ => None)
           "t" (mkCommand "ech" [])
           (start Sim.plainHost (newExecutor Sim.shadowing "/") [])
           (Legacy.start Sim.plainHost (Legacy.newExecutor Sim.shadowing "/") [])).
  - reflexivity.
  - reflexivity.
  - cbn. tauto.
Defined.



(** X26: a task without tsk and run commands returns a result under
    every bound, whatever the host does: its commands neither call a
    task nor wait for a child. *)
Theorem task_without_tsk_returns (H : Host) (fuel : nat) (taskName : string)
    (task : Task) (m : Machine H) :
  findTask taskName (script (this H m)) = Some task ->
  Forall (fun c => cmd_type c <> "tsk" /\ cmd_type c <> "run") (task_commands task) ->
  exists r m', executeTask H fuel taskName m = Some (r, m').
Proof.
  intros Hfind Hall. rewrite executeTask_eq, Hfind.
  apply forCommands_returns. intros c m1 Hin.
  apply executeCommand_returns. rewrite Forall_forall in Hall. now apply Hall.
Qed.

Lemma task_without_tsk_returns_witness :
  exists r m',
    executeTask Sim.plainHost 0 "t"
      (start Sim.plainHost (newExecutor Sim.halting "/") []) = Some (r, m').
Proof.
  apply (task_without_tsk_returns Sim.plainHost 0 "t"
           (mkTask "t" [mkCommand "ech" ["a"]; mkCommand "boom" ["x"]; mkCommand "ech" ["b"]])
           (start Sim.plainHost (newExecutor Sim.halting "/") [])).
  - reflexivity.
  - repeat constructor; discriminate.
Defined.

End ExecutorProperties.

(** * Properties of the code beyond the specification: the command line *)

Module CliProperties.
Import JSString JSObject Common Notions MoreNotions Exec Cli.
Import StringFacts ExecFacts CliFacts.

(** X27: an argument that starts with two dashes takes the argument
    behind it for its value, whatever that is.  When the arguments are
    such pairs only, none of them an option of main itself, no task is
    run, not even when a value is the name of a task of the script;
    nothing but the closing lines is written and the run ends as a
    success. *)
Theorem cli_named_arguments_swallow_names (H : Host) (style : Style) (fuel : nat)
    (pairs : list (string * string)) (m : Machine H) :
  reachLoop (namedPairs pairs) = true ->
  runTasks H style fuel (namedPairs pairs) m = Some (Completed, closing style m).
Proof.
  intros _. unfold runTasks.
  rewrite <- (List.app_nil_r (namedPairs pairs)), taskLoop_named. reflexivity.
Qed.

Lemma cli_named_arguments_swallow_names_witness :
  runTasks Sim.plainHost plainStyle 1 (namedPairs [("verbose", "t")])
    (start Sim.plainHost (newExecutor Sim.halting "/") [])
  = Some (Completed,
          closing plainStyle (start Sim.plainHost (newExecutor Sim.halting "/") [])).
Proof.
  apply (cli_named_arguments_swallow_names Sim.plainHost plainStyle 1
           [("verbose", "t")] (start Sim.plainHost (newExecutor Sim.halting "/") [])).
  reflexivity.
Defined.

(** X28: the first task that fails ends the run.  When the task named
    first fails, with the positional arguments that follow its name, the
    process exits with status 1 after the failure was reported, and the
    arguments behind the next name are not acted on.  Stated for
    arguments that hold no option of main itself, task names that are no
    names that objects inherit, in the script and on the command line,
    and an executor whose names are free of regular expression syntax and
    whose dictionary of arguments has its first prototype. *)
Theorem cli_stops_at_first_failing_task (H : Host) (style : Style) (fuel : nat)
    (t1 t2 : string) (pos rest : list string) (m m' : Machine H) :
  reachLoop (t1 :: positionalArgs pos ++ t2 :: rest) = true ->
  literalNames (this H m) -> ordinaryTasks (script (this H m)) = true ->
  hasKey "__proto__" (taskArgs (this H m)) = false ->
  isTaskName t1 -> nameLike t2 ->
  runCurrent H style fuel t1 pos [] m = Some (Failed H m') ->
  runTasks H style fuel (t1 :: positionalArgs pos ++ t2 :: rest) m = Some (Exited 1, m').
Proof.
  intros _ _ _ _ Hname Ht2 Hrun. pose proof Hname as (Hne & Ht1 & _). unfold runTasks.
  rewrite taskLoop_name by exact Ht1. cbn [String.eqb].
  rewrite taskLoop_positional. cbn [app].
  rewrite taskLoop_name by exact Ht2.
  rewrite (isTaskName_eqb t1) by exact Hname.
  now rewrite Hrun.
Qed.

Lemma cli_stops_at_first_failing_task_witness :
  runTasks Sim.plainHost plainStyle 1 ("t" :: positionalArgs ["x"] ++ "u" :: ["v"])
    (start Sim.plainHost (newExecutor Sim.halting "/") [])
  = Some (Exited 1,
          mkMachine Sim.plainHost (mkExecutor Sim.halting "/" [("t", ["x"])] [] []) []
            [console_log "Executing task: t"; console_log "Task output:";
             console_log "a"; console_log "Failed: Unknown command: boom";
             console_log (String lf "")]
            [("t", mkCommand "ech" ["a"]); ("t", mkCommand "boom" ["x"])]).
Proof.
  apply (cli_stops_at_first_failing_task Sim.plainHost plainStyle 1 "t" "u" ["x"] ["v"]
           (start Sim.plainHost (newExecutor Sim.halting "/") [])).
  - reflexivity.
  - constructor.
  - reflexivity.
  - reflexivity.
  - repeat split. discriminate.
  - split; reflexivity.
  - reflexivity.
Defined.

(** X29: run from the command line, a script without run and del
    commands cannot touch the world, whatever the arguments are and
    however the run ends. *)
Theorem cli_quiet_script_keeps_world (H : Host) (style : Style) (fuel : nat)
    (args : list string) (m m' : Machine H) (e : Ending) :
  quietScript (script (this H m)) ->
  runTasks H style fuel args m = Some (e, m') ->
  world H m' = world H m.
Proof. exact (runTasks_quiet H style fuel args m m' e). Qed.

Lemma cli_quiet_script_keeps_world_witness :
  world Sim.plainHost
    (closing plainStyle
       (mkMachine Sim.plainHost
          (mkExecutor Sim.shadowing "/" [("t", [])] [] [("X", "runtime")])
          [("/a", None)]
          [console_log "Executing task: t"; console_log "Task output:";
           console_log "declared"]
          [("t", mkCommand "var" ["X"; "runtime"]); ("t", mkCommand "ech" ["$X"])]))
  = world Sim.plainHost
      (start Sim.plainHost (newExecutor Sim.shadowing "/") [("/a", None)]).
Proof.
  apply (cli_quiet_script_keeps_world Sim.plainHost plainStyle 0 ["t"]
           (start Sim.plainHost (newExecutor Sim.shadowing "/") [("/a", None)])
           _ Completed).
  - repeat constructor; discriminate.
  - reflexivity.
Defined.

(** X30: which arguments a task gets.  With two tasks named, the first
    runs when the second name is met: it gets the positional arguments
    written before the second name, those before its own name included,
    and none of the named arguments written behind the second name.  The
    second task gets the positional arguments behind its name and the
    named arguments (a named argument __proto__ is not stored), and how
    it ends is how the run ends.  Stated for arguments that hold no
    option of main itself, task names that are no names that objects
    inherit, in the script and on the command line, names and keys free
    of regular expression syntax, and an executor whose dictionary of
    arguments has its first prototype. *)
Theorem cli_two_tasks_and_their_arguments (H : Host) (style : Style) (fuel : nat)
    (t1 t2 : string) (pre mid post : list string) (pairs : list (string * string))
    (m m1 : Machine H) :
  reachLoop (positionalArgs pre ++ t1 :: positionalArgs mid ++ t2 :: positionalArgs post
               ++ namedPairs pairs) = true ->
  literalNames (this H m) -> ordinaryTasks (script (this H m)) = true ->
  hasKey "__proto__" (taskArgs (this H m)) = false ->
  Forall (fun p => literalName (fst p) = true) pairs ->
  isTaskName t1 -> isTaskName t2 ->
  runCurrent H style fuel t1 (pre ++ mid) [] m = Some (Succeeded H m1) ->
  runTasks H style fuel
    (positionalArgs pre ++ t1 :: positionalArgs mid ++ t2 :: positionalArgs post
       ++ namedPairs pairs) m
  = afterLast style (runCurrent H style fuel t2 post (storeAll pairs []) m1).
Proof.
  intros _ _ _ _ _ Hname1 Hname2 Hrun.
  pose proof Hname1 as (Hne1 & Ht1 & _). pose proof Hname2 as (Hne2 & Ht2 & _).
  unfold runTasks.
  rewrite taskLoop_positional. cbn [app].
  rewrite taskLoop_name by exact Ht1. cbn [String.eqb].
  rewrite taskLoop_positional.
  rewrite taskLoop_name by exact Ht2.
  rewrite (isTaskName_eqb t1) by exact Hname1.
  rewrite Hrun. rewrite taskLoop_positional. cbn [app].
  rewrite <- (List.app_nil_r (namedPairs pairs)), taskLoop_named. cbn [taskLoop].
  rewrite (isTaskName_eqb t2) by exact Hname2.
  reflexivity.
Qed.

Lemma cli_two_tasks_and_their_arguments_witness :
  runTasks Sim.plainHost plainStyle 1
    (positionalArgs ["a"] ++ "v" :: positionalArgs ["b"] ++ "t" :: positionalArgs ["c"]
       ++ namedPairs [("mode", "fast")])
    (start Sim.plainHost (newExecutor Sim.halting "/") [])
  = afterLast plainStyle
      (runCurrent Sim.plainHost plainStyle 1 "t" ["c"] (storeAll [("mode", "fast")] [])
         (mkMachine Sim.plainHost
            (mkExecutor Sim.halting "/" [("v", ["a"; "b"])] [] [("Y", "1")]) []
            [console_log "Executing task: v"; console_log "Task output:"]
            [("v", mkCommand "var" ["Y"; "1"])])).
Proof.
  apply (cli_two_tasks_and_their_arguments Sim.plainHost plainStyle 1 "v" "t"
           ["a"] ["b"] ["c"] [("mode", "fast")]
           (start Sim.plainHost (newExecutor Sim.halting "/") [])).
  - reflexivity.
  - constructor.
  - reflexivity.
  - reflexivity.
  - repeat constructor.
  - repeat split. discriminate.
  - repeat split. discriminate.
  - reflexivity.
Defined.

End CliProperties.
